(** * Sortify: ensemble classification and adaptive placement engine

    A shallow embedding of the arbitration logic ([services/pipeline.py],
    [core/classification/voters.py], [services/clustering.py]), the folder
    clusters ([core/models.py]), the semantic memory ([services/memory.py])
    and the two move executors ([services/executor.py],
    [services/execution.py]).

    Python floats are modelled by the rationals [Q] (exact arithmetic);
    Python dicts by insertion-ordered association lists, since
    [max(d, key=d.get)] breaks ties by insertion order; the filesystem by
    a finite map from paths to nodes.  Calls into collaborators (voters,
    the embedding model, the operating system) are functions or oracles
    supplied by the caller; a call that raises returns no value. *)

From Stdlib Require Import Ascii String QArith Qminmax Lqa Permutation.
From stdpp Require Import gmap strings list pretty.

Open Scope string_scope.
Open Scope list_scope.
Open Scope Q_scope.

(** ** Python numbers and builtins *)

Definition Qlt_bool (x y : Q) : bool := negb (Qle_bool y x).

(** [min(a, b)]: the first argument unless the second is strictly smaller. *)
Definition py_min (a b : Q) : Q := if Qlt_bool b a then b else a.

(** ** Python dicts with string keys, in insertion order *)

Module Dict.

Definition t (V : Type) := list (string * V).

Fixpoint get {V} (k : string) (d : t V) : option V :=
  match d with
  | [] => None
  | (k', v) :: d' => if String.eqb k k' then Some v else get k d'
  end.

Definition mem {V} (k : string) (d : t V) : bool :=
  match get k d with Some _ => true | None => false end.

(** [d[k] = v]: overwrite in place, or append a new key at the end. *)
Fixpoint set {V} (k : string) (v : V) (d : t V) : t V :=
  match d with
  | [] => [(k, v)]
  | (k', v') :: d' =>
      if String.eqb k k' then (k', v) :: d' else (k', v') :: set k v d'
  end.

Definition keys {V} (d : t V) : list string := map fst d.

(** [max(d, key=d.get)] on a dict of numbers: the running best is
    replaced only by a strictly larger value, so the first maximal key
    in insertion order wins. *)
Fixpoint max_from (best : string * Q) (rest : t Q) : string * Q :=
  match rest with
  | [] => best
  | (k, v) :: rest' =>
      if Qlt_bool (snd best) v then max_from (k, v) rest'
      else max_from best rest'
  end.

Definition max_key (d : t Q) : option string :=
  match d with
  | [] => None
  | kv :: rest => Some (fst (max_from kv rest))
  end.

End Dict.

(** ** Voters ([core/classification/voters.py], [services/clustering.py]) *)

Module Voters.

Record FileContext := {
  path : string;
  mime_type : string;
  text : string;
  metadata : list (string * string)
}.

(** What a call of [vote] does: it raises, or it returns
    [(category, confidence)]. *)
Inductive Outcome :=
| Raised
| Returned (category : string) (confidence : Q).

Record Voter := {
  name : string;
  weight : Q;
  vote : FileContext -> Outcome
}.

(** *** The session tracker *)

Record FileEvent := {
  ev_path : string;
  ev_category : string;
  ev_timestamp : Z
}.

Record SessionManager := {
  window : Z;
  history : list FileEvent
}.

Definition history_maxlen : nat := 50.

(** [deque(maxlen=50).append]: a full deque drops its oldest element. *)
Definition deque_append (d : list FileEvent) (e : FileEvent) : list FileEvent :=
  if (history_maxlen <=? length d)%nat then tl d ++ [e] else d ++ [e].

Definition add_event (now : Z) (self : SessionManager) (p category : string)
  : SessionManager :=
  if String.eqb category "Unknown" then self
  else {| window := window self;
          history := deque_append (history self)
                       {| ev_path := p; ev_category := category;
                          ev_timestamp := now |} |}.

Definition count_event (counts : Dict.t Z) (e : FileEvent) : Dict.t Z :=
  Dict.set (ev_category e)
    (default 0%Z (Dict.get (ev_category e) counts) + 1)%Z counts.

Definition get_current_session_context (now : Z) (self : SessionManager)
  : Dict.t Q :=
  let recent_events :=
    List.filter (fun e => (now - ev_timestamp e <? window self)%Z)
      (history self) in
  match recent_events with
  | [] => []
  | _ =>
      let counts := fold_left count_event recent_events [] in
      let total := Z.of_nat (length recent_events) in
      map (fun '(cat, count) => (cat, inject_Z count / inject_Z total)) counts
  end.

(** *** [SessionVoter.vote], as a function of the session distribution *)

Definition session_vote (context_dist : Dict.t Q) : Outcome :=
  match Dict.max_key context_dist with
  | None => Returned "Unknown" 0
  | Some best_cat =>
      let confidence := default 0 (Dict.get best_cat context_dist) in
      if Qlt_bool (1 # 2) confidence
      then Returned best_cat (py_min confidence (9 # 10))
      else Returned "Unknown" 0
  end.

Definition SessionVoter (now : Z) (session_manager : SessionManager) : Voter :=
  {| name := "Session";
     weight := 1 # 2;
     vote := fun _ =>
       session_vote (get_current_session_context now session_manager) |}.

(** *** [NLIVoter]; [reason_placement] catches its own failures and
    answers a label or ["Unknown"]. *)

Definition NLIVoter (reason_placement : string -> string -> list string -> string)
    (candidates : list string) : Voter :=
  {| name := "NLI";
     weight := 9 # 10;
     vote := fun context =>
       if String.eqb (text context) "" then Returned "Unknown" 0
       else
         let cat := reason_placement (path context) (text context) candidates in
         if negb (String.eqb cat "Unknown") then Returned cat (17 # 20)
         else Returned "Unknown" 0 |}.

End Voters.

(** ** The voting engine ([services/pipeline.py]) *)

Module Pipeline.
Import Voters.

(** A collected vote [(voter, category, confidence)]. *)
Definition Vote : Type := Voter * string * Q.

Record VotingEngine := {
  voters : list Voter;
  nli_voter : Voter
}.

Record VoteEntry := {
  entry_voter : string;
  entry_category : string;
  entry_confidence : Q
}.

(** The result dict, without [keywords], [embedding] and
    [processing_time], which do not depend on the votes. *)
Record Result := {
  file_path : string;
  category : string;
  confidence : Q;
  method : string;
  votes : list VoteEntry
}.

(** Calls that leave the engine, in the order they are made. *)
Inductive Event :=
| FastVote (voter : string) (o : Outcome)
| NLIVote (o : Outcome)
| SessionEvent (p category : string).

(** *** [_arbitrate] *)

Definition tally (scoreboard : Dict.t Q) (v : Vote) : Dict.t Q :=
  let '(voter, category, confidence) := v in
  let scoreboard :=
    if Dict.mem category scoreboard then scoreboard
    else Dict.set category 0 scoreboard in
  let score := weight voter * confidence in
  Dict.set category
    (default 0 (Dict.get category scoreboard) + score) scoreboard.

Definition _arbitrate (votes : list Vote) : string * Q * Dict.t Q :=
  match votes with
  | [] => ("Unknown", 0, [])
  | _ =>
      let scoreboard := fold_left tally votes [] in
      match Dict.max_key scoreboard with
      | None => ("Unknown", 0, [])
      | Some winner =>
          let raw_score := default 0 (Dict.get winner scoreboard) in
          let final_confidence := py_min raw_score 1 in
          (winner, final_confidence, scoreboard)
      end
  end.

(** The score the specification gives a category: the sum of
    [voter.weight * confidence] over the votes cast for it. *)
Definition voted_for (c : string) (v : Vote) : bool :=
  let '(_, category, _) := v in String.eqb category c.

Definition weighted (v : Vote) : Q :=
  let '(voter, _, confidence) := v in weight voter * confidence.

Definition score_of (c : string) (votes : list Vote) : Q :=
  fold_right Qplus 0 (map weighted (List.filter (voted_for c) votes)).

(** *** [process_file] *)

Definition NLI_THRESHOLD : Q := 3 # 5.

(** One turn of the loop over the futures: a vote that is not
    ["Unknown"] is kept, a voter that raised is skipped. *)
Definition collect (context : FileContext) (votes : list Vote) (voter : Voter)
  : list Vote :=
  match vote voter context with
  | Returned cat conf =>
      if negb (String.eqb cat "Unknown") then votes ++ [(voter, cat, conf)]
      else votes
  | Raised => votes
  end.

Definition fast_votes (self : VotingEngine) (context : FileContext) : list Vote :=
  fold_left (collect context) (voters self) [].

Definition fast_events (self : VotingEngine) (context : FileContext) : list Event :=
  map (fun v => FastVote (name v) (vote v context)) (voters self).

Definition vote_entry (v : Vote) : VoteEntry :=
  let '(voter, c, s) := v in
  {| entry_voter := name voter; entry_category := c; entry_confidence := s |}.

(** The tail of [process_file]: the session update and the result. *)
Definition finish (context : FileContext) (winner : string) (conf : Q)
    (meth : string) (votes : list Vote) : list Event * option Result :=
  (if negb (String.eqb winner "Unknown")
   then [SessionEvent (path context) winner] else [],
   Some {| file_path := path context;
           category := winner;
           confidence := conf;
           method := meth;
           votes := map vote_entry votes |}).

Definition escalates (winner : string) (conf : Q) (context : FileContext) : bool :=
  (String.eqb winner "Unknown" || Qlt_bool conf NLI_THRESHOLD)
  && negb (String.eqb (text context) "").

(** [process_file] on an enriched context: the calls made, and the
    result ([None] when the NLI voter's exception escapes). *)
Definition process_file (self : VotingEngine) (context : FileContext)
  : list Event * option Result :=
  let votes := fast_votes self context in
  let trace := fast_events self context in
  let '(winner, conf, _) := _arbitrate votes in
  if escalates winner conf context then
    match vote (nli_voter self) context with
    | Raised => (trace ++ [NLIVote Raised], None)
    | Returned nli_cat nli_conf =>
        let trace := trace ++ [NLIVote (Returned nli_cat nli_conf)] in
        if negb (String.eqb nli_cat "Unknown") then
          let votes := votes ++ [(nli_voter self, nli_cat, nli_conf)] in
          let '(winner, conf, _) := _arbitrate votes in
          let '(evs, r) :=
            finish context winner conf "voting_ensemble_with_nli" votes in
          (trace ++ evs, r)
        else
          let '(evs, r) := finish context winner conf "voting_ensemble" votes in
          (trace ++ evs, r)
    end
  else
    let '(evs, r) := finish context winner conf "voting_ensemble" votes in
    (trace ++ evs, r).

(** The ballot of one fast voter: what [collect] appends for it. *)
Definition ballot (context : FileContext) (voter : Voter) : list Vote :=
  match vote voter context with
  | Returned cat conf =>
      if negb (String.eqb cat "Unknown") then [(voter, cat, conf)] else []
  | Raised => []
  end.

(** Reading a trace: the calls of the NLI voter, and the calls that
    produced a vote other than ["Unknown"]. *)
Definition is_nli_call (e : Event) : bool :=
  match e with NLIVote _ => true | _ => false end.

Definition nli_calls (t : list Event) : nat :=
  length (List.filter is_nli_call t).

Definition casts_vote (o : Outcome) : bool :=
  match o with
  | Returned cat _ => negb (String.eqb cat "Unknown")
  | Raised => false
  end.

Definition produced_vote (e : Event) : bool :=
  match e with
  | FastVote _ o => casts_vote o
  | NLIVote o => casts_vote o
  | SessionEvent _ _ => false
  end.

End Pipeline.

(** ** Folder clusters ([core/models.py]) *)

Module Models.

(** A one-dimensional numpy array. *)
Abbreviation ndarray := (list Q).

(** How a call ends. *)
Inductive Completion := Normal | ValueError.

(** An elementwise numpy operation on one-dimensional arrays: equal
    lengths combine pointwise, a length-one array is broadcast, any
    other pair of shapes raises [ValueError]. *)
Definition broadcast (f : Q -> Q -> Q) (a b : ndarray) : option ndarray :=
  if (length a =? length b)%nat then Some (zip_with f a b)
  else match a, b with
       | [x], _ => Some (map (f x) b)
       | _, [y] => Some (map (fun x => f x y) a)
       | _, _ => None
       end.

Definition MIN_FILES_FOR_CENTROID : Z := 3.

Record FolderCluster := {
  path : string;
  centroid : option ndarray;
  name_embedding : option ndarray;
  n_files : Z
}.

Definition set_centroid (self : FolderCluster) (c : option ndarray) (n : Z)
  : FolderCluster :=
  {| path := path self; centroid := c;
     name_embedding := name_embedding self; n_files := n |}.

(** [update_centroid]; [n_files] is incremented before the array
    expression is evaluated, so it stays incremented when that raises.
    (A division by [n_files = 0], which needs a negative stored count,
    is [inf]/[nan] in numpy and [0] here.) *)
Definition update_centroid (self : FolderCluster) (new_embedding : ndarray)
  : FolderCluster * Completion :=
  match centroid self with
  | None => (set_centroid self (Some new_embedding) 1, Normal)
  | Some c =>
      let n := (n_files self + 1)%Z in
      match broadcast Qminus new_embedding c with
      | None => (set_centroid self (Some c) n, ValueError)
      | Some diff =>
          match broadcast Qplus c (map (fun x => x / inject_Z n) diff) with
          | None => (set_centroid self (Some c) n, ValueError)
          | Some c' => (set_centroid self (Some c') n, Normal)
          end
      end
  end.

Definition get_effective_embedding (self : FolderCluster) : option ndarray :=
  match centroid self with
  | Some c =>
      if (MIN_FILES_FOR_CENTROID <=? n_files self)%Z then Some c
      else name_embedding self
  | None => name_embedding self
  end.

(** Successive calls of [update_centroid]; the first one that raises
    ends the run. *)
Fixpoint update_all (self : FolderCluster) (es : list ndarray)
  : FolderCluster * Completion :=
  match es with
  | [] => (self, Normal)
  | e :: es' =>
      match update_centroid self e with
      | (self', Normal) => update_all self' es'
      | r => r
      end
  end.

(** The arithmetic mean of [es], written coordinate by coordinate
    for vectors of dimension [d]. *)
Definition coordinate_sum (i : nat) (es : list ndarray) : Q :=
  fold_right Qplus 0 (map (fun e => nth i e 0) es).

Definition arithmetic_mean (d : nat) (es : list ndarray) : ndarray :=
  map (fun i => coordinate_sum i es / inject_Z (Z.of_nat (length es)))
      (seq 0 d).

(** Equality of arrays up to the equality of rationals. *)
Definition array_eq (a b : ndarray) : Prop := Forall2 Qeq a b.

End Models.

(** ** Paths and the filesystem ([pathlib], [shutil]) *)

Module Fs.

(** A path is its list of components; [str] and [Path] convert
    between a path and its text and are left implicit. *)
Definition Path := list string.

Definition parent (p : Path) : Path := removelast p.
Definition name (p : Path) : string := List.last p "".

(** [p / n] for a single component [n]. *)
Definition joinpath (p : Path) (n : string) : Path := p ++ [n].

(** [name.rfind('.')] *)
Fixpoint rfind_dot (s : string) : option nat :=
  match s with
  | EmptyString => None
  | String c s' =>
      match rfind_dot s' with
      | Some i => Some (S i)
      | None => if Ascii.eqb c "."%char then Some 0%nat else None
      end
  end.

(** [PurePath.stem] and [PurePath.suffix]: the name is cut at its last
    dot unless that dot is the first or the last character. *)
Definition split_name (n : string) : string * string :=
  match rfind_dot n with
  | Some i =>
      if ((0 <? i) && (i <? String.length n - 1))%nat
      then (substring 0 i n, substring i (String.length n - i) n)
      else (n, "")
  | None => (n, "")
  end.

Definition stem (p : Path) : string := fst (split_name (name p)).
Definition suffix (p : Path) : string := snd (split_name (name p)).

Inductive Node := File (content : string) | Dir.

Abbreviation FileSystem := (gmap Path Node).

Definition exists_ (fs : FileSystem) (p : Path) : bool :=
  match fs !! p with Some _ => true | None => false end.

(** Failures of the operating system that the model does not derive
    from the filesystem itself (permissions, devices, full disks). *)
Record OS := {
  mkdir_fails : Path -> bool;
  move_fails : Path -> Path -> bool;
  save_fails : bool
}.

Definition ancestors (p : Path) : list Path :=
  map (fun n => take n p) (seq 1 (length p)).

Definition is_file (fs : FileSystem) (p : Path) : bool :=
  match fs !! p with Some (File _) => true | _ => false end.

Definition ensure_dir (p : Path) (fs : FileSystem) : FileSystem :=
  match fs !! p with
  | None => <[p := Dir]> fs
  | Some _ => fs
  end.

(** [p.mkdir(parents=True, exist_ok=True)]; [None] when it raises. *)
Definition mkdir (os : OS) (fs : FileSystem) (p : Path) : option FileSystem :=
  if mkdir_fails os p then None
  else if existsb (is_file fs) (ancestors p) then None
  else Some (fold_right ensure_dir fs (ancestors p)).

Definition is_dir (fs : FileSystem) (p : Path) : bool :=
  match p with
  | [] => true
  | _ => match fs !! p with Some Dir => true | _ => false end
  end.

(** [shutil.move(src, dst)]; [None] when it raises.  An existing
    directory [dst] receives the source under its own name; the
    directory that receives the file has to exist.  Only the node at
    [src] is re-bound: the executors move files. *)
Definition shutil_move (os : OS) (fs : FileSystem) (src dst : Path)
  : option FileSystem :=
  if move_fails os src dst then None
  else
    match fs !! src with
    | None => None
    | Some node =>
        match fs !! dst with
        | Some Dir =>
            let real_dst := joinpath dst (name src) in
            if exists_ fs real_dst then None
            else Some (<[real_dst := node]> (delete src fs))
        | _ =>
            if is_dir fs (parent dst)
            then Some (<[dst := node]> (delete src fs))
            else None
        end
    end.

(** What the executors do to the outside world, in order: filesystem
    operations as they are attempted, and transaction records as they
    reach durable storage, with the status they carry (the JSON log's
    records carry none). *)
Inductive IoEvent :=
| FsMkdir (p : Path)
| FsMove (src dst : Path)
| RecordWritten (src dst : Path) (status : option string).

(** The candidate [parent / f"{stem}_v{counter}{suffix}"]. *)
Definition versioned (dest : Path) (counter : nat) : Path :=
  joinpath (parent dest)
    (stem dest +:+ "_v" +:+ pretty counter +:+ suffix dest).

(** The [while True] loop of both collision resolvers, with the number
    of iterations bounded by [fuel]. *)
Fixpoint first_free (fuel : nat) (fs : FileSystem) (dest : Path) (counter : nat)
  : option Path :=
  match fuel with
  | O => None
  | S fuel' =>
      let new_dest := versioned dest counter in
      if negb (exists_ fs new_dest) then Some new_dest
      else first_free fuel' fs dest (S counter)
  end.




End Fs.

(** ** The JSON-log executor ([services/executor.py]) *)

Module Executor.
Import Fs.

Record Tx := {
  action : string;
  src : Path;
  dest : Path;
  timestamp : Z
}.

Record Executor := {
  transactions : list Tx;          (* self.transactions *)
  transaction_log_file : list Tx;  (* the content of transactions.json *)
  _recently_moved : gmap Path Z
}.

Definition set_transactions (self : Executor) (txs : list Tx) : Executor :=
  {| transactions := txs;
     transaction_log_file := transaction_log_file self;
     _recently_moved := _recently_moved self |}.

(** [_save_transactions] logs and swallows its own failure. *)
Definition _save_transactions (os : OS) (self : Executor) : Executor :=
  if save_fails os then self
  else {| transactions := transactions self;
          transaction_log_file := transactions self;
          _recently_moved := _recently_moved self |}.

Definition save_events (os : OS) (tx : Tx) : list IoEvent :=
  if save_fails os then [] else [RecordWritten (src tx) (dest tx) None].

(** [_get_safe_dest]; the loop is given one more turn than there are
    paths in the filesystem. *)
Definition _get_safe_dest (fs : FileSystem) (dest : Path) : option Path :=
  if negb (exists_ fs dest) then Some dest
  else first_free (S (size fs)) fs dest 2.

Record Outcome := {
  returned : bool;
  fs_after : FileSystem;
  self_after : Executor;
  trace : list IoEvent
}.

Definition outcome (r : bool) (fs : FileSystem) (self : Executor)
    (t : list IoEvent) : Outcome :=
  {| returned := r; fs_after := fs; self_after := self; trace := t |}.

(** [safe_move]; every exception is caught and answered with [False].
    [None] only if the collision loop ran out of turns.  A [new_name],
    when given, is a plain file name, joined to the folder as one
    component: the empty name and names that pathlib would split or
    resolve are outside this definition. *)
Definition safe_move (os : OS) (DRY_RUN : bool) (now : Z)
    (fs : FileSystem) (self : Executor)
    (src_ dest_folder : Path) (new_name : option string) : option Outcome :=
  if negb (exists_ fs src_) then Some (outcome false fs self [])
  else
    let dest_name := default (name src_) new_name in
    match _get_safe_dest fs (joinpath dest_folder dest_name) with
    | None => None
    | Some final_dest =>
        if DRY_RUN then Some (outcome true fs self [])
        else
          match mkdir os fs dest_folder with
          | None => Some (outcome false fs self [FsMkdir dest_folder])
          | Some fs1 =>
              match shutil_move os fs1 src_ final_dest with
              | None =>
                  Some (outcome false fs1 self
                          [FsMkdir dest_folder; FsMove src_ final_dest])
              | Some fs2 =>
                  let tx := {| action := "move"; src := src_;
                               dest := final_dest; timestamp := now |} in
                  let self1 :=
                    {| transactions := transactions self ++ [tx];
                       transaction_log_file := transaction_log_file self;
                       _recently_moved :=
                         <[final_dest := now]> (_recently_moved self) |} in
                  Some (outcome true fs2 (_save_transactions os self1)
                          ([FsMkdir dest_folder; FsMove src_ final_dest]
                           ++ save_events os tx))
              end
          end
    end.

(** [undo_last]; the last transaction is popped before it is looked at. *)
Definition undo_last (os : OS) (fs : FileSystem) (self : Executor) : Outcome :=
  match rev (transactions self) with
  | [] => outcome false fs self []
  | last_tx :: _ =>
      let self1 := set_transactions self (removelast (transactions self)) in
      if String.eqb (action last_tx) "move" then
        if exists_ fs (dest last_tx) && negb (exists_ fs (src last_tx)) then
          match shutil_move os fs (dest last_tx) (src last_tx) with
          | Some fs' =>
              outcome true fs' (_save_transactions os self1)
                [FsMove (dest last_tx) (src last_tx)]
          | None =>
              outcome false fs self1 [FsMove (dest last_tx) (src last_tx)]
          end
        else outcome false fs self1 []
      else outcome false fs self1 []
  end.

End Executor.

(** ** The database-backed executor ([services/execution.py]) *)

Module Execution.
Import Fs.

Record Transaction := {
  id : string;
  src_path : Path;
  dest_path : Path;
  action_type : string;
  status : string;
  rollback_data_json : Path    (* {"original_path": str(src)} *)
}.

Record FileIndex := {
  current_path : Path;
  last_seen : Z;
  index_status : string
}.

(** The committed content of the two tables, by primary key. *)
Record Database := {
  transaction_table : gmap string Transaction;
  fileindex_table : gmap string FileIndex
}.

Definition set_status (tx : Transaction) (s : string) : Transaction :=
  {| id := id tx; src_path := src_path tx; dest_path := dest_path tx;
     action_type := action_type tx; status := s;
     rollback_data_json := rollback_data_json tx |}.

Definition commit_transaction (db : Database) (tx : Transaction) : Database :=
  {| transaction_table := <[id tx := tx]> (transaction_table db);
     fileindex_table := fileindex_table db |}.

Definition commit_fileindex (db : Database) (file_hash : string)
    (row : FileIndex) : Database :=
  {| transaction_table := transaction_table db;
     fileindex_table := <[file_hash := row]> (fileindex_table db) |}.

(** [_resolve_collision]; the loop is given one more turn than there
    are paths in the filesystem. *)
Definition _resolve_collision (fs : FileSystem) (dest : Path) : option Path :=
  if negb (exists_ fs dest) then Some dest
  else first_free (S (size fs)) fs dest 1.

Record Outcome := {
  raised : bool;
  fs_after : FileSystem;
  db_after : Database;
  trace : list IoEvent
}.

Definition outcome (r : bool) (fs : FileSystem) (db : Database)
    (t : list IoEvent) : Outcome :=
  {| raised := r; fs_after := fs; db_after := db; trace := t |}.

Definition written (tx : Transaction) : IoEvent :=
  RecordWritten (src_path tx) (dest_path tx) (Some (status tx)).

(** [execute_move]; [tx_id] is the identifier drawn by [uuid4], [now]
    the clock.  The first commit inserts the row and raises when the
    primary key is taken; the later commits update the row.  Apart from
    that the database and the completion signal are taken not to fail,
    so every call that raises here raises before the file has moved;
    in the code a failure of the index lookup, of the second commit or
    of the signal raises with the file already at its destination.
    [None] only if the collision loop ran out of turns. *)
Definition execute_move (os : OS) (tx_id : string) (now : Z)
    (fs : FileSystem) (db : Database) (src dest : Path) (file_hash : string)
  : option Outcome :=
  match _resolve_collision fs dest with
  | None => None
  | Some final_dest =>
      let tx := {| id := tx_id; src_path := src; dest_path := final_dest;
                   action_type := "move"; status := "pending";
                   rollback_data_json := src |} in
      match transaction_table db !! tx_id with
      | Some _ => Some (outcome true fs db [])
      | None =>
          let db1 := commit_transaction db tx in
          let failed := set_status tx "failed" in
          match mkdir os fs (parent final_dest) with
          | None =>
              Some (outcome true fs (commit_transaction db1 failed)
                      [written tx; FsMkdir (parent final_dest); written failed])
          | Some fs1 =>
              match shutil_move os fs1 src final_dest with
              | None =>
                  Some (outcome true fs1 (commit_transaction db1 failed)
                          [written tx; FsMkdir (parent final_dest);
                           FsMove src final_dest; written failed])
              | Some fs2 =>
                  let committed := set_status tx "committed" in
                  (* a new row, or the existing row updated: the same
                     on the columns kept here *)
                  let existing_idx :=
                    {| current_path := final_dest; last_seen := now;
                       index_status := "processed" |} in
                  let db2 :=
                    commit_fileindex (commit_transaction db1 committed)
                      file_hash existing_idx in
                  Some (outcome false fs2 db2
                          [written tx; FsMkdir (parent final_dest);
                           FsMove src final_dest; written committed])
              end
          end
      end
  end.

End Execution.

(** ** The semantic memory ([services/memory.py]) *)

Module Memory.

(** The JSON payload of an [embedding] field: a list of items, each
    a number or not, or something that is not a list. *)
Inductive JsonItem :=
| JNum (q : Q)
| JOther.

Inductive Json :=
| JList (l : list JsonItem)
| JNotList.

Record Entry := {
  text : string;
  category : string;
  embedding : Json
}.

Record SemanticMemory := {
  max_entries : nat;
  max_text_chars : nat;
  data : list Entry;
  embeddings_cache : option (list Json);
  memory_file : list Entry      (* the content of memory.json *)
}.

Definition with_data (self : SemanticMemory) (d : list Entry)
    (cache : option (list Json)) : SemanticMemory :=
  {| max_entries := max_entries self; max_text_chars := max_text_chars self;
     data := d; embeddings_cache := cache; memory_file := memory_file self |}.

(** [save] logs and swallows its own failure. *)
Definition save (save_fails : bool) (self : SemanticMemory) : SemanticMemory :=
  if save_fails then self
  else {| max_entries := max_entries self;
          max_text_chars := max_text_chars self;
          data := data self; embeddings_cache := embeddings_cache self;
          memory_file := data self |}.

(** [isinstance(emb, list) and emb and isinstance(emb[0], (int, float))] *)
Definition valid_embedding (emb : Json) : bool :=
  match emb with
  | JList (JNum _ :: _) => true
  | _ => false
  end.

Definition is_number (j : JsonItem) : bool :=
  match j with JNum _ => true | _ => false end.

Definition row_length (j : Json) : option nat :=
  match j with
  | JList l => if forallb is_number l then Some (length l) else None
  | _ => None
  end.

(** [np.array(rows, dtype=np.float32)] succeeds on rows of numbers of
    one length.  It is taken to raise on every other input, although
    numpy converts some items that are not numbers ([None] becomes
    [nan], a numeric string its number); the only thing that depends
    on this is whether a cache is kept. *)
Definition np_array (rows : list Json) : option (list Json) :=
  match rows with
  | [] => Some []
  | r :: _ =>
      match row_length r with
      | None => None
      | Some n =>
          if forallb (fun r' => bool_decide (row_length r' = Some n)) rows
          then Some rows else None
      end
  end.

Definition _rebuild_index (save_fails : bool) (self : SemanticMemory)
  : SemanticMemory :=
  match data self with
  | [] => with_data self [] None
  | _ =>
      let clean_data :=
        List.filter (fun d => valid_embedding (embedding d)) (data self) in
      let valid_embeddings := map embedding clean_data in
      let pruned := (length (data self) - length clean_data)%nat in
      let self1 :=
        with_data self (take (max_entries self) clean_data)
          (embeddings_cache self) in
      match valid_embeddings with
      | [] => with_data self1 (data self1) None
      | _ =>
          match np_array (take (max_entries self) valid_embeddings) with
          | None => with_data self1 (data self1) None
          | Some cache =>
              let self2 := with_data self1 (data self1) (Some cache) in
              if (0 <? pruned)%nat then save save_fails self2 else self2
          end
      end
  end.

(** The embedding [learn] stores: the argument, or the text encoded by
    the model when there is none ([None] when the model raises). *)
Definition resolve (encode : string -> option Json) (text_ : string)
    (embedding_ : option Json) : option Json :=
  match embedding_ with
  | None => encode text_
  | Some e => Some e
  end.

(** The loop over [self.data] that ends [learn] early. *)
Definition is_duplicate (self : SemanticMemory) (text_ category_ : string) : bool :=
  existsb (fun entry => String.eqb (text entry) text_
                        && String.eqb (category entry) category_)
          (data self).

Definition new_entry (self : SemanticMemory) (text_ category_ : string)
    (emb : Json) : Entry :=
  {| text := substring 0 (max_text_chars self) text_;
     category := category_;
     embedding := emb |}.

(** [learn]; the flag tells whether it returned normally. *)
Definition learn (encode : string -> option Json) (save_fails : bool)
    (self : SemanticMemory) (text_ category_ : string)
    (embedding_ : option Json) : SemanticMemory * bool :=
  match resolve encode text_ embedding_ with
  | None => (self, false)
  | Some emb =>
      if is_duplicate self text_ category_ then (self, true)
      else
        let data1 :=
          if (max_entries self <=? length (data self))%nat
          then tl (data self) else data self in
        let data2 := data1 ++ [new_entry self text_ category_ emb] in
        let self1 := with_data self data2 (embeddings_cache self) in
        (_rebuild_index save_fails (save save_fails self1), true)
  end.

(** One [learn] call as data, and a run of calls. *)
Record Call := {
  call_text : string;
  call_category : string;
  call_embedding : option Json
}.

Definition learn_call (encode : string -> option Json) (save_fails : bool)
    (self : SemanticMemory) (c : Call) : SemanticMemory :=
  fst (learn encode save_fails self (call_text c) (call_category c)
         (call_embedding c)).

Definition learn_all (encode : string -> option Json) (save_fails : bool)
    (self : SemanticMemory) (cs : list Call) : SemanticMemory :=
  fold_left (learn_call encode save_fails) cs self.

(** The state every constructor and every [learn] leaves behind (both
    end in [_rebuild_index]): at most [max_entries] entries, each with
    an embedding that [_rebuild_index] keeps. *)
Definition well_formed (self : SemanticMemory) : Prop :=
  (length (data self) <= max_entries self)%nat /\
  Forall (fun d => valid_embedding (embedding d) = true) (data self).

End Memory.

(** ** Concrete inputs used below *)

Module Examples.
Import Fs.

(** A folder [docs] that already holds a [report.pdf], and an [inbox]
    with another one. *)
Definition docs_with_report : FileSystem :=
  <[ ["inbox"; "report.pdf"] := File "second" ]>
    (<[ ["inbox"] := Dir ]>
       (<[ ["docs"; "report.pdf"] := File "first" ]>
          (<[ ["docs"] := Dir ]> ∅))).

Definition reliable_os : OS :=
  {| mkdir_fails := fun _ => false;
     move_fails := fun _ _ => false;
     save_fails := false |}.

Definition new_executor : Executor.Executor :=
  {| Executor.transactions := [];
     Executor.transaction_log_file := [];
     Executor._recently_moved := ∅ |}.

(** The log after one move whose destination has since disappeared
    from [docs_with_report]. *)
Definition stale_move : Executor.Tx :=
  {| Executor.action := "move";
     Executor.src := ["inbox"; "old.txt"];
     Executor.dest := ["docs"; "old.txt"];
     Executor.timestamp := 0 |}.

Definition full_memory : Memory.SemanticMemory :=
  {| Memory.max_entries := 2;
     Memory.max_text_chars := 160;
     Memory.data :=
       [{| Memory.text := "invoice total"; Memory.category := "Finance";
           Memory.embedding := Memory.JList [Memory.JNum 1; Memory.JNum 0] |};
        {| Memory.text := "lecture notes"; Memory.category := "Academic";
           Memory.embedding := Memory.JList [Memory.JNum 0; Memory.JNum 1] |}];
     Memory.embeddings_cache := None;
     Memory.memory_file := [] |}.

Definition executor_with_stale_move : Executor.Executor :=
  {| Executor.transactions := [stale_move];
     Executor.transaction_log_file := [stale_move];
     Executor._recently_moved := ∅ |}.

End Examples.

(** ** More of the session tracker ([services/clustering.py]) *)

Module Tracker.
Import Voters.

(** [SessionManager.__init__]: a window and an empty history. *)
Definition new_session_manager (window_ : Z) : SessionManager :=
  {| window := window_; history := [] |}.

(** One call of [add_event], with the clock at the time of the call. *)
Record Arrival := {
  at_time : Z;
  at_path : string;
  at_category : string
}.

Definition add_events (self : SessionManager) (arrivals : list Arrival)
  : SessionManager :=
  fold_left (fun s a => add_event (at_time a) s (at_path a) (at_category a))
    arrivals self.

Definition event_of (a : Arrival) : FileEvent :=
  {| ev_path := at_path a; ev_category := at_category a;
     ev_timestamp := at_time a |}.

Definition is_known (a : Arrival) : bool :=
  negb (String.eqb (at_category a) "Unknown").

(** The last [n] elements of a list. *)
Definition keep_last {A} (n : nat) (l : list A) : list A :=
  drop (length l - n) l.

(** The events of the history that fall in the window, and those among
    them of one category. *)
Definition in_window (now : Z) (self : SessionManager) (e : FileEvent) : bool :=
  (now - ev_timestamp e <? window self)%Z.

Definition recent_total (now : Z) (self : SessionManager) : nat :=
  length (List.filter (in_window now self) (history self)).

Definition recent_count (now : Z) (self : SessionManager) (c : string) : nat :=
  length (List.filter
            (fun e => in_window now self e && String.eqb (ev_category e) c)
            (history self)).

Definition share (now : Z) (self : SessionManager) (c : string) : Q :=
  inject_Z (Z.of_nat (recent_count now self c))
  / inject_Z (Z.of_nat (recent_total now self)).

End Tracker.

(** ** Extension lookup and the file type voter
    ([core/classification/classifier.py], [core/classification/voters.py],
    [core/models.py]) *)

Module Classifier.
Import Voters.

(** [str.lower], on ASCII letters; a letter outside ASCII, which
    [str.lower] may also change, is left as it is. *)
Definition lower_char (c : ascii) : ascii :=
  let n := nat_of_ascii c in
  if ((65 <=? n) && (n <=? 90))%nat then ascii_of_nat (n + 32) else c.

Fixpoint lower (s : string) : string :=
  match s with
  | EmptyString => EmptyString
  | String c s' => String (lower_char c) (lower s')
  end.

(** [str.lstrip(".")] *)
Fixpoint lstrip_dots (s : string) : string :=
  match s with
  | String c s' => if Ascii.eqb c "."%char then lstrip_dots s' else s
  | EmptyString => EmptyString
  end.

(** [Classifier.extensions], in the order of the source. *)
Definition extensions : list (string * list string) :=
  [("Documents", ["pdf"; "docx"; "txt"; "md"]);
   ("Images", ["jpg"; "jpeg"; "png"; "gif"; "svg"]);
   ("Video", ["mp4"; "mkv"; "mov"; "avi"]);
   ("Audio", ["mp3"; "wav"; "flac"]);
   ("Archives", ["zip"; "rar"; "tar"; "gz"]);
   ("Code", ["py"; "js"; "html"; "css"; "java"; "cpp"]);
   ("Finance", ["invoice"; "receipt"; "bank"; "statement"; "tax"]);
   ("College", ["syllabus"; "assignment"; "lecture"; "notes"; "exam"]);
   ("Personal", ["photo"; "family"; "vacation"])].

Definition lists_extension (ext : string) (row : string * list string) : bool :=
  existsb (String.eqb ext) (snd row).

Definition classify_by_extension (file_path : Fs.Path) : string :=
  let ext := lstrip_dots (lower (Fs.suffix file_path)) in
  match find (lists_extension ext) extensions with
  | Some (cat, _) => cat
  | None => "Unknown"
  end.

(** [FileContext.extension] *)
Definition extension (p : Fs.Path) : string := lower (Fs.suffix p).

(** [FileTypeVoter]; [as_path] reads the context's path text as a path. *)
Definition FileTypeVoter (as_path : string -> Fs.Path) : Voter :=
  {| name := "FileType";
     weight := 3 # 10;
     vote := fun context =>
       let mime := mime_type context in
       if String.prefix "image/" mime then Returned "Images" (9 # 10)
       else if String.prefix "video/" mime then Returned "Video" (9 # 10)
       else if String.prefix "audio/" mime then Returned "Audio" (9 # 10)
       else if String.prefix "text/x-python" mime
               || String.eqb (extension (as_path (path context))) ".py"
       then Returned "Code" (8 # 10)
       else if String.eqb mime "application/pdf"
       then Returned "Documents" (1 # 2)
       else
         let cat := classify_by_extension (as_path (path context)) in
         if negb (String.eqb cat "Unknown") then Returned cat (6 # 10)
         else Returned "Unknown" 0 |}.

(** A voter whose exception is replaced by the answer of a voter
    without opinion. *)
Definition quiet (v : Voter) : Voter :=
  {| name := name v;
     weight := weight v;
     vote := fun context =>
       match vote v context with
       | Raised => Returned "Unknown" 0
       | o => o
       end |}.

(** Two votes that arbitration and the result cannot tell apart: same
    voter name and weight, same category, same confidence. *)
Definition same_vote (x y : Pipeline.Vote) : Prop :=
  name (fst (fst x)) = name (fst (fst y)) /\
  weight (fst (fst x)) = weight (fst (fst y)) /\
  snd (fst x) = snd (fst y) /\
  snd x = snd y.

End Classifier.

(** ** The cooldown of the JSON-log executor ([services/executor.py]) *)

Module Cooldown.
Import Fs Executor.

Definition _cooldown_seconds : Z := 10.

(** [is_recently_moved]: the expired entries are dropped, then the path
    is looked up among the rest. *)
Definition is_recently_moved (now : Z) (self : Executor) (file_path : Path)
  : bool * Executor :=
  let recent :=
    filter (fun entry : Path * Z => (now - snd entry < _cooldown_seconds)%Z)
      (_recently_moved self) in
  let self' := {| transactions := transactions self;
                  transaction_log_file := transaction_log_file self;
                  _recently_moved := recent |} in
  match recent !! file_path with
  | Some t => if (now - t <? _cooldown_seconds)%Z then (true, self')
              else (false, self')
  | None => (false, self')
  end.

End Cooldown.

(** ** Saving and loading a cluster ([core/models.py]) *)

Module ModelsIO.
Import Models.





End ModelsIO.

(** ** Nearest-neighbour search ([numpy]) *)

Module Search.

(** [np.argmax]: the index of the first largest element; it raises on
    an empty array. *)
Fixpoint argmax_from (best_i : nat) (best : Q) (i : nat) (l : list Q) : nat :=
  match l with
  | [] => best_i
  | x :: l' =>
      if Qlt_bool best x then argmax_from i x (S i) l'
      else argmax_from best_i best (S i) l'
  end.

Definition argmax (l : list Q) : option nat :=
  match l with
  | [] => None
  | x :: l' => Some (argmax_from 0 x 1 l')
  end.

(** The position [np.argmax] answers: an element that none exceeds,
    with only smaller ones before it. *)
Definition first_largest (l : list Q) (i : nat) : Prop :=
  (i < length l)%nat /\
  (forall j, (j < length l)%nat -> nth j l 0 <= nth i l 0) /\
  (forall j, (j < i)%nat -> nth j l 0 < nth i l 0).

(** [np.dot] of two one-dimensional arrays of one length. *)
Definition dot (a b : list Q) : Q :=
  fold_right Qplus 0 (zip_with Qmult a b).

End Search.

(** ** The folder index ([services/atlas.py]) *)

Module Atlas.
Import Models Search.

(** The clusters and the search index built from them; the copy of the
    index on disk is left out. *)
Record AtlasService := {
  clusters : Dict.t FolderCluster;
  _embedding_matrix : option (list ndarray);
  _path_index : list string
}.

Inductive Ending := Returned | Raised.

(** The row a cluster contributes to the search index. *)
Definition indexed (kv : string * FolderCluster) : option (string * ndarray) :=
  match get_effective_embedding (snd kv) with
  | Some emb => Some (fst kv, emb)
  | None => None
  end.

(** [np.vstack] accepts rows of one length. *)
Definition same_length (rows : list ndarray) : bool :=
  match rows with
  | [] => true
  | r :: rest => forallb (fun r' => (length r' =? length r)%nat) rest
  end.

(** [_rebuild_search_index]; the path index is replaced before the
    rows are stacked, so it is replaced even when the stacking raises. *)
Definition _rebuild_search_index (self : AtlasService) : AtlasService * Ending :=
  let rows := omap indexed (clusters self) in
  let paths := map fst rows in
  let embeddings := map snd rows in
  match embeddings with
  | [] => ({| clusters := clusters self; _embedding_matrix := None;
              _path_index := paths |}, Returned)
  | _ =>
      if same_length embeddings
      then ({| clusters := clusters self;
               _embedding_matrix := Some embeddings;
               _path_index := paths |}, Returned)
      else ({| clusters := clusters self;
               _embedding_matrix := _embedding_matrix self;
               _path_index := paths |}, Raised)
  end.

Definition with_clusters (self : AtlasService) (cs : Dict.t FolderCluster)
  : AtlasService :=
  {| clusters := cs; _embedding_matrix := _embedding_matrix self;
     _path_index := _path_index self |}.

(** [update_cluster]; [path_str] is [str(folder_path)], [folder_name] is
    [folder_path.name], [encode] the embedding model ([None] when it
    raises).  The cluster is changed before the index is rebuilt, so
    what has been changed stays changed when a later step raises. *)
Definition update_cluster (encode : string -> option ndarray)
    (self : AtlasService) (path_str folder_name : string)
    (file_embedding : ndarray) : AtlasService * Ending :=
  let created :=
    if Dict.mem path_str (clusters self) then Some (clusters self)
    else
      match encode folder_name with
      | None => None
      | Some name_emb =>
          Some (Dict.set path_str
                  {| path := path_str; centroid := None;
                     name_embedding := Some name_emb; n_files := 0 |}
                  (clusters self))
      end in
  match created with
  | None => (self, Raised)
  | Some clusters1 =>
      match Dict.get path_str clusters1 with
      | None => (with_clusters self clusters1, Raised)
      | Some cluster =>
          let '(cluster', completion) := update_centroid cluster file_embedding in
          let self2 := with_clusters self (Dict.set path_str cluster' clusters1) in
          match completion with
          | ValueError => (self2, Raised)
          | Normal => _rebuild_search_index self2
          end
      end
  end.

(** Successive placements into one folder; the first call that raises
    ends the run. *)
Fixpoint update_cluster_all (encode : string -> option ndarray)
    (self : AtlasService) (path_str folder_name : string)
    (es : list ndarray) : AtlasService * Ending :=
  match es with
  | [] => (self, Returned)
  | e :: es' =>
      match update_cluster encode self path_str folder_name e with
      | (self', Returned) =>
          update_cluster_all encode self' path_str folder_name es'
      | r => r
      end
  end.

(** The cosine similarity of a row and the query, with [norm] the
    Euclidean norm (a square root, so not computed here). *)
Definition similarity (norm : ndarray -> Q) (query row : ndarray) : Q :=
  dot row query / (norm row * norm query + (1 # 100000000)).

(** [find_best_folder]; [None] when it raises.  The folder is returned
    as the key of its cluster. *)
Definition find_best_folder (norm : ndarray -> Q)
    (encode : string -> option ndarray) (self : AtlasService)
    (file_embedding : option ndarray) (fallback_text : option string)
    (threshold : Q) : option (option string * Q) :=
  match _embedding_matrix self with
  | None => Some (None, 0)
  | Some matrix =>
      if (length (_path_index self) =? 0)%nat then Some (None, 0)
      else
        let query :=
          match file_embedding, fallback_text with
          | Some e, _ => Some (Some e)
          | None, Some t =>
              if String.eqb t "" then Some None
              else match encode t with
                   | Some q => Some (Some q)
                   | None => None
                   end
          | None, None => Some None
          end in
        match query with
        | None => None
        | Some None => Some (None, 0)
        | Some (Some query_vec) =>
            if forallb (fun row => (length row =? length query_vec)%nat) matrix
            then
              let similarities := map (similarity norm query_vec) matrix in
              match argmax similarities with
              | None => None
              | Some best_idx =>
                  let best_score := nth best_idx similarities 0 in
                  if Qle_bool threshold best_score then
                    match nth_error (_path_index self) best_idx with
                    | Some match_path => Some (Some match_path, best_score)
                    | None => None
                    end
                  else Some (None, best_score)
              end
            else None
        end
  end.

(** The search index read as rows [(path, embedding)]. *)
Definition index_rows (self : AtlasService) : list (string * ndarray) :=
  combine (_path_index self) (default [] (_embedding_matrix self)).

(** The index agrees with the clusters: it lists, in order, the
    clusters that have an effective embedding, each with that
    embedding. *)
Definition consistent (self : AtlasService) : Prop :=
  index_rows self = omap indexed (clusters self) /\
  length (_path_index self)
    = length (default [] (_embedding_matrix self)).

(** All the embeddings of a cluster, or of an atlas, have dimension [d]. *)
Definition of_dimension (d : nat) (c : FolderCluster) : Prop :=
  (forall ne, name_embedding c = Some ne -> length ne = d) /\
  (forall m, centroid c = Some m -> length m = d).

Definition all_of_dimension (d : nat) (self : AtlasService) : Prop :=
  forall k c, In (k, c) (clusters self) -> of_dimension d c.

End Atlas.

(** ** Loading, recalling and feeding the memory
    ([services/memory.py], [core/classification/classifier.py]) *)

Module MemoryIO.
Import Memory Search.

Definition has_dimension (dim : nat) (entry : Entry) : bool :=
  match embedding entry with
  | JList l => (length l =? dim)%nat
  | JNotList => false
  end.

Definition truncated (self : SemanticMemory) (entry : Entry) : Entry :=
  {| text := substring 0 (max_text_chars self) (text entry);
     category := category entry;
     embedding := embedding entry |}.

(** [load]; [readable] tells whether the file exists and parses (its
    content is [memory_file]), [expected_dim] is the dimension of the
    embedding model ([None] when the model is not ready). *)
Definition load (readable : bool) (expected_dim : option nat)
    (save_fails : bool) (self : SemanticMemory) : SemanticMemory :=
  let self1 :=
    if readable then
      let raw_data := memory_file self in
      match expected_dim with
      | Some dim =>
          let cleaned :=
            map (truncated self) (List.filter (has_dimension dim) raw_data) in
          let pruned := (length raw_data - length cleaned)%nat in
          let self1 :=
            with_data self (take (max_entries self) cleaned)
              (embeddings_cache self) in
          if (0 <? pruned)%nat || (max_entries self <? length cleaned)%nat
          then save save_fails self1 else self1
      | None =>
          with_data self (take (max_entries self) raw_data)
            (embeddings_cache self)
      end
    else with_data self [] (embeddings_cache self) in
  _rebuild_index save_fails self1.

(** [recall]; [cos_sim] is the similarity of the query to every cached
    row ([None] when it raises).  Every exception is caught and answered
    with [(None, 0.0)]. *)
Definition recall (cos_sim : Json -> list Json -> option (list Q))
    (self : SemanticMemory) (embedding_ : Json) (threshold : Q)
  : option string * Q :=
  match embeddings_cache self with
  | None => (None, 0)
  | Some cache =>
      if (length (data self) <? 1)%nat then (None, 0)
      else
        match cos_sim embedding_ cache with
        | None => (None, 0)
        | Some hits =>
            match argmax hits with
            | None => (None, 0)
            | Some best_score_idx =>
                let best_score := nth best_score_idx hits 0 in
                if Qlt_bool threshold best_score then
                  match nth_error (data self) best_score_idx with
                  | Some entry => (Some (category entry), best_score)
                  | None => (None, 0)
                  end
                else (None, 0)
            end
        end
  end.

(** [Classifier.learn]: it keeps away from empty keyword lists and from
    ["Unknown"], and swallows every exception. *)
Definition classifier_learn (encode : string -> option Json)
    (save_fails : bool) (memory : SemanticMemory)
    (keywords : list string) (category_ : string) : SemanticMemory :=
  match keywords with
  | [] => memory
  | _ =>
      if String.eqb category_ "Unknown" then memory
      else
        let text_ := String.concat " " keywords in
        match encode text_ with
        | None => memory
        | Some embedding_ =>
            fst (learn encode save_fails memory text_ category_
                   (Some embedding_))
        end
  end.

End MemoryIO.

(** ** Names as path components *)

Module Pathlib.

(** A character that separates the components of a path. *)
Definition is_separator (c : ascii) : bool :=
  Ascii.eqb c "/"%char || Ascii.eqb c (ascii_of_nat 92).

Fixpoint has_separator (s : string) : bool :=
  match s with
  | EmptyString => false
  | String c s' => is_separator c || has_separator s'
  end.

(** A name that [folder / name] appends as one component of its own:
    not empty (an empty [new_name] counts as none), not [.] or [..],
    and without a separator (a name with separators is split, an
    absolute one replaces the folder). *)
Definition plain_name (n : string) : bool :=
  negb (String.eqb n "") && negb (String.eqb n ".")
  && negb (String.eqb n "..") && negb (has_separator n).

End Pathlib.

(** ** Further concrete inputs *)

Module Scenarios.
Import Voters.

Definition invoice : FileContext :=
  {| path := "invoice.dat"; mime_type := "application/octet-stream";
     text := "invoice total due"; metadata := [] |}.

Definition holiday : FileContext :=
  {| path := "holiday.jpg"; mime_type := "image/jpeg";
     text := "beach"; metadata := [] |}.

Definition says_finance (_ _ : string) (_ : list string) : string := "Finance".

Definition one_segment (s : string) : Fs.Path := [s].

Definition file_type : Voter := Classifier.FileTypeVoter one_segment.

Definition file_type_engine : Pipeline.VotingEngine :=
  {| Pipeline.voters := [file_type];
     Pipeline.nli_voter := NLIVoter says_finance ["Finance"] |}.

Definition idle_session : SessionManager := {| window := 300; history := [] |}.

Definition images_then_code : list Pipeline.Vote :=
  [(file_type, "Images", 9 # 10); (SessionVoter 0 idle_session, "Code", 3 # 5)].

Definition code_then_images : list Pipeline.Vote :=
  [(SessionVoter 0 idle_session, "Code", 3 # 5); (file_type, "Images", 9 # 10)].

Definition two_files_cluster : Models.FolderCluster :=
  {| Models.path := "docs"; Models.centroid := Some [1; 2];
     Models.name_embedding := None; Models.n_files := 2 |}.

Definition empty_atlas : Atlas.AtlasService :=
  {| Atlas.clusters := []; Atlas._embedding_matrix := None;
     Atlas._path_index := [] |}.

Definition encode_name (_ : string) : option Models.ndarray := Some [1; 0].

(** Two folders known by the embedding of their names. *)
Definition two_folder_atlas : Atlas.AtlasService :=
  {| Atlas.clusters :=
       [("docs", {| Models.path := "docs"; Models.centroid := None;
                    Models.name_embedding := Some [1; 0];
                    Models.n_files := 0 |});
        ("pics", {| Models.path := "pics"; Models.centroid := None;
                    Models.name_embedding := Some [0; 1];
                    Models.n_files := 0 |})];
     Atlas._embedding_matrix := Some [[1; 0]; [0; 1]];
     Atlas._path_index := ["docs"; "pics"] |}.

Definition unit_norm (_ : Models.ndarray) : Q := 1.

(** A store of two entries with its cache, and similarities that
    favour the second entry. *)
Definition indexed_memory : Memory.SemanticMemory :=
  Memory._rebuild_index false Examples.full_memory.

Definition favours_second (_ : Memory.Json) (_ : list Memory.Json)
  : option (list Q) := Some [1 # 2; 9 # 10].

(** A store with room for five entries that keeps four characters of
    a text. *)
Definition short_memory : Memory.SemanticMemory :=
  {| Memory.max_entries := 5;
     Memory.max_text_chars := 4;
     Memory.data :=
       [{| Memory.text := "exam"; Memory.category := "College";
           Memory.embedding := Memory.JList [Memory.JNum 0; Memory.JNum 1] |}];
     Memory.embeddings_cache := None;
     Memory.memory_file := [] |}.

End Scenarios.

(** * Properties *)

(** ** Numbers *)

Lemma Qlt_bool_iff x y : Qlt_bool x y = true <-> x < y.
Proof.
  unfold Qlt_bool. rewrite negb_true_iff, <- not_true_iff_false, Qle_bool_iff.
  split; [apply Qnot_le_lt | apply Qlt_not_le].
Qed.

Lemma Qlt_bool_false x y : Qlt_bool x y = false <-> y <= x.
Proof. unfold Qlt_bool. rewrite negb_false_iff. apply Qle_bool_iff. Qed.

Lemma py_min_Qmin a b : py_min a b == Qmin a b.
Proof.
  unfold py_min. destruct (Qlt_bool b a) eqn:E.
  - apply Qlt_bool_iff in E. rewrite Q.min_r; [reflexivity | lra].
  - apply Qlt_bool_false in E. rewrite Q.min_l; [reflexivity | lra].
Qed.

Lemma py_min_le_r a b : py_min a b <= b.
Proof. rewrite py_min_Qmin. apply Q.le_min_r. Qed.

(** ** Dicts *)

Section DictFacts.
Context {V : Type}.
Implicit Types (d : Dict.t V) (k : string) (v : V).

Lemma dict_get_set_eq k v d : Dict.get k (Dict.set k v d) = Some v.
Proof.
  induction d as [|[k' v'] d IH]; simpl.
  - now rewrite String.eqb_refl.
  - destruct (String.eqb k k') eqn:E; simpl; rewrite E; auto.
Qed.

Lemma dict_get_set_ne k k' v d :
  k <> k' -> Dict.get k (Dict.set k' v d) = Dict.get k d.
Proof.
  intros Hne. induction d as [|[k0 v0] d IH]; simpl.
  - apply String.eqb_neq in Hne. now rewrite Hne.
  - destruct (String.eqb k' k0) eqn:E; simpl.
    + apply String.eqb_eq in E. subst k0.
      apply String.eqb_neq in Hne. now rewrite Hne.
    + now rewrite IH.
Qed.

Lemma dict_get_In k v d : Dict.get k d = Some v -> In (k, v) d.
Proof.
  induction d as [|[k' v'] d IH]; simpl; [discriminate|].
  destruct (String.eqb k k') eqn:E.
  - apply String.eqb_eq in E. intros [= ->]. subst. now left.
  - intros H. right. auto.
Qed.

Lemma dict_In_keys k v d : In (k, v) d -> In k (Dict.keys d).
Proof. intros H. apply (in_map fst) in H. exact H. Qed.

Lemma dict_In_get k v d :
  List.NoDup (Dict.keys d) -> In (k, v) d -> Dict.get k d = Some v.
Proof.
  induction d as [|[k' v'] d IH]; simpl; [tauto|].
  intros Hnd [H|H].
  - injection H as -> ->. now rewrite String.eqb_refl.
  - inversion Hnd as [|? ? Hnotin Hnd']; subst.
    destruct (String.eqb k k') eqn:E.
    + apply String.eqb_eq in E. subst k'.
      exfalso. apply Hnotin. eapply dict_In_keys; eauto.
    + auto.
Qed.

Lemma dict_get_keys k d : Dict.get k d <> None <-> In k (Dict.keys d).
Proof.
  induction d as [|[k' v'] d IH]; simpl; [tauto|].
  destruct (String.eqb k k') eqn:E.
  - apply String.eqb_eq in E. subst. split; [now left | discriminate].
  - apply String.eqb_neq in E. rewrite IH. split; [now right|].
    intros [H|H]; congruence.
Qed.

Lemma dict_keys_set k v d :
  Dict.keys (Dict.set k v d) =
  if Dict.mem k d then Dict.keys d else Dict.keys d ++ [k].
Proof.
  unfold Dict.mem. induction d as [|[k' v'] d IH]; simpl; [reflexivity|].
  destruct (String.eqb k k') eqn:E; simpl; [reflexivity|].
  rewrite IH. now destruct (Dict.get k d).
Qed.

Lemma dict_NoDup_set k v d :
  List.NoDup (Dict.keys d) -> List.NoDup (Dict.keys (Dict.set k v d)).
Proof.
  intros Hnd. rewrite dict_keys_set. unfold Dict.mem.
  destruct (Dict.get k d) eqn:E; [exact Hnd|].
  apply NoDup_ListNoDup, NoDup_app. repeat split.
  - now apply NoDup_ListNoDup.
  - intros x Hx Hk. apply list_elem_of_In in Hx.
    apply list_elem_of_In in Hk. destruct Hk as [<-|[]].
    apply dict_get_keys in Hx. congruence.
  - apply NoDup_singleton.
Qed.

End DictFacts.

(** [max_from] keeps a binding that is the running best or one of the
    rest, and no value seen is larger than the one it keeps. *)
Lemma max_from_In best rest :
  Dict.max_from best rest = best \/ In (Dict.max_from best rest) rest.
Proof.
  revert best. induction rest as [|[k v] rest IH]; intros best; simpl.
  - now left.
  - destruct (Qlt_bool (snd best) v).
    + destruct (IH (k, v)) as [->|H]; auto.
    + destruct (IH best) as [->|H]; auto.
Qed.

Lemma max_from_upper best rest :
  snd best <= snd (Dict.max_from best rest) /\
  forall k v, In (k, v) rest -> v <= snd (Dict.max_from best rest).
Proof.
  revert best. induction rest as [|[k v] rest IH]; intros best; simpl.
  - split; [apply Qle_refl | tauto].
  - destruct (Qlt_bool (snd best) v) eqn:E.
    + apply Qlt_bool_iff in E. destruct (IH (k, v)) as [H1 H2]. simpl in H1.
      split; [lra|]. intros k0 v0 [[= <- <-]|H]; eauto.
    + apply Qlt_bool_false in E. destruct (IH best) as [H1 H2].
      split; [exact H1|]. intros k0 v0 [[= <- <-]|H]; [lra | eauto].
Qed.

Lemma max_key_spec (d : Dict.t Q) :
  List.NoDup (Dict.keys d) -> d <> [] ->
  exists k v, Dict.max_key d = Some k /\ Dict.get k d = Some v /\
              forall k' v', Dict.get k' d = Some v' -> v' <= v.
Proof.
  intros Hnd Hne. destruct d as [|kv rest]; [congruence|]. simpl Dict.max_key.
  destruct (max_from_upper kv rest) as [H1 H2].
  destruct (Dict.max_from kv rest) as [k v] eqn:E.
  exists k, v. split; [reflexivity|]. split.
  - apply dict_In_get; [exact Hnd|].
    destruct (max_from_In kv rest) as [H|H]; rewrite E in H.
    + left. now symmetry.
    + now right.
  - intros k' v' Hget. apply dict_get_In in Hget. simpl in H1, H2.
    destruct Hget as [->|Hin]; [exact H1 | eauto].
Qed.


(** ** Arbitration *)

Section Arbitration.
Import Voters Pipeline.

Lemma tally_get c sb v :
  Dict.get c (tally sb v) =
  if voted_for c v then Some (default 0 (Dict.get c sb) + weighted v)
  else Dict.get c sb.
Proof.
  destruct v as [[voter cat] conf]. unfold tally, voted_for, weighted.
  destruct (String.eqb cat c) eqn:E.
  - apply String.eqb_eq in E. subst cat. rewrite dict_get_set_eq.
    unfold Dict.mem. destruct (Dict.get c sb) eqn:G; [now rewrite G|].
    now rewrite dict_get_set_eq.
  - apply String.eqb_neq in E.
    rewrite dict_get_set_ne by congruence.
    destruct (Dict.mem cat sb); [reflexivity|].
    now rewrite dict_get_set_ne by congruence.
Qed.

Lemma tally_NoDup sb v :
  List.NoDup (Dict.keys sb) -> List.NoDup (Dict.keys (tally sb v)).
Proof.
  destruct v as [[voter cat] conf]. unfold tally. intros H.
  apply dict_NoDup_set. destruct (Dict.mem cat sb); [exact H|].
  now apply dict_NoDup_set.
Qed.

Lemma fold_tally_NoDup votes : forall sb,
  List.NoDup (Dict.keys sb) ->
  List.NoDup (Dict.keys (fold_left tally votes sb)).
Proof.
  induction votes as [|v votes IH]; intros sb H; simpl; [exact H|].
  apply IH. now apply tally_NoDup.
Qed.

(** The scoreboard entry of a category is its initial entry plus the
    weighted votes cast for it, and it exists exactly when there was an
    entry or a vote. *)
Lemma fold_tally_score c votes : forall sb,
  default 0 (Dict.get c (fold_left tally votes sb)) ==
  default 0 (Dict.get c sb) + score_of c votes.
Proof.
  induction votes as [|v votes IH]; intros sb; simpl.
  - unfold score_of. simpl. ring.
  - rewrite IH, tally_get. unfold score_of. simpl.
    destruct (voted_for c v); simpl; ring.
Qed.

Lemma fold_tally_absent c votes : forall sb,
  Dict.get c (fold_left tally votes sb) = None <->
  Dict.get c sb = None /\ forall v, In v votes -> voted_for c v = false.
Proof.
  induction votes as [|v votes IH]; intros sb; simpl.
  - intuition.
  - rewrite IH, tally_get. destruct (voted_for c v) eqn:E.
    + split; [intros [? _]; discriminate|].
      intros [_ H]. specialize (H v (or_introl eq_refl)). congruence.
    + split.
      * intros [H1 H2]. split; [exact H1|]. intros v' [<-|Hin]; auto.
      * intros [H1 H2]. split; auto.
Qed.

Lemma fold_tally_nonempty votes sb :
  votes <> [] -> fold_left tally votes sb <> [].
Proof.
  intros Hne Hnil. destruct votes as [|[[voter c] conf] votes]; [congruence|].
  destruct (proj1 (fold_tally_absent c ((voter, c, conf) :: votes) sb))
    as [_ H].
  { transitivity (Dict.get c (@nil (string * Q))); [|reflexivity].
    f_equal. exact Hnil. }
  specialize (H _ (or_introl eq_refl)). simpl in H.
  now rewrite String.eqb_refl in H.
Qed.

Lemma arbitrate_nonempty (votes : list Vote) :
  votes <> [] ->
  exists w s,
    _arbitrate votes = (w, py_min s 1, fold_left tally votes []) /\
    Dict.get w (fold_left tally votes []) = Some s /\
    forall c s', Dict.get c (fold_left tally votes []) = Some s' -> s' <= s.
Proof.
  intros Hne.
  destruct (max_key_spec (fold_left tally votes []))
    as (w & s & Hmax & Hget & Hupper).
  { apply fold_tally_NoDup. constructor. }
  { now apply fold_tally_nonempty. }
  exists w, s. repeat split; auto.
  unfold _arbitrate. destruct votes; [congruence|].
  now rewrite Hmax, Hget.
Qed.

(** The winner of a non-empty vote list is the category of one of the
    votes. *)
Lemma arbitrate_winner_voted (votes : list Vote) :
  votes <> [] ->
  exists v, In v votes /\ voted_for (fst (fst (_arbitrate votes))) v = true.
Proof.
  intros Hne. destruct (arbitrate_nonempty votes Hne) as (w & s & -> & Hget & _).
  simpl. destruct (existsb (voted_for w) votes) eqn:Ex.
  - now apply existsb_exists in Ex.
  - assert (Dict.get w (fold_left tally votes []) = None); [|congruence].
    apply fold_tally_absent. split; [reflexivity|].
    intros v Hv. destruct (voted_for w v) eqn:Ev; [|reflexivity].
    assert (existsb (voted_for w) votes = true); [|congruence].
    apply existsb_exists. eauto.
Qed.

(** C1. For any list of votes, [_arbitrate] builds a scoreboard whose
    entry for a category is the sum of [voter.weight * confidence] over
    the votes for that category (and has an entry exactly for the
    categories voted for); for the empty list it returns
    [("Unknown", 0.0)] with an empty scoreboard; otherwise the winner is
    a category of maximal score and the confidence is
    [min(score[winner], 1.0)]. *)
Theorem arbitrate_scoreboard_argmax (votes : list Vote) :
  let '(winner, conf, scoreboard) := _arbitrate votes in
  (forall c,
     match Dict.get c scoreboard with
     | Some s =>
         s == score_of c votes /\ exists v, In v votes /\ voted_for c v = true
     | None => forall v, In v votes -> voted_for c v = false
     end) /\
  match votes with
  | [] => winner = "Unknown" /\ conf = 0 /\ scoreboard = []
  | _ :: _ =>
      exists s, Dict.get winner scoreboard = Some s /\
                (forall c s', Dict.get c scoreboard = Some s' -> s' <= s) /\
                conf = py_min s 1 /\ conf == Qmin s 1
  end.
Proof.
  destruct votes as [|v0 votes0].
  - simpl. split; [intros c; simpl; tauto | auto].
  - set (votes := v0 :: votes0).
    assert (Hne : votes <> []) by (unfold votes; congruence).
    destruct (arbitrate_nonempty votes Hne) as (w & s & -> & Hget & Hupper).
    split.
    + intros c. destruct (Dict.get c (fold_left tally votes [])) eqn:G.
      * split.
        -- pose proof (fold_tally_score c votes []) as Hs.
           rewrite G in Hs. simpl in Hs. rewrite Hs. ring.
        -- destruct (existsb (voted_for c) votes) eqn:Ex.
           ++ apply existsb_exists in Ex. exact Ex.
           ++ assert (Dict.get c (fold_left tally votes []) = None); [|congruence].
              apply fold_tally_absent. split; [reflexivity|].
              intros v Hv. destruct (voted_for c v) eqn:Ev; [|reflexivity].
              assert (existsb (voted_for c) votes = true); [|congruence].
              apply existsb_exists. eauto.
      * now apply fold_tally_absent in G.
    + exists s. repeat split; auto. apply py_min_Qmin.
Qed.

End Arbitration.


(** ** The escalation to the NLI voter *)

Section ProcessFile.
Import Voters Pipeline.

Lemma escalates_iff winner conf context :
  escalates winner conf context = true <->
  (winner = "Unknown" \/ conf < 3 # 5) /\ text context <> "".
Proof.
  unfold escalates, NLI_THRESHOLD.
  rewrite andb_true_iff, orb_true_iff, negb_true_iff.
  rewrite String.eqb_eq, String.eqb_neq, Qlt_bool_iff. reflexivity.
Qed.

Lemma nli_calls_app t1 t2 : nli_calls (t1 ++ t2) = (nli_calls t1 + nli_calls t2)%nat.
Proof. unfold nli_calls. now rewrite List.filter_app, length_app. Qed.

Lemma nli_calls_fast self context : nli_calls (fast_events self context) = 0%nat.
Proof.
  unfold fast_events, nli_calls.
  induction (voters self) as [|v vs IH]; simpl; auto.
Qed.

Lemma nli_calls_finish context winner conf meth votes :
  nli_calls (fst (finish context winner conf meth votes)) = 0%nat.
Proof. unfold finish. simpl. now destruct (negb _). Qed.

Lemma fold_collect context vs : forall acc,
  fold_left (collect context) vs acc = acc ++ concat (map (ballot context) vs).
Proof.
  induction vs as [|v vs IH]; intros acc; simpl.
  - now rewrite app_nil_r.
  - rewrite IH. unfold collect, ballot.
    destruct (vote v context) as [|cat conf]; [reflexivity|].
    destruct (negb (String.eqb cat "Unknown")); [|reflexivity].
    now rewrite <- app_assoc.
Qed.

Lemma fast_votes_known self context v :
  In v (fast_votes self context) -> voted_for "Unknown" v = false.
Proof.
  unfold fast_votes. rewrite fold_collect. simpl.
  induction (voters self) as [|u us IH]; simpl; [tauto|].
  rewrite in_app_iff. intros [H|H]; [|auto].
  unfold ballot in H. destruct (vote u context) as [|cat conf]; [destruct H|].
  destruct (negb (String.eqb cat "Unknown")) eqn:E; [|destruct H].
  destruct H as [<-|[]]. simpl. now apply negb_true_iff in E.
Qed.

Lemma fast_votes_nil self context :
  fast_votes self context = [] <->
  forall e, In e (fast_events self context) -> produced_vote e = false.
Proof.
  unfold fast_votes, fast_events. rewrite fold_collect. simpl.
  induction (voters self) as [|u us IH]; simpl; [tauto|]. split.
  - intros H. apply app_eq_nil in H. destruct H as [H1 H2].
    intros e [<-|He]; [|now apply IH]. simpl. unfold ballot in H1.
    destruct (vote u context) as [|cat conf]; [reflexivity|]. simpl.
    now destruct (negb (String.eqb cat "Unknown")).
  - intros H. rewrite (proj2 IH) by auto. rewrite app_nil_r.
    specialize (H _ (or_introl eq_refl)). simpl in H. unfold ballot.
    destruct (vote u context) as [|cat conf]; [reflexivity|]. simpl in H.
    now rewrite H.
Qed.

(** A winner drawn from votes that are all for known categories is not
    ["Unknown"]. *)
Lemma arbitrate_known (votes : list Vote) :
  votes <> [] ->
  (forall v, In v votes -> voted_for "Unknown" v = false) ->
  fst (fst (_arbitrate votes)) <> "Unknown".
Proof.
  intros Hne Hknown Hw.
  destruct (arbitrate_winner_voted votes Hne) as (v & Hin & Hv).
  rewrite Hw in Hv. rewrite (Hknown v Hin) in Hv. discriminate.
Qed.

(** C2. The NLI voter is called (once) exactly when the first-round
    winner is ["Unknown"] or the first-round confidence is strictly
    below 0.60, and the extracted text is not empty.  When it is called
    and answers a category other than ["Unknown"], its vote is appended,
    the result is the arbitration of the extended list and the method is
    ["voting_ensemble_with_nli"]; otherwise the first-round arbitration
    stands with method ["voting_ensemble"]. *)
Theorem process_file_escalation (self : VotingEngine) (context : FileContext) :
  let votes := fast_votes self context in
  let winner := fst (fst (_arbitrate votes)) in
  let conf := snd (fst (_arbitrate votes)) in
  let trace := fst (process_file self context) in
  let res := snd (process_file self context) in
  let result_of (final_votes : list Vote) (meth : string) :=
    {| file_path := path context;
       category := fst (fst (_arbitrate final_votes));
       confidence := snd (fst (_arbitrate final_votes));
       method := meth;
       votes := map vote_entry final_votes |} in
  (escalates winner conf context = true <->
   (winner = "Unknown" \/ conf < 3 # 5) /\ text context <> "") /\
  (nli_calls trace = if escalates winner conf context then 1%nat else 0%nat) /\
  (In (NLIVote (vote (nli_voter self) context)) trace <->
   escalates winner conf context = true) /\
  (if escalates winner conf context then
     match vote (nli_voter self) context with
     | Raised => res = None
     | Returned nli_cat nli_conf =>
         if negb (String.eqb nli_cat "Unknown")
         then res = Some (result_of
                            (votes ++ [(nli_voter self, nli_cat, nli_conf)])
                            "voting_ensemble_with_nli")
         else res = Some (result_of votes "voting_ensemble")
     end
   else res = Some (result_of votes "voting_ensemble")).
Proof.
  intros votes winner conf trace res result_of.
  split; [apply escalates_iff|].
  assert (Hfast : forall o, ~ In (NLIVote o) (fast_events self context)).
  { intros o. unfold fast_events. rewrite in_map_iff.
    intros (v & Hv & _). discriminate. }
  subst trace res. unfold process_file. fold votes.
  destruct (_arbitrate votes) as [[w c] sb] eqn:Harb.
  subst winner conf. simpl fst. simpl snd.
  destruct (escalates w c context) eqn:Hesc.
  - destruct (vote (nli_voter self) context) as [|nli_cat nli_conf] eqn:Hnli.
    + simpl. rewrite nli_calls_app, nli_calls_fast. repeat split; auto.
      intros _. apply in_or_app. right. now left.
    + destruct (negb (String.eqb nli_cat "Unknown")) eqn:Hcat.
      * destruct (_arbitrate (votes ++ [(nli_voter self, nli_cat, nli_conf)]))
          as [[w' c'] sb'] eqn:Harb'.
        unfold finish. simpl.
        rewrite !nli_calls_app, nli_calls_fast. simpl.
        repeat split.
        -- now destruct (negb (String.eqb w' "Unknown")).
        -- intros _. rewrite <- app_assoc. apply in_or_app. right. now left.
        -- subst result_of. simpl. now rewrite Harb'.
      * unfold finish. simpl.
        rewrite !nli_calls_app, nli_calls_fast. simpl.
        repeat split.
        -- now destruct (negb (String.eqb w "Unknown")).
        -- intros _. rewrite <- app_assoc. apply in_or_app. right. now left.
        -- subst result_of. simpl. now rewrite Harb.
  - unfold finish. simpl. rewrite nli_calls_app, nli_calls_fast.
    repeat split.
    + now destruct (negb (String.eqb w "Unknown")).
    + intros H. apply in_app_or in H. destruct H as [H|H].
      * now apply Hfast in H.
      * destruct (negb (String.eqb w "Unknown")); simpl in H;
          [destruct H as [H|[]]; discriminate | destruct H].
    + discriminate.
    + subst result_of. simpl. now rewrite Harb.
Qed.

(** What the calls that [process_file] made say about its result. *)
Lemma process_file_trace_verdict (self : VotingEngine) (context : FileContext) :
  match process_file self context with
  | (trace, Some r) =>
      (category r = "Unknown" <->
       forall e, In e trace -> produced_vote e = false) /\
      (category r = "Unknown" -> confidence r = 0 /\ votes r = []) /\
      (votes r <> [] -> category r <> "Unknown")
  | (trace, None) =>
      vote (nli_voter self) context = Raised /\ In (NLIVote Raised) trace
  end.
Proof.
  pose proof (fast_votes_known self context) as Hknown.
  pose proof (fast_votes_nil self context) as Hnil.
  assert (Hfin : forall w c m vs e,
             In e (fst (finish context w c m vs)) -> produced_vote e = false).
  { intros w c m vs e. unfold finish. simpl.
    destruct (negb (String.eqb w "Unknown")); simpl; [|tauto].
    now intros [<-|[]]. }
  unfold process_file.
  set (fv := fast_votes self context) in *.
  destruct (_arbitrate fv) as [[w c] sb] eqn:Harb.
  assert (Hfirst :
            (w = "Unknown" <-> fv = []) /\
            (w = "Unknown" -> c = 0)).
  { destruct fv as [|v0 fv0] eqn:Efv.
    - simpl in Harb. injection Harb as <- <- <-. tauto.
    - assert (w <> "Unknown").
      { replace w with (fst (fst (_arbitrate (v0 :: fv0))))
          by now rewrite Harb.
        apply arbitrate_known; [congruence | exact Hknown]. }
      split; [split; [tauto | discriminate] | tauto]. }
  destruct Hfirst as [Hw Hc].
  assert (Hmap : forall vs : list Vote, map vote_entry vs = [] <-> vs = []).
  { intros [|? ?]; simpl; split; congruence. }
  destruct (escalates w c context) eqn:Hesc.
  - destruct (vote (nli_voter self) context) as [|nli_cat nli_conf] eqn:Hnli.
    + split; [reflexivity|]. apply in_or_app. right. now left.
    + destruct (negb (String.eqb nli_cat "Unknown")) eqn:Hcat.
      * set (ext := fv ++ [(nli_voter self, nli_cat, nli_conf)]).
        destruct (_arbitrate ext) as [[w' c'] sb'] eqn:Harb'.
        assert (Hw' : w' <> "Unknown").
        { replace w' with (fst (fst (_arbitrate ext))) by now rewrite Harb'.
          apply arbitrate_known.
          - unfold ext. intros H. now apply app_eq_nil in H as [_ ?].
          - unfold ext. intros v Hv. apply in_app_or in Hv.
            destruct Hv as [Hv|[<-|[]]]; [now apply Hknown|].
            simpl. now apply negb_true_iff in Hcat. }
        simpl. repeat split; try tauto.
        intros H. exfalso.
        specialize (H (NLIVote (Returned nli_cat nli_conf))).
        simpl in H. rewrite Hcat in H.
        assert (true = false); [|discriminate]. apply H.
        apply in_or_app. left. apply in_or_app. right. now left.
      * simpl. split; [|split].
        -- split.
           ++ intros Hu e He. apply in_app_or in He. destruct He as [He|He].
              ** apply in_app_or in He. destruct He as [He|[<-|[]]].
                 --- apply Hnil; [now apply Hw | exact He].
                 --- simpl. exact Hcat.
              ** apply (Hfin w c "voting_ensemble" fv). exact He.
           ++ intros H. apply Hw. apply Hnil. intros e He. apply H.
              apply in_or_app. left. apply in_or_app. now left.
        -- intros Hu. split; [auto|]. apply Hmap. now apply Hw.
        -- intros Hv Hu. apply Hv. apply Hmap. now apply Hw.
  - simpl. split; [|split].
    + split.
      * intros Hu e He. apply in_app_or in He. destruct He as [He|He].
        -- apply Hnil; [now apply Hw | exact He].
        -- apply (Hfin w c "voting_ensemble" fv). exact He.
      * intros H. apply Hw. apply Hnil. intros e He. apply H.
        apply in_or_app. now left.
    + intros Hu. split; [auto|]. apply Hmap. now apply Hw.
    + intros Hv Hu. apply Hv. apply Hmap. now apply Hw.
Qed.

Lemma fast_votes_abstain self context :
  fast_votes self context = [] <->
  forall v, In v (voters self) -> casts_vote (vote v context) = false.
Proof.
  rewrite fast_votes_nil. unfold fast_events. split.
  - intros H v Hv.
    apply (H (FastVote (name v) (vote v context))).
    apply in_map_iff. now exists v.
  - intros H e He. apply in_map_iff in He. destruct He as (v & <- & Hv).
    simpl. now apply H.
Qed.

(** C10. When [process_file] returns, the category is ["Unknown"]
    exactly when no voter of the engine produces a vote other than
    ["Unknown"] for the file: none of [self.voters], and not the NLI
    voter, which is consulted in that situation whenever the text is
    not empty.  Every voter of [self.voters] is called, the NLI call in
    the trace is a call of the engine's NLI voter, and the same
    equivalence holds of the calls made.  In that case the confidence
    is exactly [0.0] and the list of votes is empty, and a non-empty
    list of votes always comes with a winner other than ["Unknown"].
    It fails to return only when the NLI voter itself raises. *)
Theorem process_file_unknown_iff (self : VotingEngine) (context : FileContext) :
  match process_file self context with
  | (trace, Some r) =>
      (category r = "Unknown" <->
       (forall v, In v (voters self) ->
          casts_vote (vote v context) = false) /\
       (text context <> "" ->
        casts_vote (vote (nli_voter self) context) = false)) /\
      (forall v, In v (voters self) ->
         In (FastVote (name v) (vote v context)) trace) /\
      ((forall v, In v (voters self) ->
          casts_vote (vote v context) = false) ->
       text context <> "" ->
       In (NLIVote (vote (nli_voter self) context)) trace) /\
      (forall o, In (NLIVote o) trace ->
         o = vote (nli_voter self) context) /\
      (category r = "Unknown" <->
       forall e, In e trace -> produced_vote e = false) /\
      (category r = "Unknown" -> confidence r = 0 /\ votes r = []) /\
      (votes r <> [] -> category r <> "Unknown")
  | (trace, None) =>
      vote (nli_voter self) context = Raised /\
      In (NLIVote Raised) trace /\
      text context <> ""
  end.
Proof.
  pose proof (process_file_trace_verdict self context) as Hold.
  pose proof (fast_votes_abstain self context) as Habs.
  pose proof (fast_votes_known self context) as Hknown.
  assert (Hcalled : forall v, In v (voters self) ->
            In (FastVote (name v) (vote v context))
               (fast_events self context)).
  { intros v Hv. unfold fast_events. apply in_map_iff. now exists v. }
  assert (Hnofast : forall o, ~ In (NLIVote o) (fast_events self context)).
  { intros o Ho. unfold fast_events in Ho. apply in_map_iff in Ho.
    destruct Ho as (v & Hv & _). discriminate. }
  assert (Hnofin : forall w c m vs o,
            ~ In (NLIVote o) (fst (finish context w c m vs))).
  { intros w c m vs o. unfold finish. simpl.
    destruct (negb (String.eqb w "Unknown")); simpl; [|tauto].
    intros [H|[]]. discriminate. }
  revert Hold. unfold process_file.
  set (fv := fast_votes self context) in *.
  destruct (_arbitrate fv) as [[w c] sb] eqn:Harb.
  assert (Hw : w = "Unknown" <-> fv = []).
  { destruct fv as [|v0 fv0] eqn:Efv.
    - simpl in Harb. injection Harb as <- <- <-. tauto.
    - assert (w <> "Unknown").
      { replace w with (fst (fst (_arbitrate (v0 :: fv0))))
          by now rewrite Harb.
        apply arbitrate_known; [congruence | exact Hknown]. }
      split; [tauto | discriminate]. }
  destruct (escalates w c context) eqn:Hesc.
  - apply escalates_iff in Hesc. destruct Hesc as [_ Htext].
    destruct (vote (nli_voter self) context) as [|nli_cat nli_conf] eqn:Hnli.
    + intros [H1 H2]. auto.
    + destruct (negb (String.eqb nli_cat "Unknown")) eqn:Hcat.
      * set (ext := fv ++ [(nli_voter self, nli_cat, nli_conf)]).
        destruct (_arbitrate ext) as [[w' c'] sb'] eqn:Harb'.
        pose proof (Hnofin w' c' "voting_ensemble_with_nli" ext) as Hnf.
        revert Hnf. unfold finish. cbn [fst snd category confidence votes].
        set (evs := if negb (String.eqb w' "Unknown") then _ else _).
        intros Hnf (Hiff & Hconf & Hvotes).
        assert (Hin : In (NLIVote (Returned nli_cat nli_conf))
                        ((fast_events self context
                          ++ [NLIVote (Returned nli_cat nli_conf)]) ++ evs)).
        { apply in_or_app. left. apply in_or_app. right. now left. }
        assert (Hw' : w' <> "Unknown").
        { intros Hu. pose proof (proj1 Hiff Hu _ Hin) as Hx.
          simpl in Hx. congruence. }
        split.
        { split; [tauto|]. intros [_ Hn]. specialize (Hn Htext).
          simpl in Hn. congruence. }
        split.
        { intros v Hv. apply in_or_app. left. apply in_or_app. left. auto. }
        split; [intros _ _; exact Hin|].
        split.
        { intros o Ho. apply in_app_or in Ho. destruct Ho as [Ho|Ho].
          - apply in_app_or in Ho. destruct Ho as [Ho|[Ho|[]]].
            + now apply Hnofast in Ho.
            + congruence.
          - now apply Hnf in Ho. }
        split; [exact Hiff|]. split; [exact Hconf | exact Hvotes].
      * pose proof (Hnofin w c "voting_ensemble" fv) as Hnf.
        revert Hnf. unfold finish. cbn [fst snd category confidence votes].
        set (evs := if negb (String.eqb w "Unknown") then _ else _).
        intros Hnf (Hiff & Hconf & Hvotes).
        assert (Hin : In (NLIVote (Returned nli_cat nli_conf))
                        ((fast_events self context
                          ++ [NLIVote (Returned nli_cat nli_conf)]) ++ evs)).
        { apply in_or_app. left. apply in_or_app. right. now left. }
        split.
        { rewrite Hw, Habs. split; [|tauto].
          intros H. split; [exact H|]. intros _. simpl.
          exact Hcat. }
        split.
        { intros v Hv. apply in_or_app. left. apply in_or_app. left. auto. }
        split; [intros _ _; exact Hin|].
        split.
        { intros o Ho. apply in_app_or in Ho. destruct Ho as [Ho|Ho].
          - apply in_app_or in Ho. destruct Ho as [Ho|[Ho|[]]].
            + now apply Hnofast in Ho.
            + congruence.
          - now apply Hnf in Ho. }
        split; [exact Hiff|]. split; [exact Hconf | exact Hvotes].
  - pose proof (Hnofin w c "voting_ensemble" fv) as Hnf.
    revert Hnf. unfold finish. cbn [fst snd category confidence votes].
    set (evs := if negb (String.eqb w "Unknown") then _ else _).
    intros Hnf (Hiff & Hconf & Hvotes).
    assert (Hquiet : w = "Unknown" -> text context = "").
    { intros Hu. destruct (String.eqb (text context) "") eqn:E;
        [now apply String.eqb_eq in E|].
      apply String.eqb_neq in E.
      assert (escalates w c context = true)
        by (apply escalates_iff; auto).
      congruence. }
    split.
    { rewrite <- Habs. split; [|intros [H _]; now apply Hw].
      intros Hu. split; [now apply Hw|]. intros Ht.
      now apply Hquiet in Hu. }
    split.
    { intros v Hv. apply in_or_app. left. auto. }
    split.
    { intros Hv Ht. apply Habs, Hw, Hquiet in Hv. contradiction. }
    split.
    { intros o Ho. apply in_app_or in Ho. destruct Ho as [Ho|Ho].
      - now apply Hnofast in Ho.
      - now apply Hnf in Ho. }
    split; [exact Hiff|]. split; [exact Hconf | exact Hvotes].
Qed.

(** The engine's own NLI voter never raises, so with it [process_file]
    always returns. *)
Lemma process_file_returns voters_ reason_placement candidates context :
  exists r,
    snd (process_file {| voters := voters_;
                         nli_voter := NLIVoter reason_placement candidates |}
           context) = Some r.
Proof.
  unfold process_file. simpl nli_voter.
  destruct (_arbitrate _) as [[w c] sb].
  destruct (escalates w c context); [|unfold finish; simpl; eauto].
  simpl vote.
  destruct (String.eqb (text context) ""); simpl.
  { unfold finish; simpl; eauto. }
  destruct (negb (String.eqb _ "Unknown")) eqn:E; simpl.
  - rewrite E. destruct (_arbitrate _) as [[w' c'] sb'].
    unfold finish; simpl; eauto.
  - unfold finish; simpl; eauto.
Qed.

End ProcessFile.

(** ** The session voter *)

Section Session.
Import Voters.

Lemma dict_keys_map {A B} (f : A -> B) (d : Dict.t A) :
  Dict.keys (map (fun '(k, v) => (k, f v)) d) = Dict.keys d.
Proof.
  unfold Dict.keys. induction d as [|[k v] d IH]; simpl; congruence.
Qed.

Lemma fold_count_NoDup events : forall counts,
  List.NoDup (Dict.keys counts) ->
  List.NoDup (Dict.keys (fold_left count_event events counts)).
Proof.
  induction events as [|e events IH]; intros counts H; simpl; [exact H|].
  apply IH. unfold count_event. now apply dict_NoDup_set.
Qed.

(** The distribution handed to the session voter is a dict: no category
    occurs twice in it. *)
Lemma session_context_NoDup now self :
  List.NoDup (Dict.keys (get_current_session_context now self)).
Proof.
  unfold get_current_session_context.
  destruct (List.filter _ (history self)) as [|e es]; [constructor|].
  rewrite (dict_keys_map (fun count => inject_Z count / _)).
  apply fold_count_NoDup. constructor.
Qed.

(** C9. For every session distribution, [SessionVoter.vote] answers
    [("Unknown", 0.0)] unless the largest share is strictly greater
    than 0.5; when it votes, it names a category of largest share with
    confidence [min(share, 0.9)], so never more than 0.9. *)
Theorem session_vote_majority (context_dist : Dict.t Q) :
  List.NoDup (Dict.keys context_dist) ->
  (context_dist = [] -> session_vote context_dist = Returned "Unknown" 0) /\
  (context_dist <> [] ->
   exists best share,
     Dict.get best context_dist = Some share /\
     (forall c s, Dict.get c context_dist = Some s -> s <= share) /\
     (share <= 1 # 2 -> session_vote context_dist = Returned "Unknown" 0) /\
     (1 # 2 < share ->
      session_vote context_dist = Returned best (py_min share (9 # 10)) /\
      py_min share (9 # 10) == Qmin share (9 # 10))) /\
  (forall cat conf,
     session_vote context_dist = Returned cat conf -> conf <= 9 # 10) /\
  session_vote context_dist <> Raised.
Proof.
  intros Hnd. split; [intros ->; reflexivity|].
  assert (Hcap : forall cat conf,
             session_vote context_dist = Returned cat conf -> conf <= 9 # 10).
  { intros cat conf. unfold session_vote.
    destruct (Dict.max_key context_dist) as [best|].
    - destruct (Qlt_bool _ _).
      + intros [= <- <-]. apply py_min_le_r.
      + intros [= <- <-]. lra.
    - intros [= <- <-]. lra. }
  split; [|split; [exact Hcap|]].
  - intros Hne.
    destruct (max_key_spec context_dist Hnd Hne) as (k & v & Hmax & Hget & Hup).
    exists k, v. split; [exact Hget|]. split; [exact Hup|].
    unfold session_vote. rewrite Hmax, Hget. simpl default. split.
    + intros Hle. apply Qlt_bool_false in Hle. now rewrite Hle.
    + intros Hlt. apply Qlt_bool_iff in Hlt. rewrite Hlt.
      split; [reflexivity | apply py_min_Qmin].
  - unfold session_vote. destruct (Dict.max_key context_dist);
      [destruct (Qlt_bool _ _)|]; discriminate.
Qed.

Lemma session_vote_majority_witness :
  let d := [("Documents", 4 # 5); ("Images", 1 # 5)] in
  List.NoDup (Dict.keys d) /\
  forall cat conf, session_vote d = Returned cat conf -> conf <= 9 # 10.
Proof.
  assert (Hnd : List.NoDup (Dict.keys [("Documents", 4 # 5); ("Images", 1 # 5)])).
  { repeat (constructor; [simpl; intuition discriminate|]). constructor. }
  split; [exact Hnd|].
  exact (proj1 (proj2 (proj2 (session_vote_majority _ Hnd)))).
Defined.

End Session.

(** ** Folder clusters: the running mean *)

Section Centroid.
Import Models.

Lemma zip_with_length (f : Q -> Q -> Q) (a b : ndarray) :
  length a = length b -> length (zip_with f a b) = length a.
Proof.
  revert b. induction a as [|x a IH]; intros [|y b]; simpl; try discriminate; auto.
Qed.

Lemma zip_with_nth (f : Q -> Q -> Q) (a b : ndarray) i :
  length a = length b -> (i < length a)%nat ->
  nth i (zip_with f a b) 0 = f (nth i a 0) (nth i b 0).
Proof.
  revert b i. induction a as [|x a IH]; intros [|y b] i; simpl;
    try discriminate; try lia.
  intros [= Hlen] Hi. destruct i as [|i]; [reflexivity|].
  apply IH; [exact Hlen | lia].
Qed.

Lemma map_nth_lt (f : Q -> Q) (a : ndarray) i :
  (i < length a)%nat -> nth i (map f a) 0 = f (nth i a 0).
Proof.
  revert i. induction a as [|x a IH]; intros i; simpl; [lia|].
  destruct i as [|i]; [reflexivity|]. intros Hi. apply IH. lia.
Qed.

Lemma seq_map_nth (f : nat -> Q) d i :
  (i < d)%nat -> nth i (map f (seq 0 d)) 0 = f i.
Proof.
  intros Hi. rewrite (nth_indep _ 0 (f 0%nat)) by now rewrite length_map, length_seq.
  rewrite map_nth, seq_nth by exact Hi. reflexivity.
Qed.

Lemma array_eq_nth (a b : ndarray) :
  length a = length b ->
  (forall i, (i < length a)%nat -> nth i a 0 == nth i b 0) ->
  array_eq a b.
Proof.
  unfold array_eq. revert b.
  induction a as [|x a IH]; intros [|y b]; simpl; try discriminate.
  - constructor.
  - intros [= Hlen] H. constructor.
    + apply (H 0%nat). lia.
    + apply IH; [exact Hlen|]. intros i Hi. apply (H (S i)). lia.
Qed.

Lemma array_eq_sym a b : array_eq a b -> array_eq b a.
Proof. unfold array_eq. induction 1; constructor; auto. now symmetry. Qed.

Lemma array_eq_trans a b c : array_eq a b -> array_eq b c -> array_eq a c.
Proof.
  unfold array_eq. intros H. revert c.
  induction H; intros c Hc; inversion Hc; subst; constructor; eauto.
  etransitivity; eauto.
Qed.

Lemma broadcast_same f (a b : ndarray) :
  length a = length b -> broadcast f a b = Some (zip_with f a b).
Proof. intros H. unfold broadcast. now rewrite H, Nat.eqb_refl. Qed.

Lemma coordinate_sum_snoc i es e :
  coordinate_sum i (es ++ [e]) == coordinate_sum i es + nth i e 0.
Proof.
  unfold coordinate_sum. induction es as [|x es IH]; simpl.
  - ring.
  - rewrite IH. ring.
Qed.

Lemma coordinate_sum_perm i es es' :
  Permutation es es' -> coordinate_sum i es == coordinate_sum i es'.
Proof.
  unfold coordinate_sum. induction 1; simpl.
  - reflexivity.
  - now rewrite IHPermutation.
  - ring.
  - etransitivity; eauto.
Qed.

Lemma inject_nat_pos n : (0 < n)%nat -> 0 < inject_Z (Z.of_nat n).
Proof.
  intros H. change 0 with (inject_Z 0). rewrite <- Zlt_Qlt. lia.
Qed.

(** One more sample moves the mean of [k] samples to the mean of
    [k + 1] samples. *)
Lemma running_mean_step (m e s : Q) (k : nat) :
  (0 < k)%nat ->
  m == s / inject_Z (Z.of_nat k) ->
  m + (e - m) / inject_Z (Z.of_nat k + 1) ==
  (s + e) / inject_Z (Z.of_nat (S k)).
Proof.
  intros Hk Hm. pose proof (inject_nat_pos k Hk) as Hpos.
  replace (Z.of_nat (S k)) with (Z.of_nat k + 1)%Z by lia.
  rewrite inject_Z_plus. rewrite Hm.
  change (inject_Z 1) with 1. field. split; lra.
Qed.

Lemma update_centroid_step (self : FolderCluster) (m e : ndarray) :
  centroid self = Some m -> length e = length m ->
  update_centroid self e =
  (set_centroid self
     (Some (zip_with Qplus m
              (map (fun x => x / inject_Z (n_files self + 1))
                   (zip_with Qminus e m))))
     (n_files self + 1)%Z, Normal).
Proof.
  intros Hc Hlen. unfold update_centroid. rewrite Hc.
  rewrite (broadcast_same Qminus e m Hlen).
  rewrite broadcast_same; [reflexivity|].
  now rewrite length_map, zip_with_length.
Qed.

(** The invariant of a run of updates: the centroid is the mean of the
    samples seen so far, and [n_files] counts them. *)
Lemma update_all_mean d : forall es self prev m,
  centroid self = Some m -> length m = d ->
  prev <> [] -> n_files self = Z.of_nat (length prev) ->
  (forall i, (i < d)%nat ->
     nth i m 0 == coordinate_sum i prev / inject_Z (Z.of_nat (length prev))) ->
  Forall (fun e => length e = d) es ->
  exists self' m',
    update_all self es = (self', Normal) /\
    centroid self' = Some m' /\ length m' = d /\
    n_files self' = Z.of_nat (length (prev ++ es)) /\
    name_embedding self' = name_embedding self /\
    (forall i, (i < d)%nat ->
       nth i m' 0 ==
       coordinate_sum i (prev ++ es) / inject_Z (Z.of_nat (length (prev ++ es)))).
Proof.
  induction es as [|e es IH]; intros self prev m Hc Hlen Hne Hn Hmean Hall.
  - exists self, m. rewrite app_nil_r. simpl. auto 10.
  - inversion Hall as [|? ? He Hes]; subst.
    assert (Hk : (0 < length prev)%nat) by (destruct prev; simpl; [congruence|lia]).
    simpl update_all. rewrite (update_centroid_step self m e Hc) by congruence.
    set (m1 := zip_with Qplus m _).
    assert (Hlen1 : length m1 = length m).
    { unfold m1. rewrite zip_with_length; [reflexivity|].
      now rewrite length_map, zip_with_length. }
    destruct (IH (set_centroid self (Some m1) (n_files self + 1)%Z)
                (prev ++ [e]) m1) as (self' & m' & Hrun & Hc' & Hl' & Hn' & Hname & Hm');
      auto.
    + intros H. now apply app_eq_nil in H as [_ ?].
    + simpl. rewrite length_app, Hn. simpl. lia.
    + intros i Hi. unfold m1.
      rewrite zip_with_nth;
        [|now rewrite length_map, zip_with_length | lia].
      rewrite map_nth_lt by (rewrite zip_with_length; [lia | congruence]).
      rewrite zip_with_nth by (congruence || lia).
      rewrite coordinate_sum_snoc, length_app, Hn. simpl length.
      replace (length prev + 1)%nat with (S (length prev)) by lia.
      apply running_mean_step; [exact Hk | auto].
    + exists self', m'. rewrite <- app_assoc in Hn', Hm'. simpl in Hn', Hm'.
      auto 10.
Qed.

(** A run of updates on a cluster without a centroid. *)
Lemma update_all_fresh d (self : FolderCluster) e es :
  centroid self = None ->
  Forall (fun e => length e = d) (e :: es) ->
  exists self' m,
    update_all self (e :: es) = (self', Normal) /\
    centroid self' = Some m /\ length m = d /\
    n_files self' = Z.of_nat (length (e :: es)) /\
    name_embedding self' = name_embedding self /\
    array_eq m (arithmetic_mean d (e :: es)).
Proof.
  intros Hc Hall. inversion Hall as [|? ? He Hes]; subst.
  simpl update_all. unfold update_centroid. rewrite Hc.
  destruct (update_all_mean (length e) es (set_centroid self (Some e) 1) [e] e)
    as (self' & m & Hrun & Hc' & Hl & Hn & Hname & Hm);
    [reflexivity | reflexivity | discriminate | reflexivity | | exact Hes |].
  - intros i Hi. unfold coordinate_sum. simpl. field.
  - exists self', m. repeat split; auto.
    apply array_eq_nth.
    + unfold arithmetic_mean. now rewrite length_map, length_seq.
    + intros i Hi. unfold arithmetic_mean.
      rewrite seq_map_nth by lia. apply Hm. lia.
Qed.

Lemma arithmetic_mean_perm d es es' :
  Permutation es es' ->
  array_eq (arithmetic_mean d es) (arithmetic_mean d es').
Proof.
  intros Hp. apply array_eq_nth.
  - unfold arithmetic_mean. now rewrite !length_map.
  - unfold arithmetic_mean. rewrite length_map, length_seq. intros i Hi.
    rewrite !seq_map_nth by exact Hi.
    rewrite (coordinate_sum_perm i es es' Hp).
    now rewrite (Permutation_length Hp).
Qed.

(** C3. A cluster that starts with no centroid and a name embedding
    answers, after [k] calls of [update_centroid], with the name
    embedding while [k < MIN_FILES_FOR_CENTROID = 3], and with the
    centroid, which is the running average of the samples, once
    [k >= 3]. *)
Theorem effective_embedding_threshold
    (self : FolderCluster) (name_emb : ndarray) (d : nat) (es : list ndarray) :
  centroid self = None ->
  name_embedding self = Some name_emb ->
  Forall (fun e => length e = d) es ->
  exists self',
    update_all self es = (self', Normal) /\
    ((Z.of_nat (length es) < MIN_FILES_FOR_CENTROID)%Z ->
     get_effective_embedding self' = Some name_emb) /\
    ((MIN_FILES_FOR_CENTROID <= Z.of_nat (length es))%Z ->
     exists m, centroid self' = Some m /\
               get_effective_embedding self' = Some m /\
               array_eq m (arithmetic_mean d es)).
Proof.
  intros Hc Hname Hall. destruct es as [|e es].
  - exists self. split; [reflexivity|]. unfold MIN_FILES_FOR_CENTROID. split.
    + intros _. unfold get_effective_embedding. now rewrite Hc.
    + simpl. lia.
  - destruct (update_all_fresh d self e es Hc Hall)
      as (self' & m & Hrun & Hc' & Hl & Hn & Hnm & Hmean).
    exists self'. split; [exact Hrun|].
    unfold get_effective_embedding. rewrite Hc', Hn. split.
    + intros Hlt. apply Z.leb_gt in Hlt. rewrite Hlt. congruence.
    + intros Hge. apply Z.leb_le in Hge. rewrite Hge. eauto.
Qed.

Lemma effective_embedding_threshold_witness :
  let self := {| path := "Docs"; centroid := None;
                 name_embedding := Some [1; 0]; n_files := 0 |} in
  let es := [[1; 2]; [3; 4]; [5; 9]] in
  centroid self = None /\
  name_embedding self = Some [1; 0] /\
  Forall (fun e => length e = 2%nat) es /\
  exists self',
    update_all self es = (self', Normal) /\
    ((Z.of_nat (length es) < MIN_FILES_FOR_CENTROID)%Z ->
     get_effective_embedding self' = Some [1; 0]) /\
    ((MIN_FILES_FOR_CENTROID <= Z.of_nat (length es))%Z ->
     exists m, centroid self' = Some m /\
               get_effective_embedding self' = Some m /\
               array_eq m (arithmetic_mean 2 es)).
Proof.
  intros self es.
  assert (Hall : Forall (fun e : ndarray => length e = 2%nat) es)
    by (repeat constructor).
  split; [reflexivity|]. split; [reflexivity|]. split; [exact Hall|].
  exact (effective_embedding_threshold self [1; 0] 2 es eq_refl eq_refl Hall).
Defined.

(** C4. Applying a non-empty sequence of embeddings of one dimension
    to a cluster with no prior centroid leaves a centroid equal to their
    arithmetic mean and [n_files] equal to their number, and every
    permutation of the sequence leaves the same centroid and count. *)
Theorem centroid_is_arithmetic_mean
    (self : FolderCluster) (d : nat) (es : list ndarray) :
  centroid self = None ->
  es <> [] ->
  Forall (fun e => length e = d) es ->
  exists self' m,
    update_all self es = (self', Normal) /\
    centroid self' = Some m /\
    array_eq m (arithmetic_mean d es) /\
    n_files self' = Z.of_nat (length es) /\
    forall es', Permutation es es' ->
      exists self'' m',
        update_all self es' = (self'', Normal) /\
        centroid self'' = Some m' /\
        array_eq m' m /\
        n_files self'' = n_files self'.
Proof.
  intros Hc Hne Hall. destruct es as [|e es]; [congruence|].
  destruct (update_all_fresh d self e es Hc Hall)
    as (self' & m & Hrun & Hc' & Hl & Hn & _ & Hmean).
  exists self', m. repeat split; auto.
  intros es' Hp.
  assert (Hall' : Forall (fun e => length e = d) es').
  { rewrite Forall_forall in *. intros x Hx. apply Hall.
    apply list_elem_of_In. apply list_elem_of_In in Hx.
    eapply Permutation_in; [symmetry; exact Hp | exact Hx]. }
  destruct es' as [|e' es'].
  { apply Permutation_sym, Permutation_nil in Hp. discriminate. }
  destruct (update_all_fresh d self e' es' Hc Hall')
    as (self'' & m' & Hrun' & Hc'' & Hl' & Hn' & _ & Hmean').
  exists self'', m'. repeat split; auto.
  - eapply array_eq_trans; [exact Hmean'|].
    eapply array_eq_trans; [|apply array_eq_sym; exact Hmean].
    apply arithmetic_mean_perm. now symmetry.
  - rewrite Hn, Hn'. now rewrite (Permutation_length Hp).
Qed.

Lemma centroid_is_arithmetic_mean_witness :
  let self := {| path := "Docs"; centroid := None;
                 name_embedding := Some [1; 0]; n_files := 0 |} in
  let es := [[1; 2]; [3; 4]; [5; 9]] in
  centroid self = None /\ es <> [] /\
  Forall (fun e => length e = 2%nat) es /\
  exists self' m,
    update_all self es = (self', Normal) /\
    centroid self' = Some m /\
    array_eq m (arithmetic_mean 2 es) /\
    n_files self' = Z.of_nat (length es) /\
    forall es', Permutation es es' ->
      exists self'' m',
        update_all self es' = (self'', Normal) /\
        centroid self'' = Some m' /\
        array_eq m' m /\
        n_files self'' = n_files self'.
Proof.
  intros self es.
  assert (Hall : Forall (fun e : ndarray => length e = 2%nat) es)
    by (repeat constructor).
  assert (Hne : es <> []) by discriminate.
  split; [reflexivity|]. split; [exact Hne|]. split; [exact Hall|].
  exact (centroid_is_arithmetic_mean self 2 es eq_refl Hne Hall).
Defined.

End Centroid.

(** ** Collision resolution *)

Section Collision.
Import Fs.

Lemma string_app_length (s t : string) :
  String.length (s +:+ t) = (String.length s + String.length t)%nat.
Proof. induction s as [|c s IH]; simpl; [reflexivity | now rewrite IH]. Qed.

Lemma string_app_cons c (s t : string) :
  String c s +:+ t = String c (s +:+ t).
Proof. reflexivity. Qed.

Lemma string_app_inv_tail (s1 s2 t : string) :
  s1 +:+ t = s2 +:+ t -> s1 = s2.
Proof.
  revert s2. induction s1 as [|c s1 IH]; intros [|c' s2] H.
  - reflexivity.
  - apply (f_equal String.length) in H.
    rewrite !string_app_length in H. simpl in H. lia.
  - apply (f_equal String.length) in H.
    rewrite !string_app_length in H. simpl in H. lia.
  - rewrite !string_app_cons in H. injection H as -> H. f_equal. now apply IH.
Qed.

Lemma versioned_inj dest j k : versioned dest j = versioned dest k -> j = k.
Proof.
  unfold versioned, joinpath. intros H. apply app_inv_head in H.
  injection H as H.
  apply (inj (String.app (stem dest))) in H.
  apply (inj (String.app "_v")) in H.
  apply string_app_inv_tail in H.
  now apply (inj pretty) in H.
Qed.

Lemma versioned_parent dest k : parent (versioned dest k) = parent dest.
Proof. unfold versioned, joinpath, parent. apply removelast_last. Qed.

Lemma versioned_name dest k :
  name (versioned dest k) = stem dest +:+ "_v" +:+ pretty k +:+ suffix dest.
Proof. unfold versioned, joinpath, name. apply last_last. Qed.

(** What the loop returns is the first free candidate from [counter] on. *)
Lemma first_free_sound fuel fs dest : forall counter p,
  first_free fuel fs dest counter = Some p ->
  exists k, (counter <= k)%nat /\ p = versioned dest k /\
            exists_ fs p = false /\
            forall j, (counter <= j < k)%nat ->
                      exists_ fs (versioned dest j) = true.
Proof.
  induction fuel as [|fuel IH]; intros counter p; simpl; [discriminate|].
  destruct (exists_ fs (versioned dest counter)) eqn:E; simpl.
  - intros H. destruct (IH _ _ H) as (k & Hk & -> & Hfree & Hbusy).
    exists k. repeat split; [lia | exact Hfree |].
    intros j Hj. destruct (Nat.eq_dec j counter) as [->|Hne]; [exact E|].
    apply Hbusy. lia.
  - intros [= <-]. exists counter. repeat split; [lia | exact E |].
    intros j Hj. lia.
Qed.

(** The loop ends: the candidates are pairwise distinct, so a filesystem
    with [n] paths cannot hold [n + 1] of them. *)
Lemma first_free_total_aux fs dest : forall fuel (X : gset Path) counter,
  (size X < fuel)%nat ->
  (forall j, (counter <= j)%nat -> exists_ fs (versioned dest j) = true ->
             versioned dest j ∈ X) ->
  is_Some (first_free fuel fs dest counter).
Proof.
  induction fuel as [|fuel IH]; intros X counter Hsize Hin; [lia|]. simpl.
  destruct (exists_ fs (versioned dest counter)) eqn:E; simpl; [|eauto].
  assert (Hc : versioned dest counter ∈ X) by (apply Hin; [lia | exact E]).
  apply (IH (X ∖ {[versioned dest counter]})).
  - rewrite size_difference by set_solver. rewrite size_singleton.
    assert (size X <> 0%nat); [|lia].
    apply size_non_empty_iff. set_solver.
  - intros j Hj Hex. apply elem_of_difference. split; [apply Hin; [lia|exact Hex]|].
    intros Heq. apply elem_of_singleton in Heq. apply versioned_inj in Heq. lia.
Qed.

Lemma first_free_total fs dest counter :
  is_Some (first_free (S (size fs)) fs dest counter).
Proof.
  apply (first_free_total_aux fs dest _ (dom fs)).
  - rewrite size_dom. lia.
  - intros j _ Hex. apply elem_of_dom. unfold exists_ in Hex.
    destruct (fs !! versioned dest j); [eauto | discriminate].
Qed.

Lemma first_free_spec fs dest counter :
  exists k, (counter <= k)%nat /\
            first_free (S (size fs)) fs dest counter = Some (versioned dest k) /\
            exists_ fs (versioned dest k) = false /\
            forall j, (counter <= j < k)%nat ->
                      exists_ fs (versioned dest j) = true.
Proof.
  destruct (first_free_total fs dest counter) as [p Hp].
  destruct (first_free_sound _ _ _ _ _ Hp) as (k & Hk & -> & Hfree & Hbusy).
  exists k. auto.
Qed.

(** C5, as the code has it.  Both resolvers return the literal
    destination when it is free.  When it is taken, [_get_safe_dest]
    returns the first free name among [stem_v2], [stem_v3], ... and
    [_resolve_collision] the first free name among [stem_v1],
    [stem_v2], ...; the name returned is free, lies in the same folder
    and is built from the same stem and suffix. *)
Theorem collision_resolution_first_free (fs : FileSystem) (dest : Path) :
  (exists_ fs dest = false ->
   Executor._get_safe_dest fs dest = Some dest /\
   Execution._resolve_collision fs dest = Some dest) /\
  (exists_ fs dest = true ->
   (exists k, (2 <= k)%nat /\
      Executor._get_safe_dest fs dest = Some (versioned dest k) /\
      exists_ fs (versioned dest k) = false /\
      forall j, (2 <= j < k)%nat -> exists_ fs (versioned dest j) = true) /\
   (exists k, (1 <= k)%nat /\
      Execution._resolve_collision fs dest = Some (versioned dest k) /\
      exists_ fs (versioned dest k) = false /\
      forall j, (1 <= j < k)%nat -> exists_ fs (versioned dest j) = true)) /\
  (forall k,
     parent (versioned dest k) = parent dest /\
     name (versioned dest k) =
       stem dest +:+ "_v" +:+ pretty k +:+ suffix dest).
Proof.
  unfold Executor._get_safe_dest, Execution._resolve_collision.
  split; [|split].
  - intros ->. simpl. auto.
  - intros ->. simpl. split; apply first_free_spec.
  - intros k. split; [apply versioned_parent | apply versioned_name].
Qed.

(** With the JSON-log executor a second [report.pdf] becomes
    [report_v2.pdf] and a third [report_v3.pdf]. *)
Example get_safe_dest_second_and_third :
  let fs := Examples.docs_with_report in
  Executor._get_safe_dest fs ["docs"; "report.pdf"]
    = Some ["docs"; "report_v2.pdf"] /\
  Executor._get_safe_dest (<[ ["docs"; "report_v2.pdf"] := File "second" ]> fs)
    ["docs"; "report.pdf"] = Some ["docs"; "report_v3.pdf"].
Proof. split; vm_compute; reflexivity. Qed.

(** C5 as stated fails for [_resolve_collision]: next to an existing
    [report.pdf] it answers [report_v1.pdf], which is none of
    [report_v2.pdf], [report_v3.pdf], ... *)
Lemma resolve_collision_starts_at_v1 :
  let fs := Examples.docs_with_report in
  let dest := ["docs"; "report.pdf"] in
  exists_ fs dest = true /\
  Execution._resolve_collision fs dest = Some ["docs"; "report_v1.pdf"] /\
  ~ exists k, (2 <= k)%nat /\
      Execution._resolve_collision fs dest = Some (versioned dest k).
Proof.
  intros fs dest.
  assert (H1 : Execution._resolve_collision fs dest = Some (versioned dest 1))
    by (vm_compute; reflexivity).
  split; [vm_compute; reflexivity|]. split; [vm_compute; reflexivity|].
  intros (k & Hk & H). rewrite H1 in H.
  assert (Heq : versioned dest 1 = versioned dest k) by congruence.
  apply versioned_inj in Heq. lia.
Qed.

End Collision.

(** ** The order of record and move *)

Section PendingBeforeMove.
Import Fs.


Lemma resolve_collision_total fs dest :
  exists final_dest,
    Execution._resolve_collision fs dest = Some final_dest /\
    exists_ fs final_dest = false.
Proof.
  unfold Execution._resolve_collision.
  destruct (exists_ fs dest) eqn:E; cbn [negb]; [|eauto].
  destruct (first_free_spec fs dest 1) as (k & _ & -> & Hfree & _). eauto.
Qed.


(** [execute_move] always ends, and does one of four things. *)
Lemma execute_move_cases os tx_id now fs db src dest file_hash :
  exists final_dest o,
    Execution._resolve_collision fs dest = Some final_dest /\
    Execution.execute_move os tx_id now fs db src dest file_hash = Some o /\
    let pending :=
      {| Execution.id := tx_id; Execution.src_path := src;
         Execution.dest_path := final_dest; Execution.action_type := "move";
         Execution.status := "pending"; Execution.rollback_data_json := src |} in
    let failed := Execution.set_status pending "failed" in
    let committed := Execution.set_status pending "committed" in
    let db1 := Execution.commit_transaction db pending in
    (Execution.transaction_table db !! tx_id <> None /\
     o = Execution.outcome true fs db []) \/
    (Execution.transaction_table db !! tx_id = None /\
     mkdir os fs (parent final_dest) = None /\
     o = Execution.outcome true fs (Execution.commit_transaction db1 failed)
           [Execution.written pending; FsMkdir (parent final_dest);
            Execution.written failed]) \/
    (Execution.transaction_table db !! tx_id = None /\
     exists fs1,
       mkdir os fs (parent final_dest) = Some fs1 /\
       shutil_move os fs1 src final_dest = None /\
       o = Execution.outcome true fs1 (Execution.commit_transaction db1 failed)
             [Execution.written pending; FsMkdir (parent final_dest);
              FsMove src final_dest; Execution.written failed]) \/
    (Execution.transaction_table db !! tx_id = None /\
     exists fs1 fs2,
       mkdir os fs (parent final_dest) = Some fs1 /\
       shutil_move os fs1 src final_dest = Some fs2 /\
       o = Execution.outcome false fs2
             (Execution.commit_fileindex
                (Execution.commit_transaction db1 committed) file_hash
                {| Execution.current_path := final_dest;
                   Execution.last_seen := now;
                   Execution.index_status := "processed" |})
             [Execution.written pending; FsMkdir (parent final_dest);
              FsMove src final_dest; Execution.written committed]).
Proof.
  destruct (resolve_collision_total fs dest) as (final_dest & Hres & _).
  exists final_dest. unfold Execution.execute_move. rewrite Hres.
  destruct (Execution.transaction_table db !! tx_id) eqn:Hid.
  { eexists. split; [reflexivity|]. split; [reflexivity|]. left. split; [|reflexivity]. discriminate. }
  destruct (mkdir os fs (parent final_dest)) as [fs1|] eqn:Hmk.
  2:{ eexists. split; [reflexivity|]. split; [reflexivity|]. right. left. auto. }
  destruct (shutil_move os fs1 src final_dest) as [fs2|] eqn:Hmv.
  - eexists. split; [reflexivity|]. split; [reflexivity|].
    right. right. right. split; [reflexivity|]. exists fs1, fs2. auto.
  - eexists. split; [reflexivity|]. split; [reflexivity|].
    right. right. left. split; [reflexivity|]. exists fs1. auto.
Qed.



End PendingBeforeMove.

(** ** Undo *)

Section Undo.
Import Fs Executor.

Lemma undo_last_empty os fs self :
  transactions self = [] -> undo_last os fs self = outcome false fs self [].
Proof. intros H. unfold undo_last. now rewrite H. Qed.

(** A move to a path that does not exist re-binds the node there. *)
Lemma shutil_move_rename os fs a b fs' :
  exists_ fs b = false ->
  shutil_move os fs a b = Some fs' ->
  exists node, fs !! a = Some node /\ fs' = <[b := node]> (delete a fs).
Proof.
  unfold exists_, shutil_move. intros Hb.
  destruct (move_fails os a b); [discriminate|].
  destruct (fs !! a) as [node|]; [|discriminate].
  destruct (fs !! b); [discriminate|].
  destruct (is_dir fs (parent b)); [|discriminate].
  intros [= <-]. eauto.
Qed.

(** Undoing the last entry when it is a move: on success the file is back
    at its source and the entry is gone; on failure the filesystem and
    the log file are as before, and the entry is gone from the list in
    memory all the same. *)
Lemma undo_last_move os fs self txs tx :
  transactions self = txs ++ [tx] -> action tx = "move" ->
  let o := undo_last os fs self in
  transactions (self_after o) = txs /\
  (returned o = true ->
   exists_ fs (dest tx) = true /\ exists_ fs (src tx) = false /\
   (exists node,
      fs !! dest tx = Some node /\
      fs_after o = <[src tx := node]> (delete (dest tx) fs)) /\
   (save_fails os = false -> transaction_log_file (self_after o) = txs)) /\
  (returned o = false ->
   fs_after o = fs /\
   transaction_log_file (self_after o) = transaction_log_file self).
Proof.
  intros Htx Hact. unfold undo_last. rewrite Htx, rev_unit, removelast_last.
  rewrite Hact. simpl String.eqb. cbv iota.
  destruct (exists_ fs (dest tx)) eqn:Hd; simpl;
    [|repeat split; auto; discriminate].
  destruct (exists_ fs (src tx)) eqn:Hs; simpl;
    [repeat split; auto; discriminate|].
  destruct (shutil_move os fs (dest tx) (src tx)) as [fs'|] eqn:Hmv; simpl.
  - split; [unfold _save_transactions; now destruct (save_fails os)|].
    split; [|discriminate]. intros _. repeat split.
    + now apply (shutil_move_rename os).
    + intros Hsave. unfold _save_transactions. now rewrite Hsave.
  - repeat split; auto; discriminate.
Qed.

(** C7 at a failing input: the log holds one move whose destination no
    longer exists.  [undo_last] reports failure and leaves the
    filesystem and the log file alone, yet the entry has been removed
    from the transactions held in memory. *)
Theorem undo_last_failure_drops_entry :
  let fs := Examples.docs_with_report in
  let self := Examples.executor_with_stale_move in
  let o := undo_last Examples.reliable_os fs self in
  exists_ fs (dest Examples.stale_move) = false /\
  returned o = false /\
  fs_after o = fs /\
  transaction_log_file (self_after o) = [Examples.stale_move] /\
  transactions self = [Examples.stale_move] /\
  transactions (self_after o) = [].
Proof. repeat split. Qed.

End Undo.

(** ** The semantic memory *)

Section MemoryCapacity.
Import Memory.

Lemma filter_all_true {A} (f : A -> bool) (l : list A) :
  Forall (fun x => f x = true) l -> List.filter f l = l.
Proof. induction 1 as [|x l Hx _ IH]; simpl; [reflexivity|]. now rewrite Hx, IH. Qed.

Lemma filter_Forall_true {A} (f : A -> bool) (l : list A) :
  Forall (fun x => f x = true) (List.filter f l).
Proof.
  induction l as [|x l IH]; simpl; [constructor|].
  destruct (f x) eqn:E; [constructor|]; auto.
Qed.

Lemma rebuild_index_data save_fails self :
  data (_rebuild_index save_fails self) =
  take (max_entries self)
    (List.filter (fun d => valid_embedding (embedding d)) (data self)) /\
  max_entries (_rebuild_index save_fails self) = max_entries self.
Proof.
  unfold _rebuild_index. destruct (data self) as [|d0 ds] eqn:Hd.
  - simpl. now rewrite take_nil.
  - set (clean := List.filter _ (d0 :: ds)).
    destruct (map embedding clean); [simpl; auto|].
    destruct (np_array _); [|simpl; auto].
    destruct (0 <? _)%nat; [|simpl; auto].
    unfold save. destruct save_fails; simpl; auto.
Qed.

Lemma rebuild_index_well_formed save_fails self :
  well_formed (_rebuild_index save_fails self).
Proof.
  destruct (rebuild_index_data save_fails self) as [Hd Hm].
  unfold well_formed. rewrite Hd, Hm. split.
  - rewrite length_take. lia.
  - apply Forall_take. apply list.Forall_forall. intros x Hx.
    pose proof (filter_Forall_true (fun d => valid_embedding (embedding d))
                  (data self)) as H.
    rewrite list.Forall_forall in H. now apply H.
Qed.

Lemma learn_max_entries encode save_fails self text_ category_ embedding_ :
  max_entries (fst (learn encode save_fails self text_ category_ embedding_))
  = max_entries self.
Proof.
  unfold learn. destruct (resolve encode text_ embedding_); [|reflexivity].
  destruct (is_duplicate self text_ category_); [reflexivity|]. simpl.
  rewrite (proj2 (rebuild_index_data _ _)).
  unfold save. now destruct save_fails.
Qed.

Lemma learn_well_formed encode save_fails self text_ category_ embedding_ :
  well_formed self ->
  well_formed (fst (learn encode save_fails self text_ category_ embedding_)).
Proof.
  intros Hwf. unfold learn.
  destruct (resolve encode text_ embedding_); [|exact Hwf].
  destruct (is_duplicate self text_ category_); [exact Hwf|]. simpl.
  apply rebuild_index_well_formed.
Qed.

Lemma learn_all_well_formed encode save_fails cs : forall self,
  well_formed self ->
  well_formed (learn_all encode save_fails self cs) /\
  max_entries (learn_all encode save_fails self cs) = max_entries self.
Proof.
  unfold learn_all. induction cs as [|c cs IH]; intros self Hwf; simpl; [auto|].
  destruct (IH (learn_call encode save_fails self c)) as [H1 H2].
  - now apply learn_well_formed.
  - split; [exact H1|]. rewrite H2. apply learn_max_entries.
Qed.

(** A [learn] that appends to a full, well-formed store drops the entry
    at the head and nothing else. *)
Lemma learn_at_capacity encode save_fails self text_ category_ embedding_ emb :
  well_formed self ->
  (0 < max_entries self)%nat ->
  length (data self) = max_entries self ->
  resolve encode text_ embedding_ = Some emb ->
  is_duplicate self text_ category_ = false ->
  exists oldest rest,
    data self = oldest :: rest /\
    data (fst (learn encode save_fails self text_ category_ embedding_)) =
      rest ++ (if valid_embedding emb
               then [new_entry self text_ category_ emb] else []).
Proof.
  intros [Hlen Hvalid] Hpos Hfull Hres Hdup.
  destruct (data self) as [|oldest rest] eqn:Hd; [simpl in Hfull; lia|].
  exists oldest, rest. split; [reflexivity|].
  unfold learn. rewrite Hres, Hdup, Hd.
  rewrite (proj2 (Nat.leb_le _ _)) by lia. simpl tl. simpl fst.
  rewrite (proj1 (rebuild_index_data _ _)).
  assert (Hsave : forall m, data (save save_fails m) = data m
                            /\ max_entries (save save_fails m) = max_entries m).
  { intros m. unfold save. now destruct save_fails. }
  rewrite (proj1 (Hsave _)), (proj2 (Hsave _)). simpl data. simpl max_entries.
  rewrite List.filter_app. inversion Hvalid as [|? ? _ Hrest]; subst.
  rewrite (filter_all_true _ rest Hrest). simpl List.filter.
  apply take_ge. simpl in Hfull. rewrite length_app.
  destruct (valid_embedding emb); simpl; lia.
Qed.

(** C8. The memory is a bounded FIFO: from a state with at most
    [max_entries] entries (as [load] leaves it), no run of [learn] calls
    takes the count above [max_entries]; and a [learn] that appends
    while the store is full evicts exactly the oldest entry. *)
Theorem memory_capacity_fifo encode save_fails (self : SemanticMemory) :
  well_formed self ->
  (forall cs,
     (length (data (learn_all encode save_fails self cs))
      <= max_entries self)%nat /\
     max_entries (learn_all encode save_fails self cs) = max_entries self) /\
  (forall text_ category_ embedding_ emb,
     (0 < max_entries self)%nat ->
     length (data self) = max_entries self ->
     resolve encode text_ embedding_ = Some emb ->
     is_duplicate self text_ category_ = false ->
     exists oldest rest,
       data self = oldest :: rest /\
       data (fst (learn encode save_fails self text_ category_ embedding_)) =
         rest ++ (if valid_embedding emb
                  then [new_entry self text_ category_ emb] else [])).
Proof.
  intros Hwf. split.
  - intros cs. destruct (learn_all_well_formed encode save_fails cs self Hwf)
      as [[Hlen _] Hmax].
    split; [|exact Hmax]. now rewrite <- Hmax.
  - intros. now apply learn_at_capacity.
Qed.

Lemma memory_capacity_fifo_witness :
  let self := Examples.full_memory in
  let emb := JList [JNum 1; JNum 1] in
  well_formed self /\
  data (fst (learn (fun _ => None) false self "tax return" "Finance" (Some emb)))
  = [{| text := "lecture notes"; category := "Academic";
        embedding := JList [JNum 0; JNum 1] |};
     {| text := "tax return"; category := "Finance"; embedding := emb |}].
Proof.
  intros self emb.
  assert (Hwf : well_formed self).
  { split; [simpl; lia | repeat constructor]. }
  split; [exact Hwf|].
  destruct (proj2 (memory_capacity_fifo (fun _ => None) false self Hwf)
              "tax return" "Finance" (Some emb) emb)
    as (oldest & rest & Hd & ->);
    [simpl; lia | reflexivity | reflexivity | reflexivity |].
  injection Hd as _ <-. reflexivity.
Defined.

End MemoryCapacity.

(** ** The session tracker *)

Section TrackerFacts.
Import Voters Tracker.

Lemma keep_last_length {A} n (l : list A) :
  length (keep_last n l) = Nat.min n (length l).
Proof. unfold keep_last. rewrite length_drop. lia. Qed.

Lemma deque_append_keep_last (l : list FileEvent) e :
  deque_append (keep_last history_maxlen l) e = keep_last history_maxlen (l ++ [e]).
Proof.
  unfold deque_append. rewrite keep_last_length. unfold keep_last, history_maxlen.
  rewrite length_app. simpl length.
  destruct (Nat.leb_spec 50 (Nat.min 50 (length l))) as [H|H].
  - assert (Hl : (50 <= length l)%nat) by lia.
    replace (length l + 1 - 50)%nat with (S (length l - 50)) by lia.
    rewrite drop_app_le by lia.
    f_equal. destruct (drop (length l - 50) l) as [|x xs] eqn:E.
    + apply (f_equal length) in E. rewrite length_drop in E. simpl in E. lia.
    + simpl. change xs with (drop 1 (x :: xs)). rewrite <- E, drop_drop.
      f_equal. lia.
  - replace (length l - 50)%nat with 0%nat by lia.
    replace (length l + 1 - 50)%nat with 0%nat by lia.
    reflexivity.
Qed.

Lemma add_events_history arrivals : forall self l,
  history self = keep_last history_maxlen l ->
  history (add_events self arrivals) =
    keep_last history_maxlen (l ++ map event_of (List.filter is_known arrivals))
  /\ window (add_events self arrivals) = window self.
Proof.
  induction arrivals as [|a arrivals IH]; intros self l Hh.
  - simpl. now rewrite app_nil_r.
  - change (add_events self (a :: arrivals))
      with (add_events (add_event (at_time a) self (at_path a) (at_category a))
              arrivals).
    simpl List.filter. unfold is_known at 1. unfold add_event.
    destruct (String.eqb (at_category a) "Unknown") eqn:E; simpl negb; cbv iota.
    + now apply IH.
    + destruct (IH {| window := window self;
                      history := deque_append (history self) (event_of a) |}
                  (l ++ [event_of a])) as [H1 H2].
      * simpl. rewrite Hh. apply deque_append_keep_last.
      * rewrite <- app_assoc in H1. simpl in H1. split; [exact H1 | exact H2].
Qed.

(** X1. A session manager that has seen any sequence of [add_event]
    calls holds exactly the last 50 of the events whose category was not
    ["Unknown"], oldest first. *)
Theorem session_history_last_fifty (window_ : Z) (arrivals : list Arrival) :
  let self := add_events (new_session_manager window_) arrivals in
  history self =
    keep_last history_maxlen (map event_of (List.filter is_known arrivals)) /\
  (length (history self) <= history_maxlen)%nat /\
  Forall (fun e => ev_category e <> "Unknown") (history self) /\
  window self = window_.
Proof.
  destruct (add_events_history arrivals (new_session_manager window_) [] eq_refl)
    as [Hh Hw].
  simpl in Hh. cbv zeta. rewrite Hh. repeat split.
  - rewrite keep_last_length. lia.
  - unfold keep_last. apply Forall_drop. apply list.Forall_forall.
    intros e He. apply list_elem_of_In, in_map_iff in He.
    destruct He as (a & <- & Ha). apply filter_In in Ha. destruct Ha as [_ Ha].
    unfold is_known in Ha. apply negb_true_iff, String.eqb_neq in Ha. exact Ha.
  - exact Hw.
Qed.

Lemma filter_filter_andb {A} (f g : A -> bool) (l : list A) :
  List.filter g (List.filter f l) = List.filter (fun x => f x && g x) l.
Proof.
  induction l as [|x l IH]; simpl; [reflexivity|].
  destruct (f x); simpl; [destruct (g x)|]; now rewrite IH.
Qed.

Lemma dict_get_map {A B} (f : A -> B) c (d : Dict.t A) :
  Dict.get c (map (fun '(k, v) => (k, f v)) d) = option_map f (Dict.get c d).
Proof.
  induction d as [|[k v] d IH]; simpl; [reflexivity|].
  destruct (String.eqb c k); [reflexivity | exact IH].
Qed.

Lemma count_event_get c counts e :
  Dict.get c (count_event counts e) =
  if String.eqb (ev_category e) c
  then Some (default 0%Z (Dict.get c counts) + 1)%Z
  else Dict.get c counts.
Proof.
  unfold count_event. destruct (String.eqb (ev_category e) c) eqn:E.
  - apply String.eqb_eq in E. subst c. apply dict_get_set_eq.
  - apply String.eqb_neq in E. apply dict_get_set_ne. congruence.
Qed.

(** The counter of a category after the counting loop. *)
Lemma fold_count_get c events : forall counts,
  Dict.get c (fold_left count_event events counts) =
  let n := length (List.filter (fun e => String.eqb (ev_category e) c) events) in
  if (n =? 0)%nat then Dict.get c counts
  else Some (default 0%Z (Dict.get c counts) + Z.of_nat n)%Z.
Proof.
  induction events as [|e events IH]; intros counts; simpl; [reflexivity|].
  rewrite IH, count_event_get. cbv zeta.
  destruct (String.eqb (ev_category e) c); simpl length; [|reflexivity].
  destruct (length (List.filter _ events)) as [|n]; simpl Nat.eqb; cbv iota;
    f_equal; simpl default; lia.
Qed.

Lemma session_context_get now self c :
  Dict.get c (get_current_session_context now self) =
  if (recent_count now self c =? 0)%nat then None else Some (share now self c).
Proof.
  unfold get_current_session_context, share, recent_count, recent_total.
  change (fun e : FileEvent => (now - ev_timestamp e <? window self)%Z)
    with (in_window now self).
  rewrite <- (filter_filter_andb (in_window now self)
                (fun e => String.eqb (ev_category e) c)).
  destruct (List.filter (in_window now self) (history self)) as [|e0 es] eqn:E.
  - reflexivity.
  - rewrite (dict_get_map (fun count => inject_Z count / _)).
    rewrite fold_count_get. cbv zeta.
    destruct (length (List.filter _ (e0 :: es)) =? 0)%nat; reflexivity.
Qed.

Lemma dict_set_total k (d : Dict.t Z) :
  fold_right Z.add 0%Z
    (map snd (Dict.set k (default 0%Z (Dict.get k d) + 1)%Z d)) =
  (fold_right Z.add 0%Z (map snd d) + 1)%Z.
Proof.
  induction d as [|[k' v] d IH]; simpl; [reflexivity|].
  destruct (String.eqb k k'); simpl; [lia | rewrite IH; lia].
Qed.

Lemma fold_count_total events : forall counts,
  fold_right Z.add 0%Z (map snd (fold_left count_event events counts)) =
  (fold_right Z.add 0%Z (map snd counts) + Z.of_nat (length events))%Z.
Proof.
  induction events as [|e events IH]; intros counts; simpl fold_left.
  - simpl. lia.
  - rewrite IH. unfold count_event. rewrite dict_set_total. simpl length. lia.
Qed.

Lemma dict_values_by_key {V} (dflt : V) (d : Dict.t V) :
  List.NoDup (Dict.keys d) ->
  map snd d = map (fun k => default dflt (Dict.get k d)) (Dict.keys d).
Proof.
  induction d as [|[k v] d IH]; simpl; [reflexivity|].
  intros Hnd. inversion Hnd as [|? ? Hnotin Hnd']; subst.
  rewrite String.eqb_refl. simpl. f_equal.
  rewrite (IH Hnd'). apply map_ext_in. intros k' Hk'.
  destruct (String.eqb k' k) eqn:E; [|reflexivity].
  apply String.eqb_eq in E. subst k'. contradiction.
Qed.

Lemma sum_of_nat {A} (f : A -> nat) (l : list A) :
  Z.of_nat (fold_right Nat.add 0%nat (map f l)) =
  fold_right Z.add 0%Z (map (fun x => Z.of_nat (f x)) l).
Proof. induction l as [|x l IH]; simpl; [reflexivity|]. lia. Qed.

(** X2. The session distribution has one entry for every category that
    occurs among the events in the window and none for any other
    category; the entry is the quotient of the number of those events
    with the category by the number of events in the window.  The
    categories listed split the events in the window among them: their
    counts add up to the number of events in the window.  The
    distribution is empty exactly when no event is in the window. *)
Theorem session_context_is_distribution (now : Z) (self : SessionManager) :
  let dist := get_current_session_context now self in
  (forall c,
     Dict.get c dist =
     if (recent_count now self c =? 0)%nat then None
     else Some (share now self c)) /\
  List.NoDup (Dict.keys dist) /\
  fold_right Nat.add 0%nat (map (recent_count now self) (Dict.keys dist))
    = recent_total now self /\
  (dist = [] <-> recent_total now self = 0%nat).
Proof.
  cbv zeta. split; [intros c; apply session_context_get|].
  split; [apply session_context_NoDup|].
  unfold get_current_session_context, recent_total, recent_count.
  change (fun e : FileEvent => (now - ev_timestamp e <? window self)%Z)
    with (in_window now self).
  assert (Hcount : forall c,
            length (List.filter
                      (fun e => in_window now self e
                                && String.eqb (ev_category e) c)
                      (history self)) =
            length (List.filter (fun e => String.eqb (ev_category e) c)
                      (List.filter (in_window now self) (history self)))).
  { intros c. now rewrite filter_filter_andb. }
  rewrite (map_ext _ _ Hcount).
  destruct (List.filter (in_window now self) (history self)) as [|e0 es].
  - simpl. tauto.
  - set (events := e0 :: es).
    match goal with |- ?S /\ _ => assert (Hsum : S) end.
    { rewrite dict_keys_map. apply Nat2Z.inj. rewrite sum_of_nat.
      set (counts := fold_left count_event events []).
      assert (Hnd : List.NoDup (Dict.keys counts))
        by (apply fold_count_NoDup; constructor).
      rewrite <- (Z.add_0_l (Z.of_nat (length events))).
      change 0%Z with (fold_right Z.add 0%Z (map snd (@nil (string * Z)))) at 2.
      rewrite <- (fold_count_total events []). fold counts.
      rewrite (dict_values_by_key 0%Z counts Hnd).
      f_equal. apply map_ext. intros c. unfold counts.
      rewrite fold_count_get. cbv zeta.
      destruct (length (List.filter _ events)) as [|n]; simpl; lia. }
    split; [exact Hsum|]. split; [|discriminate].
    intros H. rewrite H in Hsum. simpl in Hsum. discriminate.
Qed.

Lemma recent_count_disjoint now self a b :
  a <> b ->
  (recent_count now self a + recent_count now self b <= recent_total now self)%nat.
Proof.
  intros Hab. unfold recent_count, recent_total.
  induction (history self) as [|e es IH]; simpl; [lia|].
  destruct (in_window now self e); simpl; [|exact IH].
  destruct (String.eqb (ev_category e) a) eqn:Ea;
    destruct (String.eqb (ev_category e) b) eqn:Eb; simpl; try lia.
  apply String.eqb_eq in Ea, Eb. congruence.
Qed.

Lemma recent_count_le_total now self c :
  (recent_count now self c <= recent_total now self)%nat.
Proof.
  unfold recent_count, recent_total.
  induction (history self) as [|e es IH]; simpl; [lia|].
  destruct (in_window now self e); simpl; [|exact IH].
  destruct (String.eqb (ev_category e) c); simpl; lia.
Qed.

Lemma share_gt_half now self c :
  1 # 2 < share now self c <->
  (recent_total now self < 2 * recent_count now self c)%nat.
Proof.
  unfold share. pose proof (recent_count_le_total now self c) as Hle.
  set (k := recent_count now self c) in *. set (t := recent_total now self) in *.
  destruct (Nat.eq_dec t 0%nat) as [Ht|Ht].
  - assert (k = 0%nat) by lia. subst k. rewrite Ht, H. simpl.
    split; [intros Hc; vm_compute in Hc; discriminate | lia].
  - assert (Hpos : 0 < inject_Z (Z.of_nat t)) by (apply inject_nat_pos; lia).
    split.
    + intros H. apply (Qmult_lt_r _ _ _ Hpos) in H.
      assert (E : inject_Z (Z.of_nat k) / inject_Z (Z.of_nat t)
                  * inject_Z (Z.of_nat t) == inject_Z (Z.of_nat k))
        by (field; lra).
      rewrite E in H.
      assert (Hq : inject_Z (Z.of_nat t) < inject_Z (2 * Z.of_nat k)).
      { rewrite inject_Z_mult. change (inject_Z 2) with 2. lra. }
      rewrite <- Zlt_Qlt in Hq. lia.
    + intros H. apply Qlt_shift_div_l; [exact Hpos|].
      assert (Hq : inject_Z (Z.of_nat t) < inject_Z (2 * Z.of_nat k)).
      { rewrite <- Zlt_Qlt. lia. }
      rewrite inject_Z_mult in Hq. change (inject_Z 2) with 2 in Hq. lra.
Qed.

Lemma share_le_count now self a b :
  (0 < recent_total now self)%nat ->
  share now self a <= share now self b ->
  (recent_count now self a <= recent_count now self b)%nat.
Proof.
  unfold share. intros Ht H.
  assert (Hpos : 0 < inject_Z (Z.of_nat (recent_total now self)))
    by (apply inject_nat_pos; exact Ht).
  unfold Qdiv in H. apply Qmult_le_r in H; [|now apply Qinv_lt_0_compat].
  rewrite <- Zle_Qle in H. lia.
Qed.

(** X3. The session voter names a category exactly when strictly more
    than half of the events in the window have it, and then with
    confidence [min(share, 0.9)]; when no category has such a majority
    it abstains. *)
Theorem session_voter_needs_majority
    (now : Z) (self : SessionManager) (context : FileContext) :
  (forall c,
     (recent_total now self < 2 * recent_count now self c)%nat ->
     vote (SessionVoter now self) context =
       Returned c (py_min (share now self c) (9 # 10))) /\
  ((forall c, (2 * recent_count now self c <= recent_total now self)%nat) ->
   vote (SessionVoter now self) context = Returned "Unknown" 0).
Proof.
  set (dist := get_current_session_context now self).
  assert (Hget : forall c, Dict.get c dist =
            if (recent_count now self c =? 0)%nat then None
            else Some (share now self c)) by (intros; apply session_context_get).
  assert (Hnd : List.NoDup (Dict.keys dist)) by apply session_context_NoDup.
  simpl vote. fold dist. unfold session_vote. split.
  - intros c Hc.
    assert (Hc0 : Dict.get c dist = Some (share now self c)).
    { rewrite Hget. destruct (Nat.eqb_spec (recent_count now self c) 0%nat); [lia|].
      reflexivity. }
    assert (Hne : dist <> []) by (intros E; rewrite E in Hc0; discriminate).
    destruct (max_key_spec dist Hnd Hne) as (k & v & Hmax & Hk & Hup).
    assert (Hkc : k = c).
    { destruct (String.eqb_spec k c) as [|Hneq]; [assumption|]. exfalso.
      pose proof (Hup c _ Hc0) as Hle. rewrite Hget in Hk.
      destruct (Nat.eqb_spec (recent_count now self k) 0%nat); [discriminate|].
      injection Hk as <-.
      pose proof (recent_count_le_total now self c).
      apply share_le_count in Hle; [|lia].
      pose proof (recent_count_disjoint now self k c Hneq). lia. }
    subst k. rewrite Hmax, Hk. rewrite Hc0 in Hk. injection Hk as <-.
    simpl default. apply share_gt_half in Hc. apply Qlt_bool_iff in Hc.
    now rewrite Hc.
  - intros Hall. destruct dist as [|kv rest] eqn:Ed; [reflexivity|].
    destruct (max_key_spec (kv :: rest) Hnd ltac:(discriminate))
      as (k & v & Hmax & Hk & _).
    rewrite Hmax, Hk. simpl default. rewrite Hget in Hk.
    destruct (Nat.eqb_spec (recent_count now self k) 0%nat); [discriminate|].
    injection Hk as <-.
    assert (Hle : Qlt_bool (1 # 2) (share now self k) = false).
    { apply not_true_iff_false. rewrite Qlt_bool_iff, share_gt_half.
      specialize (Hall k). lia. }
    now rewrite Hle.
Qed.

End TrackerFacts.

(** ** More about the voting engine *)

Section EngineFacts.
Import Voters Pipeline Classifier.

(** The result built from the final list of votes. *)
Lemma process_file_result (self : VotingEngine) (context : FileContext) :
  let fv := fast_votes self context in
  let w := fst (fst (_arbitrate fv)) in
  let c := snd (fst (_arbitrate fv)) in
  let result_of (final_votes : list Vote) (meth : string) :=
    {| file_path := path context;
       category := fst (fst (_arbitrate final_votes));
       confidence := snd (fst (_arbitrate final_votes));
       method := meth;
       votes := map vote_entry final_votes |} in
  nli_calls (fst (process_file self context)) =
    (if escalates w c context then 1%nat else 0%nat) /\
  snd (process_file self context) =
    if escalates w c context then
      match vote (nli_voter self) context with
      | Raised => None
      | Returned nli_cat nli_conf =>
          if negb (String.eqb nli_cat "Unknown")
          then Some (result_of (fv ++ [(nli_voter self, nli_cat, nli_conf)])
                       "voting_ensemble_with_nli")
          else Some (result_of fv "voting_ensemble")
      end
    else Some (result_of fv "voting_ensemble").
Proof.
  intros fv w c result_of. unfold process_file. fold fv.
  subst w c. destruct (_arbitrate fv) as [[w c] sb] eqn:Harb. simpl fst. simpl snd.
  destruct (escalates w c context).
  - destruct (vote (nli_voter self) context) as [|nli_cat nli_conf].
    + simpl. rewrite nli_calls_app, nli_calls_fast. auto.
    + destruct (negb (String.eqb nli_cat "Unknown")).
      * destruct (_arbitrate (fv ++ _)) as [[w' c'] sb'] eqn:Harb'.
        unfold finish. simpl. rewrite !nli_calls_app, nli_calls_fast.
        subst result_of. simpl. rewrite Harb'. simpl.
        split; [now destruct (negb (String.eqb w' "Unknown"))|reflexivity].
      * unfold finish. simpl. rewrite !nli_calls_app, nli_calls_fast.
        subst result_of. simpl. rewrite Harb. simpl.
        split; [now destruct (negb (String.eqb w "Unknown"))|reflexivity].
  - unfold finish. simpl. rewrite nli_calls_app, nli_calls_fast.
    subst result_of. simpl. rewrite Harb. simpl.
    split; [now destruct (negb (String.eqb w "Unknown"))|reflexivity].
Qed.

(** The arbitration of a single vote. *)
Lemma arbitrate_single (v : Voter) (cat : string) (conf : Q) :
  _arbitrate [(v, cat, conf)] =
  (cat, py_min (0 + weight v * conf) 1, [(cat, 0 + weight v * conf)]).
Proof.
  unfold _arbitrate. simpl fold_left. unfold tally. simpl Dict.mem.
  simpl Dict.set. simpl Dict.get. rewrite !String.eqb_refl. simpl.
  now rewrite String.eqb_refl.
Qed.

Lemma py_min_small (x : Q) : x <= 1 -> py_min x 1 = x.
Proof.
  intros H. unfold py_min. apply Qlt_bool_false in H. now rewrite H.
Qed.

(** X4. When no fast voter has an opinion, the text is not empty and
    the NLI reasoner names a category, that category is the result, with
    confidence [0.9 * 0.85 = 0.765], method
    ["voting_ensemble_with_nli"] and the NLI vote as the only vote. *)
Theorem nli_alone_decides
    (voters_ : list Voter)
    (reason_placement : string -> string -> list string -> string)
    (candidates : list string) (context : FileContext) :
  let self := {| voters := voters_;
                 nli_voter := NLIVoter reason_placement candidates |} in
  let answer := reason_placement (path context) (text context) candidates in
  fast_votes self context = [] ->
  text context <> "" ->
  answer <> "Unknown" ->
  exists r,
    snd (process_file self context) = Some r /\
    category r = answer /\
    confidence r == 153 # 200 /\
    method r = "voting_ensemble_with_nli" /\
    votes r = [{| entry_voter := "NLI"; entry_category := answer;
                  entry_confidence := 17 # 20 |}].
Proof.
  intros self answer Hfast Htext Hanswer.
  destruct (process_file_result self context) as [_ Hres].
  cbv zeta in Hres. rewrite Hfast in Hres.
  change (_arbitrate []) with ("Unknown", 0, @nil (string * Q)) in Hres.
  cbn [fst snd] in Hres.
  assert (Hesc : escalates "Unknown" 0 context = true).
  { apply escalates_iff. auto. }
  apply String.eqb_neq in Htext, Hanswer.
  assert (Hv : vote (nli_voter self) context = Returned answer (17 # 20)).
  { simpl. rewrite Htext. fold answer. now rewrite Hanswer. }
  rewrite Hesc, Hv, Hanswer in Hres. cbn [negb] in Hres.
  rewrite app_nil_l, arbitrate_single in Hres.
  eexists. split; [exact Hres|]. simpl. repeat split.
Qed.

Lemma score_of_nonneg c (votes : list Vote) :
  Forall (fun v => 0 <= weighted v) votes -> 0 <= score_of c votes.
Proof.
  unfold score_of. induction 1 as [|v votes Hv _ IH]; simpl; [lra|].
  destruct (voted_for c v); simpl; lra.
Qed.

Lemma py_min_nonneg x : 0 <= x -> 0 <= py_min x 1.
Proof. intros H. unfold py_min. destruct (Qlt_bool 1 x); lra. Qed.

Lemma arbitrate_confidence_bounds (votes : list Vote) :
  snd (fst (_arbitrate votes)) <= 1 /\
  (Forall (fun v => 0 <= weighted v) votes ->
   0 <= snd (fst (_arbitrate votes))).
Proof.
  destruct votes as [|v0 votes0]; [simpl; split; intros; lra|].
  destruct (arbitrate_nonempty (v0 :: votes0)) as (w & s & -> & Hget & _);
    [discriminate|].
  simpl fst. simpl snd. split; [apply py_min_le_r|].
  intros Hall. apply py_min_nonneg.
  pose proof (fold_tally_score w (v0 :: votes0) []) as Hs.
  rewrite Hget in Hs. simpl default in Hs. rewrite Hs.
  pose proof (score_of_nonneg w _ Hall). lra.
Qed.

Lemma fast_votes_In self context v c s :
  In (v, c, s) (fast_votes self context) ->
  In v (voters self) /\ vote v context = Returned c s.
Proof.
  unfold fast_votes. rewrite fold_collect. simpl.
  induction (voters self) as [|u us IH]; simpl; [tauto|].
  rewrite in_app_iff. intros [H|H]; [|destruct (IH H); auto].
  unfold ballot in H. destruct (vote u context) as [|cat conf] eqn:E;
    [destruct H|].
  destruct (negb (String.eqb cat "Unknown")); [|destruct H].
  destruct H as [[= <- <- <-]|[]]. auto.
Qed.

(** X5. The confidence [process_file] returns never exceeds 1, and is
    not negative when no voter has a negative weight or returns a
    negative confidence. *)
Theorem process_file_confidence_bounds
    (self : VotingEngine) (context : FileContext) :
  match snd (process_file self context) with
  | Some r =>
      confidence r <= 1 /\
      ((forall v, In v (nli_voter self :: voters self) ->
          0 <= weight v /\
          forall c s, vote v context = Returned c s -> 0 <= s) ->
       0 <= confidence r)
  | None => True
  end.
Proof.
  destruct (process_file_result self context) as [_ Hres]. cbv zeta in Hres.
  assert (Hfast : (forall v, In v (nli_voter self :: voters self) ->
                     0 <= weight v /\
                     forall c s, vote v context = Returned c s -> 0 <= s) ->
                  Forall (fun v => 0 <= weighted v) (fast_votes self context)).
  { intros Hpos. apply list.Forall_forall. intros [[v c] s] Hin.
    apply list_elem_of_In, fast_votes_In in Hin. destruct Hin as [Hv Hvote].
    destruct (Hpos v (or_intror Hv)) as [Hw Hs]. simpl.
    specialize (Hs _ _ Hvote). nra. }
  rewrite Hres. clear Hres.
  destruct (escalates _ _ context).
  - destruct (vote (nli_voter self) context) as [|nc ns] eqn:Hn; [exact I|].
    destruct (negb (String.eqb nc "Unknown")); simpl.
    + split; [apply arbitrate_confidence_bounds|]. intros Hpos.
      apply arbitrate_confidence_bounds. apply Forall_app. split; [auto|].
      constructor; [|constructor]. simpl.
      destruct (Hpos _ (or_introl eq_refl)) as [Hw Hs].
      specialize (Hs _ _ Hn). nra.
    + split; [apply arbitrate_confidence_bounds|]. intros Hpos.
      apply arbitrate_confidence_bounds. auto.
  - simpl. split; [apply arbitrate_confidence_bounds|]. intros Hpos.
    apply arbitrate_confidence_bounds. auto.
Qed.

Lemma py_min_proper x y : x == y -> py_min x 1 == py_min y 1.
Proof. intros H. now rewrite !py_min_Qmin, H. Qed.

(** The score of a category is built from the votes for that category
    alone, in their order: [0.0 + s1 + s2 + ...]. *)
Lemma fold_tally_get_in_order c (votes : list Vote) : forall sb,
  Dict.get c (fold_left tally votes sb) =
  fold_left (fun acc v => Some (default 0 acc + weighted v))
    (List.filter (voted_for c) votes) (Dict.get c sb).
Proof.
  induction votes as [|v votes IH]; intros sb; simpl; [reflexivity|].
  rewrite IH, tally_get. now destruct (voted_for c v).
Qed.

(** X6. Arbitration depends on the order of the votes only within a
    category and to break ties: when two lists of votes hold, for every
    category, the same votes in the same order, they give every
    category the same score and give the same confidence, and the same
    winner whenever the winner's score is strictly the largest. *)
Theorem arbitrate_order_independent (votes votes' : list Vote) :
  (forall c, List.filter (voted_for c) votes
             = List.filter (voted_for c) votes') ->
  let '(w, conf, sb) := _arbitrate votes in
  let '(w', conf', sb') := _arbitrate votes' in
  (forall c, Dict.get c sb = Dict.get c sb') /\
  conf == conf' /\
  ((forall c s, Dict.get c sb = Some s -> c <> w ->
                s < default 0 (Dict.get w sb)) ->
   w' = w).
Proof.
  intros Hsame.
  assert (Hnil : forall a b : list Vote,
            (forall c, List.filter (voted_for c) a
                       = List.filter (voted_for c) b) ->
            a = [] -> b = []).
  { intros a [|[[voter cat] conf] b] H ->; [reflexivity|].
    specialize (H cat). simpl in H. rewrite String.eqb_refl in H.
    discriminate. }
  assert (Hsb : forall c,
            Dict.get c (fold_left tally votes [])
            = Dict.get c (fold_left tally votes' [])).
  { intros c. now rewrite !fold_tally_get_in_order, Hsame. }
  destruct votes as [|v0 votes0].
  { rewrite (Hnil [] votes' Hsame eq_refl). simpl.
    split; [reflexivity|]. split; [reflexivity | auto]. }
  destruct votes' as [|v0' votes0'].
  { symmetry in Hsame.
    pose proof (Hnil [] (v0 :: votes0)
                  (fun c => eq_sym (eq_sym (Hsame c))) eq_refl).
    discriminate. }
  set (votes := v0 :: votes0) in *. set (votes' := v0' :: votes0') in *.
  destruct (arbitrate_nonempty votes) as (w & s & -> & Hget & Hup);
    [discriminate|].
  destruct (arbitrate_nonempty votes') as (w' & s' & -> & Hget' & Hup');
    [discriminate|].
  assert (Ht : Dict.get w (fold_left tally votes' []) = Some s)
    by now rewrite <- Hsb.
  assert (Ht' : Dict.get w' (fold_left tally votes []) = Some s')
    by now rewrite Hsb.
  pose proof (Hup' _ _ Ht) as H1. pose proof (Hup _ _ Ht') as H2.
  assert (Hss : s == s') by lra.
  split; [exact Hsb|]. split; [now apply py_min_proper|].
  intros Hstrict. destruct (String.eqb_spec w' w) as [|Hne]; [assumption|].
  exfalso. specialize (Hstrict w' s' Ht' Hne). rewrite Hget in Hstrict.
  simpl in Hstrict. lra.
Qed.

(** *** The first maximum *)

Lemma max_from_stay best rest :
  (forall x, In x rest -> snd x <= snd best) -> Dict.max_from best rest = best.
Proof.
  revert best. induction rest as [|[k v] rest IH]; intros best H; simpl;
    [reflexivity|].
  assert (Hv : v <= snd best) by (apply (H (k, v)); now left).
  apply Qlt_bool_false in Hv. rewrite Hv. apply IH. intros x Hx. apply H.
  now right.
Qed.

Lemma max_from_decomp rest : forall best,
  let r := Dict.max_from best rest in
  (r = best /\ forall x, In x rest -> snd x <= snd best) \/
  (exists pre post,
     rest = pre ++ r :: post /\ snd best < snd r /\
     (forall x, In x pre -> snd x < snd r) /\
     (forall x, In x post -> snd x <= snd r)).
Proof.
  induction rest as [|[k v] rest IH]; intros best; simpl.
  - left. split; [reflexivity | tauto].
  - destruct (Qlt_bool (snd best) v) eqn:E.
    + apply Qlt_bool_iff in E. right. specialize (IH (k, v)). simpl in IH.
      remember (Dict.max_from (k, v) rest) as r eqn:Er. clear Er.
      destruct IH as [[Hr Hle]|(pre & post & Hd & Hlt & Hpre & Hpost)].
      * subst r. exists [], rest. simpl. repeat split; auto. tauto.
      * exists ((k, v) :: pre), post. simpl in *. rewrite <- Hd.
        repeat split; auto; [lra|].
        intros x [<-|Hx]; simpl; auto.
    + apply Qlt_bool_false in E. specialize (IH best). simpl in IH.
      remember (Dict.max_from best rest) as r eqn:Er. clear Er.
      destruct IH as [[Hr Hle]|(pre & post & Hd & Hlt & Hpre & Hpost)].
      * left. split; [exact Hr|]. intros x [<-|Hx]; simpl; auto.
      * right. exists ((k, v) :: pre), post. simpl. rewrite <- Hd.
        repeat split; auto.
        intros x [<-|Hx]; simpl; [lra | auto].
Qed.

Lemma max_from_first k v post : forall pre best,
  snd best < v ->
  (forall x, In x pre -> snd x < v) ->
  (forall x, In x post -> snd x <= v) ->
  Dict.max_from best (pre ++ (k, v) :: post) = (k, v).
Proof.
  induction pre as [|[k0 v0] pre IH]; intros best Hb Hpre Hpost; simpl.
  - apply Qlt_bool_iff in Hb. rewrite Hb. now apply max_from_stay.
  - destruct (Qlt_bool (snd best) v0).
    + apply IH; [| |exact Hpost].
      * apply (Hpre (k0, v0)). now left.
      * intros x Hx. apply Hpre. now right.
    + apply IH; [exact Hb | | exact Hpost].
      intros x Hx. apply Hpre. now right.
Qed.

(** [max_key] names the first binding of largest value, and only it. *)
Lemma max_key_first (d : Dict.t Q) k :
  Dict.max_key d = Some k <->
  exists v pre post,
    d = pre ++ (k, v) :: post /\
    (forall x, In x pre -> snd x < v) /\
    (forall x, In x post -> snd x <= v).
Proof.
  split.
  - destruct d as [|kv rest]; [discriminate|]. simpl. intros [= <-].
    pose proof (max_from_decomp rest kv) as H. cbv zeta in H.
    remember (Dict.max_from kv rest) as r eqn:Er. clear Er.
    destruct r as [k v]. simpl.
    destruct H as [[Hr Hle]|(pre & post & Hd & Hlt & Hpre & Hpost)].
    + subst kv. exists v, [], rest. simpl. repeat split; auto. tauto.
    + subst rest. exists v, (kv :: pre), post. simpl in *.
      repeat split; auto. intros x [<-|Hx]; auto.
  - intros (v & pre & post & -> & Hpre & Hpost). destruct pre as [|x pre]; simpl.
    + now rewrite max_from_stay.
    + rewrite max_from_first; auto.
      * apply Hpre. now left.
      * intros y Hy. apply Hpre. now right.
Qed.

Lemma dict_set_middle (pre post : Dict.t Q) k v v' :
  ~ In k (Dict.keys pre) ->
  Dict.set k v' (pre ++ (k, v) :: post) = pre ++ (k, v') :: post.
Proof.
  induction pre as [|[k0 v0] pre IH]; simpl; intros Hk.
  - now rewrite String.eqb_refl.
  - destruct (String.eqb_spec k k0) as [->|Hne]; [tauto|].
    rewrite IH; tauto.
Qed.

Lemma arbitrate_max_key (votes : list Vote) :
  votes <> [] ->
  exists w,
    Dict.max_key (fold_left tally votes []) = Some w /\
    _arbitrate votes =
      (w, py_min (default 0 (Dict.get w (fold_left tally votes []))) 1,
       fold_left tally votes []).
Proof.
  intros Hne. pose proof (fold_tally_nonempty votes [] Hne) as Hsb.
  unfold _arbitrate. destruct votes as [|v0 votes]; [congruence|].
  destruct (Dict.max_key (fold_left tally (v0 :: votes) [])) as [w|] eqn:E.
  - eauto.
  - destruct (fold_left tally (v0 :: votes) []); [congruence | discriminate].
Qed.

Lemma py_min_monotone x y : x <= y -> py_min x 1 <= py_min y 1.
Proof.
  intros H. unfold py_min.
  destruct (Qlt_bool 1 x) eqn:Ex, (Qlt_bool 1 y) eqn:Ey;
    rewrite ?Qlt_bool_iff, ?Qlt_bool_false in *; lra.
Qed.

(** X7. A further vote for the current winner, with a contribution that
    is not negative, leaves the winner in place and does not lower the
    confidence; so an NLI vote that agrees with the first round never
    changes the category. *)
Theorem agreeing_vote_keeps_winner (votes : list Vote) (v : Voter) (conf : Q) :
  votes <> [] ->
  0 <= weight v * conf ->
  let w := fst (fst (_arbitrate votes)) in
  fst (fst (_arbitrate (votes ++ [(v, w, conf)]))) = w /\
  snd (fst (_arbitrate votes))
    <= snd (fst (_arbitrate (votes ++ [(v, w, conf)]))).
Proof.
  intros Hne Hpos.
  destruct (arbitrate_max_key votes Hne) as (w & Hmax & Harb).
  cbv zeta. rewrite Harb. cbn [fst snd].
  set (sb := fold_left tally votes []) in *.
  assert (Hnd : List.NoDup (Dict.keys sb))
    by (apply fold_tally_NoDup; constructor).
  destruct (proj1 (max_key_first sb w) Hmax)
    as (s & pre & post & Hsb & Hpre & Hpost).
  assert (Hk : ~ In w (Dict.keys pre)).
  { rewrite Hsb in Hnd. unfold Dict.keys in *. rewrite map_app in Hnd.
    simpl in Hnd. apply NoDup_ListNoDup, NoDup_app in Hnd.
    destruct Hnd as (_ & Hdis & _). intros Hin.
    apply (Hdis w); [now apply list_elem_of_In|]. left. }
  assert (Hget : Dict.get w sb = Some s).
  { apply dict_In_get; [exact Hnd|]. rewrite Hsb. apply in_or_app. right.
    now left. }
  assert (Hsb' : fold_left tally (votes ++ [(v, w, conf)]) [] =
                 pre ++ (w, s + weight v * conf) :: post).
  { rewrite fold_left_app. simpl fold_left. fold sb. unfold tally.
    unfold Dict.mem. rewrite Hget. cbv iota beta zeta. rewrite Hget.
    simpl default. rewrite Hsb. now apply dict_set_middle. }
  assert (Hmax' : Dict.max_key (fold_left tally (votes ++ [(v, w, conf)]) [])
                  = Some w).
  { rewrite Hsb'. apply max_key_first.
    exists (s + weight v * conf), pre, post. repeat split; auto.
    - intros x Hx. specialize (Hpre x Hx). lra.
    - intros x Hx. specialize (Hpost x Hx). lra. }
  destruct (arbitrate_max_key (votes ++ [(v, w, conf)])) as (w' & Hm & ->).
  { intros H. now apply app_eq_nil in H as [_ ?]. }
  rewrite Hmax' in Hm. injection Hm as <-. simpl fst. simpl snd.
  split; [reflexivity|]. rewrite Hget. simpl default.
  apply py_min_monotone.
  assert (Hg : Dict.get w (fold_left tally (votes ++ [(v, w, conf)]) [])
               = Some (s + weight v * conf)).
  { apply dict_In_get.
    - apply fold_tally_NoDup. constructor.
    - rewrite Hsb'. apply in_or_app. right. now left. }
  rewrite Hg. simpl. lra.
Qed.

(** *** A voter that raises and a voter that abstains *)

Lemma tally_same sb (x y : Vote) : same_vote x y -> tally sb x = tally sb y.
Proof.
  destruct x as [[v c] s], y as [[v' c'] s']. unfold same_vote. simpl.
  intros (_ & Hw & -> & ->). unfold tally. now rewrite Hw.
Qed.

Lemma arbitrate_same (l l' : list Vote) :
  Forall2 same_vote l l' ->
  _arbitrate l = _arbitrate l' /\ map vote_entry l = map vote_entry l'.
Proof.
  intros H.
  assert (Hfold : forall sb, fold_left tally l sb = fold_left tally l' sb).
  { induction H as [|x y l l' Hxy _ IH]; intros sb; simpl; [reflexivity|].
    rewrite (tally_same sb x y Hxy). apply IH. }
  split.
  - unfold _arbitrate. rewrite Hfold. now destruct H.
  - clear Hfold. induction H as [|x y l l' Hxy _ IH]; simpl; [reflexivity|].
    rewrite IH. f_equal. destruct x as [[v c] s], y as [[v' c'] s'].
    destruct Hxy as (Hn & _ & Hc & Hs). simpl in *. now rewrite Hn, Hc, Hs.
Qed.

Lemma ballot_quiet context v :
  Forall2 same_vote (ballot context (quiet v)) (ballot context v).
Proof.
  unfold ballot, quiet. simpl.
  destruct (vote v context) as [|cat conf]; simpl; [constructor|].
  destruct (negb (String.eqb cat "Unknown")); repeat constructor.
Qed.

Lemma fast_votes_quiet vs nli context :
  Forall2 same_vote
    (fast_votes {| voters := map quiet vs; nli_voter := nli |} context)
    (fast_votes {| voters := vs; nli_voter := nli |} context).
Proof.
  unfold fast_votes. rewrite !fold_collect. simpl.
  induction vs as [|v vs IH]; simpl; [constructor|].
  apply Forall2_app; [apply ballot_quiet | exact IH].
Qed.

(** X8. A fast voter that raises counts exactly as one that answers
    [("Unknown", 0.0)]: replacing every exception by that answer changes
    nothing in what [process_file] returns. *)
Theorem raising_voter_is_abstaining
    (vs : list Voter) (nli : Voter) (context : FileContext) :
  snd (process_file {| voters := map quiet vs; nli_voter := nli |} context) =
  snd (process_file {| voters := vs; nli_voter := nli |} context).
Proof.
  destruct (process_file_result {| voters := map quiet vs; nli_voter := nli |}
              context) as [_ H1].
  destruct (process_file_result {| voters := vs; nli_voter := nli |} context)
    as [_ H2].
  cbv zeta in H1, H2. rewrite H1, H2. clear H1 H2. simpl nli_voter.
  pose proof (fast_votes_quiet vs nli context) as Hsame.
  destruct (arbitrate_same _ _ Hsame) as [Ha Hm]. rewrite Ha.
  destruct (escalates _ _ context); [|now rewrite Hm].
  destruct (vote nli context) as [|c s]; [reflexivity|].
  destruct (negb (String.eqb c "Unknown")); [|now rewrite Hm].
  assert (Hext : Forall2 same_vote
            (fast_votes {| voters := map quiet vs; nli_voter := nli |} context
             ++ [(nli, c, s)])
            (fast_votes {| voters := vs; nli_voter := nli |} context
             ++ [(nli, c, s)])).
  { apply Forall2_app; [exact Hsame|]. repeat constructor. }
  destruct (arbitrate_same _ _ Hext) as [Ha' Hm']. now rewrite Ha', Hm'.
Qed.

(** *** Voters that cannot settle a file alone *)

Lemma file_type_confidence as_path context cat conf :
  vote (FileTypeVoter as_path) context = Returned cat conf -> conf <= 9 # 10.
Proof.
  simpl.
  repeat match goal with
         | |- context [if ?b then _ else _] => destruct b
         end; intros [= <- <-]; lra.
Qed.

Lemma session_confidence now sm context cat conf :
  vote (SessionVoter now sm) context = Returned cat conf -> conf <= 9 # 10.
Proof.
  simpl. unfold session_vote.
  destruct (Dict.max_key _); [destruct (Qlt_bool _ _)|]; intros [= <- <-];
    try lra. apply py_min_le_r.
Qed.

(** X9. Neither the file type voter nor the session voter can settle a
    file alone: when the votes collected are those of one of them and
    the text is not empty, the NLI voter is called. *)
Theorem weak_voter_alone_escalates
    (self : VotingEngine) (context : FileContext) (v : Voter)
    (as_path : string -> Fs.Path) (now : Z) (sm : SessionManager) :
  v = FileTypeVoter as_path \/ v = SessionVoter now sm ->
  fast_votes self context = ballot context v ->
  text context <> "" ->
  nli_calls (fst (process_file self context)) = 1%nat.
Proof.
  intros Hv Hfast Htext.
  destruct (process_file_result self context) as [Hn _]. cbv zeta in Hn.
  rewrite Hn, Hfast. clear Hn.
  assert (Hw : 0 <= weight v <= 1 # 2).
  { destruct Hv as [->| ->]; simpl; lra. }
  assert (Hc : forall cat conf,
             vote v context = Returned cat conf -> conf <= 9 # 10).
  { intros cat conf. destruct Hv as [->| ->];
      [apply file_type_confidence | apply session_confidence]. }
  unfold ballot.
  destruct (vote v context) as [|cat conf] eqn:E.
  - simpl. rewrite (proj2 (escalates_iff "Unknown" 0 context)); auto.
  - specialize (Hc _ _ eq_refl).
    destruct (negb (String.eqb cat "Unknown")).
    + rewrite arbitrate_single. simpl fst. simpl snd.
      assert (Hs : 0 + weight v * conf < 3 # 5) by nra.
      rewrite py_min_small by lra.
      rewrite (proj2 (escalates_iff _ _ context)); auto.
    + simpl. rewrite (proj2 (escalates_iff "Unknown" 0 context)); auto.
Qed.

End EngineFacts.

(** ** More about the executors *)

Section ExecutorFacts.
Import Fs.

Lemma ensure_dir_keeps (p q : Path) (n : Node) (fs : FileSystem) :
  fs !! q = Some n -> ensure_dir p fs !! q = Some n.
Proof.
  intros H. unfold ensure_dir. destruct (fs !! p) eqn:E; [exact H|].
  rewrite lookup_insert_ne; [exact H | congruence].
Qed.

Lemma ensure_dir_other (p q : Path) (fs : FileSystem) :
  p <> q -> ensure_dir p fs !! q = fs !! q.
Proof.
  intros H. unfold ensure_dir. destruct (fs !! p); [reflexivity|].
  now apply lookup_insert_ne.
Qed.

(** [mkdir] keeps every node there is and adds nothing outside the
    ancestors of its argument. *)
Lemma mkdir_keeps (os : OS) (fs fs' : FileSystem) (p q : Path) (n : Node) :
  mkdir os fs p = Some fs' -> fs !! q = Some n -> fs' !! q = Some n.
Proof.
  unfold mkdir. destruct (mkdir_fails os p); [discriminate|].
  destruct (existsb _ _); [discriminate|]. intros [= <-] H.
  induction (ancestors p) as [|a l IH]; simpl; [exact H|].
  now apply ensure_dir_keeps.
Qed.

Lemma mkdir_other (os : OS) (fs fs' : FileSystem) (p q : Path) :
  mkdir os fs p = Some fs' -> ~ In q (ancestors p) -> fs' !! q = fs !! q.
Proof.
  unfold mkdir. destruct (mkdir_fails os p); [discriminate|].
  destruct (existsb _ _); [discriminate|]. intros [= <-].
  induction (ancestors p) as [|a l IH]; simpl; [reflexivity|].
  intros H. rewrite ensure_dir_other by tauto. apply IH. tauto.
Qed.

Lemma ancestors_length (p q : Path) : In q (ancestors p) -> (length q <= length p)%nat.
Proof.
  unfold ancestors. rewrite in_map_iff. intros (n & <- & _).
  rewrite length_take. lia.
Qed.

Lemma joinpath_not_ancestor (folder : Path) (x : string) : ~ In (joinpath folder x) (ancestors folder).
Proof.
  intros H. apply ancestors_length in H. unfold joinpath in H.
  rewrite length_app in H. simpl in H. lia.
Qed.

Lemma parent_joinpath (folder : Path) (x : string) : parent (joinpath folder x) = folder.
Proof. unfold parent, joinpath. apply removelast_last. Qed.

Lemma exists_false (fs : FileSystem) (p : Path) : exists_ fs p = false <-> fs !! p = None.
Proof. unfold exists_. destruct (fs !! p); split; congruence. Qed.

Lemma exists_true (fs : FileSystem) (p : Path) :
  exists_ fs p = true <-> exists n, fs !! p = Some n.
Proof.
  unfold exists_. destruct (fs !! p); split; eauto; try discriminate.
  intros [? ?]. discriminate.
Qed.

(** The destination [_get_safe_dest] chooses lies in the folder asked
    for and is free. *)
Lemma get_safe_dest_in_folder (fs : FileSystem) (folder : Path) (n : string) :
  exists x,
    Executor._get_safe_dest fs (joinpath folder n) = Some (joinpath folder x) /\
    fs !! joinpath folder x = None.
Proof.
  unfold Executor._get_safe_dest.
  destruct (exists_ fs (joinpath folder n)) eqn:E; cbn [negb].
  - destruct (first_free_spec fs (joinpath folder n) 2)
      as (k & _ & -> & Hfree & _).
    unfold versioned in *. rewrite parent_joinpath in *.
    eexists. split; [reflexivity|]. now apply exists_false.
  - exists n. split; [reflexivity|]. now apply exists_false.
Qed.

(** [safe_move] always ends, in one of five ways. *)
Lemma safe_move_cases (os : OS) (DRY_RUN : bool) (now : Z) (fs : FileSystem)
    (self : Executor.Executor) (src folder : Path) (new_name : option string) :
  exists x o,
    fs !! joinpath folder x = None /\
    Executor._get_safe_dest fs
      (joinpath folder (default (name src) new_name))
      = Some (joinpath folder x) /\
    Executor.safe_move os DRY_RUN now fs self src folder new_name = Some o /\
    ((exists_ fs src = false /\ o = Executor.outcome false fs self []) \/
     (exists_ fs src = true /\ DRY_RUN = true /\
      o = Executor.outcome true fs self []) \/
     (exists_ fs src = true /\ DRY_RUN = false /\
      mkdir os fs folder = None /\
      o = Executor.outcome false fs self [FsMkdir folder]) \/
     (exists_ fs src = true /\ DRY_RUN = false /\
      exists fs1,
        mkdir os fs folder = Some fs1 /\
        shutil_move os fs1 src (joinpath folder x) = None /\
        o = Executor.outcome false fs1 self
              [FsMkdir folder; FsMove src (joinpath folder x)]) \/
     (exists_ fs src = true /\ DRY_RUN = false /\
      exists fs1 fs2,
        mkdir os fs folder = Some fs1 /\
        shutil_move os fs1 src (joinpath folder x) = Some fs2 /\
        let tx := {| Executor.action := "move"; Executor.src := src;
                     Executor.dest := joinpath folder x;
                     Executor.timestamp := now |} in
        o = Executor.outcome true fs2
              (Executor._save_transactions os
                 {| Executor.transactions := Executor.transactions self ++ [tx];
                    Executor.transaction_log_file :=
                      Executor.transaction_log_file self;
                    Executor._recently_moved :=
                      <[joinpath folder x := now]>
                        (Executor._recently_moved self) |})
              ([FsMkdir folder; FsMove src (joinpath folder x)]
               ++ Executor.save_events os tx))).
Proof.
  destruct (get_safe_dest_in_folder fs folder (default (name src) new_name))
    as (x & Hdest & Hfree).
  exists x. unfold Executor.safe_move. rewrite Hdest.
  destruct (exists_ fs src) eqn:Hsrc; cbn [negb].
  2:{ eexists. split; [exact Hfree|]. do 2 (split; [reflexivity|]).
      left. auto. }
  destruct DRY_RUN.
  { eexists. split; [exact Hfree|]. do 2 (split; [reflexivity|]).
    right. left. auto. }
  destruct (mkdir os fs folder) as [fs1|] eqn:Hmk.
  2:{ eexists. split; [exact Hfree|]. do 2 (split; [reflexivity|]).
      right. right. left. auto. }
  destruct (shutil_move os fs1 src (joinpath folder x)) as [fs2|] eqn:Hmv.
  - eexists. split; [exact Hfree|]. do 2 (split; [reflexivity|]).
    right. right. right. right.
    split; [reflexivity|]. split; [reflexivity|]. exists fs1, fs2. auto.
  - eexists. split; [exact Hfree|]. do 2 (split; [reflexivity|]).
    right. right. right. left.
    split; [reflexivity|]. split; [reflexivity|]. exists fs1. auto.
Qed.

(** X10. A [safe_move] that answers [False], and any [safe_move] in
    dry-run mode, records nothing and loses nothing: the executor's
    state is as before and every file and folder is still where it
    was. *)
Theorem safe_move_without_effect (os : OS) (DRY_RUN : bool) (now : Z)
    (fs : FileSystem) (self : Executor.Executor) (src folder : Path)
    (new_name : option string) :
  exists o,
    Executor.safe_move os DRY_RUN now fs self src folder new_name = Some o /\
    (DRY_RUN = true ->
     Executor.fs_after o = fs /\ Executor.self_after o = self /\
     Executor.returned o = exists_ fs src) /\
    (Executor.returned o = false ->
     Executor.self_after o = self /\
     forall (p : Path) (n : Node),
       fs !! p = Some n -> Executor.fs_after o !! p = Some n).
Proof.
  destruct (safe_move_cases os DRY_RUN now fs self src folder new_name)
    as (x & o & _ & _ & Hrun & Hcases).
  exists o. split; [exact Hrun|].
  destruct Hcases as [(Hs & ->)|[(Hs & Hd & ->)|[(Hs & Hd & Hmk & ->)
    |[(Hs & Hd & fs1 & Hmk & Hmv & ->)|(Hs & Hd & fs1 & fs2 & Hmk & Hmv & ->)]]]];
    simpl; split; try (intros; congruence); auto.
  - intros _. split; [reflexivity|]. intros p n Hp.
    eapply mkdir_keeps; eauto.
Qed.

(** X11. A [safe_move] of a file under its own name or under a plain
    new name (one non-empty component, without separators) that answers
    [True] outside dry-run mode has put the file at a path of the
    destination folder that was free before, has removed it from its
    old place, has left every other file and folder as it was, and has
    logged the move as its last transaction. *)
Theorem safe_move_never_overwrites (os : OS) (now : Z)
    (fs : FileSystem) (self : Executor.Executor) (src folder : Path)
    (new_name : option string) (content : string) (o : Executor.Outcome) :
  (forall n, new_name = Some n -> Pathlib.plain_name n = true) ->
  fs !! src = Some (File content) ->
  Executor.safe_move os false now fs self src folder new_name = Some o ->
  Executor.returned o = true ->
  exists final_dest : Path,
    fs !! final_dest = None /\
    parent final_dest = folder /\
    Executor.fs_after o !! final_dest = Some (File content) /\
    Executor.fs_after o !! src = None /\
    (forall (p : Path) (n : Node),
       p <> src -> fs !! p = Some n -> Executor.fs_after o !! p = Some n) /\
    Executor.transactions (Executor.self_after o) =
      Executor.transactions self ++
      [{| Executor.action := "move"; Executor.src := src;
          Executor.dest := final_dest; Executor.timestamp := now |}].
Proof.
  intros _ Hnode Hrun Hret.
  destruct (safe_move_cases os false now fs self src folder new_name)
    as (x & o' & Hfree & _ & Hrun' & Hcases).
  rewrite Hrun in Hrun'. injection Hrun' as <-.
  destruct Hcases as [(Hs & ->)|[(Hs & Hd & ->)|[(Hs & Hd & Hmk & ->)
    |[(Hs & Hd & fs1 & Hmk & Hmv & ->)|(Hs & Hd & fs1 & fs2 & Hmk & Hmv & ->)]]]];
    simpl in Hret; try discriminate.
  assert (Hfree1 : fs1 !! joinpath folder x = None).
  { rewrite (mkdir_other os fs fs1 folder _ Hmk); [exact Hfree|].
    apply joinpath_not_ancestor. }
  destruct (shutil_move_rename os fs1 src (joinpath folder x) fs2)
    as (node' & Hsrc1 & ->); [now apply exists_false | exact Hmv |].
  rewrite (mkdir_keeps os fs fs1 folder src _ Hmk Hnode) in Hsrc1.
  injection Hsrc1 as <-.
  assert (Hne : joinpath folder x <> src) by congruence.
  exists (joinpath folder x). simpl. repeat split; auto.
  - apply parent_joinpath.
  - apply lookup_insert_eq.
  - rewrite lookup_insert_ne by exact Hne. apply lookup_delete_eq.
  - intros p n Hp Hn.
    rewrite lookup_insert_ne by congruence.
    rewrite lookup_delete_ne by congruence.
    eapply mkdir_keeps; eauto.
  - unfold Executor._save_transactions. now destruct (save_fails os).
Qed.

Lemma parent_shorter (p : Path) : p <> [] -> parent p <> p.
Proof.
  intros Hp H. apply (f_equal length) in H. unfold parent in H.
  destruct (exists_last Hp) as (l & a & ->).
  rewrite removelast_last, length_app in H. simpl in H. lia.
Qed.

Lemma is_dir_spec (fs : FileSystem) (p : Path) :
  is_dir fs p = true <-> p = [] \/ fs !! p = Some Dir.
Proof.
  unfold is_dir. destruct p as [|a l].
  - split; auto.
  - destruct (_ !! _) as [[c|]|]; split; auto; try discriminate;
      intros [H|H]; discriminate.
Qed.

(** X12. Undoing the move of a file that has just succeeded succeeds:
    when the source's folder exists and the operating system lets the
    file be moved back, [undo_last] answers [True], the filesystem is
    again what it was before the move apart from the destination folder
    that the move created, and the transactions are those of before. *)
Theorem safe_move_then_undo (os : OS) (now : Z)
    (fs : FileSystem) (self : Executor.Executor) (src folder : Path)
    (new_name : option string) (content : string) (o : Executor.Outcome) :
  fs !! src = Some (File content) ->
  Executor.safe_move os false now fs self src folder new_name = Some o ->
  Executor.returned o = true ->
  is_dir fs (parent src) = true ->
  (forall d, move_fails os d src = false) ->
  let o' := Executor.undo_last os (Executor.fs_after o) (Executor.self_after o) in
  Executor.returned o' = true /\
  mkdir os fs folder = Some (Executor.fs_after o') /\
  Executor.fs_after o' !! src = Some (File content) /\
  Executor.transactions (Executor.self_after o') = Executor.transactions self.
Proof.
  intros Hnode Hrun Hret Hdir Hok.
  destruct (safe_move_cases os false now fs self src folder new_name)
    as (x & o1 & Hfree & _ & Hrun' & Hcases).
  rewrite Hrun in Hrun'. injection Hrun' as <-.
  destruct Hcases as [(Hs & ->)|[(Hs & Hd & ->)|[(Hs & Hd & Hmk & ->)
    |[(Hs & Hd & fs1 & Hmk & Hmv & ->)|(Hs & Hd & fs1 & fs2 & Hmk & Hmv & ->)]]]];
    simpl in Hret; try discriminate.
  set (d := joinpath folder x) in *. set (node := File content) in *.
  assert (Hfree1 : fs1 !! d = None).
  { rewrite (mkdir_other os fs fs1 folder _ Hmk); [exact Hfree|].
    apply joinpath_not_ancestor. }
  destruct (shutil_move_rename os fs1 src d fs2)
    as (node' & Hsrc1 & Hfs2); [now apply exists_false | exact Hmv |].
  pose proof (mkdir_keeps os fs fs1 folder src node Hmk Hnode) as Hsrc1'.
  rewrite Hsrc1' in Hsrc1. injection Hsrc1 as <-.
  assert (Hne : d <> src) by congruence.
  assert (Hback : <[src := node]> (delete d fs2) = fs1).
  { subst fs2. apply map_eq. intros p.
    destruct (decide (p = src)) as [->|Hp].
    - now rewrite lookup_insert_eq.
    - rewrite lookup_insert_ne by congruence.
      destruct (decide (p = d)) as [->|Hp'].
      + now rewrite lookup_delete_eq.
      + rewrite lookup_delete_ne, lookup_insert_ne, lookup_delete_ne;
          congruence. }
  assert (Hdir2 : is_dir fs2 (parent src) = true).
  { apply is_dir_spec. apply is_dir_spec in Hdir.
    destruct (decide (parent src = [])) as [Hroot|Hroot]; [now left | right].
    destruct Hdir as [?|E]; [congruence|].
    assert (Hps : parent src <> src).
    { apply parent_shorter. intros ->. now apply Hroot. }
    assert (Hpd : parent src <> d).
    { intros Heq. rewrite <- Heq in Hfree. congruence. }
    subst fs2.
    rewrite lookup_insert_ne, lookup_delete_ne by congruence.
    now rewrite (mkdir_keeps os fs fs1 folder _ _ Hmk E). }
  assert (Hundo : shutil_move os fs2 d src
                  = Some (<[src := node]> (delete d fs2))).
  { unfold shutil_move. rewrite Hok.
    assert (Hd2 : fs2 !! d = Some node) by (subst fs2; apply lookup_insert_eq).
    assert (Hs2 : fs2 !! src = None).
    { subst fs2. rewrite lookup_insert_ne by exact Hne. apply lookup_delete_eq. }
    now rewrite Hd2, Hs2, Hdir2. }
  cbv zeta. unfold Executor.undo_last. simpl Executor.self_after.
  simpl Executor.fs_after.
  assert (Htx : Executor.transactions
                  (Executor._save_transactions os
                     {| Executor.transactions :=
                          Executor.transactions self ++
                          [{| Executor.action := "move"; Executor.src := src;
                              Executor.dest := d; Executor.timestamp := now |}];
                        Executor.transaction_log_file :=
                          Executor.transaction_log_file self;
                        Executor._recently_moved :=
                          <[d := now]> (Executor._recently_moved self) |})
                = Executor.transactions self ++
                  [{| Executor.action := "move"; Executor.src := src;
                      Executor.dest := d; Executor.timestamp := now |}]).
  { unfold Executor._save_transactions. now destruct (save_fails os). }
  rewrite Htx, rev_unit, removelast_last. simpl Executor.action.
  simpl Executor.dest. simpl Executor.src. simpl String.eqb. cbv iota.
  assert (Hed : exists_ fs2 d = true).
  { apply exists_true. exists node. subst fs2. apply lookup_insert_eq. }
  assert (Hes : exists_ fs2 src = false).
  { apply exists_false. subst fs2. rewrite lookup_insert_ne by exact Hne.
    apply lookup_delete_eq. }
  rewrite Hed, Hes, Hundo. simpl. rewrite Hback.
  split; [reflexivity|]. split; [exact Hmk|]. split; [exact Hsrc1'|].
  unfold Executor._save_transactions. now destruct (save_fails os).
Qed.

(** X13. A file the executor has just placed is reported as recently
    moved for the ten seconds that follow and no longer after that, and
    each query drops the entries that have expired. *)
Theorem placed_file_is_recent (os : OS) (now now' : Z)
    (fs : FileSystem) (self : Executor.Executor) (src folder : Path)
    (new_name : option string) (o : Executor.Outcome) :
  Executor.safe_move os false now fs self src folder new_name = Some o ->
  Executor.returned o = true ->
  exists final_dest : Path,
    last (Executor.transactions (Executor.self_after o))
      = Some {| Executor.action := "move"; Executor.src := src;
                Executor.dest := final_dest; Executor.timestamp := now |} /\
    fst (Cooldown.is_recently_moved now' (Executor.self_after o) final_dest)
      = (now' - now <? 10)%Z /\
    forall (file_path q : Path) (t : Z),
      Executor._recently_moved
        (snd (Cooldown.is_recently_moved now' (Executor.self_after o) file_path))
        !! q = Some t <->
      Executor._recently_moved (Executor.self_after o) !! q = Some t /\
      (now' - t < 10)%Z.
Proof.
  intros Hrun Hret.
  destruct (safe_move_cases os false now fs self src folder new_name)
    as (x & o1 & Hfree & _ & Hrun' & Hcases).
  rewrite Hrun in Hrun'. injection Hrun' as <-.
  destruct Hcases as [(Hs & ->)|[(Hs & Hd & ->)|[(Hs & Hd & Hmk & ->)
    |[(Hs & Hd & fs1 & Hmk & Hmv & ->)|(Hs & Hd & fs1 & fs2 & Hmk & Hmv & ->)]]]];
    simpl in Hret; try discriminate.
  set (d := joinpath folder x) in *. exists d.
  assert (Hrm : Executor._recently_moved
                  (Executor._save_transactions os
                     {| Executor.transactions :=
                          Executor.transactions self ++
                          [{| Executor.action := "move"; Executor.src := src;
                              Executor.dest := d; Executor.timestamp := now |}];
                        Executor.transaction_log_file :=
                          Executor.transaction_log_file self;
                        Executor._recently_moved :=
                          <[d := now]> (Executor._recently_moved self) |})
                = <[d := now]> (Executor._recently_moved self)).
  { unfold Executor._save_transactions. now destruct (save_fails os). }
  cbv zeta. simpl Executor.self_after. split; [|split].
  - unfold Executor._save_transactions. destruct (save_fails os); simpl;
      apply last_snoc.
  - unfold Cooldown.is_recently_moved. rewrite Hrm.
    unfold Cooldown._cooldown_seconds.
    destruct (Z.ltb_spec (now' - now) 10) as [Hlt|Hge].
    + rewrite (proj2 (map_lookup_filter_Some _ _ d now)).
      * simpl. now rewrite (proj2 (Z.ltb_lt _ _) Hlt).
      * split; [apply lookup_insert_eq | exact Hlt].
    + rewrite (proj2 (map_lookup_filter_None _ _ d)); [reflexivity|].
      right. intros t Ht. rewrite lookup_insert_eq in Ht. injection Ht as <-.
      simpl. lia.
  - intros file_path q t. unfold Cooldown.is_recently_moved.
    unfold Cooldown._cooldown_seconds.
    set (recent := filter _ _).
    assert (Hsnd : forall b c : bool * Executor.Executor,
               Executor._recently_moved (snd b) = recent ->
               Executor._recently_moved (snd c) = recent ->
               Executor._recently_moved
                 (snd (match recent !! file_path with
                       | Some t0 => if (now' - t0 <? 10)%Z then b else c
                       | None => c
                       end)) = recent).
    { intros b c Hb Hc. destruct (recent !! file_path);
        [destruct (_ <? _)%Z|]; assumption. }
    rewrite Hsnd by reflexivity. unfold recent.
    rewrite map_lookup_filter_Some. reflexivity.
Qed.

Lemma not_ancestor_of_parent (d : Path) : ~ In d (ancestors (parent d)).
Proof.
  intros H. destruct (list_eq_nil_dec d) as [->|Hd].
  - destruct H.
  - apply ancestors_length in H. unfold parent in H.
    destruct (exists_last Hd) as (l & a & ->).
    rewrite removelast_last, length_app in H. simpl in H. lia.
Qed.

(** X14. [execute_move] changes no transaction row but its own and no
    index row but the one of the file's hash, and the path it moves to
    was free before.  When the source is a file or is missing, every
    other file and folder is left as it was, whether the call returns
    or raises.  When it returns after moving a file, the file is at
    that path and gone from the source, and the index row of its hash
    points to the new path. *)
Theorem execute_move_touches_its_own_rows (os : OS) (tx_id : string) (now : Z)
    (fs : FileSystem) (db : Execution.Database) (src dest : Path)
    (file_hash : string) :
  exists (final_dest : Path) (o : Execution.Outcome),
    Execution.execute_move os tx_id now fs db src dest file_hash = Some o /\
    fs !! final_dest = None /\
    (forall id' : string, id' <> tx_id ->
       Execution.transaction_table (Execution.db_after o) !! id'
       = Execution.transaction_table db !! id') /\
    (forall h : string, h <> file_hash ->
       Execution.fileindex_table (Execution.db_after o) !! h
       = Execution.fileindex_table db !! h) /\
    (fs !! src <> Some Dir ->
     forall (p : Path) (n : Node),
       p <> src -> fs !! p = Some n ->
       Execution.fs_after o !! p = Some n) /\
    (Execution.raised o = false ->
     forall content : string,
       fs !! src = Some (File content) ->
       Execution.fs_after o !! final_dest = Some (File content) /\
       Execution.fs_after o !! src = None /\
       Execution.fileindex_table (Execution.db_after o) !! file_hash
         = Some {| Execution.current_path := final_dest;
                   Execution.last_seen := now;
                   Execution.index_status := "processed" |}).
Proof.
  destruct (execute_move_cases os tx_id now fs db src dest file_hash)
    as (final_dest & o & Hres & Hrun & Hcases).
  destruct (resolve_collision_total fs dest) as (fd & Hres' & Hfree).
  rewrite Hres in Hres'. injection Hres' as <-.
  apply exists_false in Hfree.
  exists final_dest, o. split; [exact Hrun|]. split; [exact Hfree|].
  cbv zeta in Hcases.
  destruct Hcases as [[_ ->] | [(_ & Hmk & ->) | [(_ & fs1 & Hmk & Hmv & ->)
                     | (_ & fs1 & fs2 & Hmk & Hmv & ->)]]]; simpl.
  - split; [auto|]. split; [auto|]. split; [auto | discriminate].
  - split; [|split; [auto|split; [auto | discriminate]]].
    intros id' Hid. now rewrite !lookup_insert_ne by congruence.
  - split; [|split; [auto|split; [|discriminate]]].
    + intros id' Hid. now rewrite !lookup_insert_ne by congruence.
    + intros _ p n _ Hp. eapply mkdir_keeps; eauto.
  - assert (Hfree1 : fs1 !! final_dest = None).
    { rewrite (mkdir_other os fs fs1 _ _ Hmk); [exact Hfree|].
      apply not_ancestor_of_parent. }
    destruct (shutil_move_rename os fs1 src final_dest fs2)
      as (node & Hsrc1 & ->); [now apply exists_false | exact Hmv |].
    split; [|split; [|split]].
    + intros id' Hid. now rewrite !lookup_insert_ne by congruence.
    + intros h Hh. now rewrite lookup_insert_ne by congruence.
    + intros _ p n Hp Hn.
      rewrite lookup_insert_ne by congruence.
      rewrite lookup_delete_ne by congruence.
      eapply mkdir_keeps; eauto.
    + intros _ content Hsrc.
      rewrite (mkdir_keeps os fs fs1 _ src _ Hmk Hsrc) in Hsrc1.
      injection Hsrc1 as <-.
      assert (Hne : final_dest <> src) by congruence.
      split; [apply lookup_insert_eq|]. split.
      * rewrite lookup_insert_ne by exact Hne. apply lookup_delete_eq.
      * apply lookup_insert_eq.
Qed.

End ExecutorFacts.

(** ** Saving and loading clusters *)

Section ClusterRoundTrip.
Import Models ModelsIO.



(** X16. When the new embedding and the centroid have different
    lengths and neither has length one, [update_centroid] raises and
    keeps the centroid, yet the file is counted: [n_files] has grown by
    one.  An embedding of length one raises nothing: it is broadcast
    over the centroid. *)
Theorem update_centroid_dimension_mismatch
    (self : FolderCluster) (c e : ndarray) :
  centroid self = Some c ->
  length e <> length c ->
  (length e <> 1%nat -> length c <> 1%nat ->
   update_centroid self e
     = (set_centroid self (Some c) (n_files self + 1)%Z, ValueError)) /\
  (forall x, e = [x] ->
   update_centroid self e
     = (set_centroid self
          (Some (zip_with Qplus c
                   (map (fun y => y / inject_Z (n_files self + 1))
                        (map (Qminus x) c))))
          (n_files self + 1)%Z, Normal)).
Proof.
  intros Hc Hlen. unfold update_centroid. rewrite Hc. split.
  - intros He1 Hc1. unfold broadcast at 1.
    rewrite (proj2 (Nat.eqb_neq _ _) Hlen).
    destruct e as [|x [|y e]]; destruct c as [|z [|u c]]; simpl in *;
      try congruence; try lia.
  - intros x ->. unfold broadcast at 1.
    rewrite (proj2 (Nat.eqb_neq _ _) Hlen).
    rewrite broadcast_same; [reflexivity|]. now rewrite !length_map.
Qed.

End ClusterRoundTrip.

(** ** The folder index *)

Section AtlasFacts.
Import Models Search Atlas.

Lemma argmax_from_spec (l : list Q) : forall best_i best i,
  (best_i < i)%nat ->
  let r := argmax_from best_i best i l in
  let v := if (r <? i)%nat then best else nth (r - i) l 0 in
  best <= v /\
  (forall j, (j < length l)%nat -> nth j l 0 <= v) /\
  (r = best_i \/ (i <= r < i + length l)%nat) /\
  ((i <= r)%nat ->
   best < v /\ forall j, (j < r - i)%nat -> nth j l 0 < v).
Proof.
  induction l as [|x l IH]; intros bi b i Hlt; simpl.
  - rewrite (proj2 (Nat.ltb_lt _ _) Hlt).
    split; [lra|]. split; [intros j Hj; lia|]. split; [auto | lia].
  - destruct (Qlt_bool b x) eqn:E.
    + apply Qlt_bool_iff in E.
      destruct (IH i x (S i) ltac:(lia)) as (H1 & H2 & H3 & H4).
      cbv zeta in *.
      set (r := argmax_from i x (S i) l) in *.
      assert (Hr : (i <= r)%nat) by lia.
      rewrite (proj2 (Nat.ltb_ge _ _) Hr).
      destruct (Nat.ltb_spec r (S i)) as [Hs|Hs].
      * replace (r - i)%nat with 0%nat by lia. simpl.
        split; [lra|]. split.
        { intros [|j] Hj; [lra | apply H2; lia]. }
        split; [right; lia|]. intros _. split; [exact E|].
        intros j Hj. lia.
      * destruct (H4 Hs) as [H5 H6]. clear H4.
        repeat match goal with
               | H : context [(r <? S i)%nat] |- _ =>
                   rewrite (proj2 (Nat.ltb_ge r (S i)) Hs) in H
               end.
        replace (r - i)%nat with (S (r - S i)) by lia. simpl.
        split; [lra|]. split.
        { intros [|j] Hj; [lra | apply H2; lia]. }
        split; [right; lia|]. intros _. split; [lra|].
        intros [|j] Hj; [exact H5 | apply H6; lia].
    + apply Qlt_bool_false in E.
      destruct (IH bi b (S i) ltac:(lia)) as (H1 & H2 & H3 & H4).
      cbv zeta in *.
      set (r := argmax_from bi b (S i) l) in *.
      destruct H3 as [H3|H3].
      * clear H4. rewrite H3 in *. rewrite (proj2 (Nat.ltb_lt _ _) Hlt).
        rewrite (proj2 (Nat.ltb_lt bi (S i)) ltac:(lia)) in H1, H2.
        split; [lra|]. split.
        { intros [|j] Hj; [lra | apply H2; lia]. }
        split; [auto | lia].
      * destruct (H4 ltac:(lia)) as [H5 H6]. clear H4.
        rewrite (proj2 (Nat.ltb_ge r (S i)) ltac:(lia)) in H1, H2, H5, H6.
        rewrite (proj2 (Nat.ltb_ge r i) ltac:(lia)).
        replace (r - i)%nat with (S (r - S i)) by lia. simpl.
        split; [exact H1|]. split.
        { intros [|j] Hj; [lra | apply H2; lia]. }
        split; [right; lia|]. intros _. split; [exact H5|].
        intros [|j] Hj; [lra | apply H6; lia].
Qed.

(** [argmax] answers the first position of a largest element, and
    fails on the empty list only. *)
Lemma argmax_spec (l : list Q) :
  l <> [] -> exists i, argmax l = Some i /\ first_largest l i.
Proof.
  destruct l as [|x l]; [congruence|]. intros _.
  exists (argmax_from 0 x 1 l). split; [reflexivity|].
  destruct (argmax_from_spec l 0%nat x 1%nat ltac:(lia)) as (H1 & H2 & H3 & H4).
  cbv zeta in *. set (r := argmax_from 0 x 1 l) in *.
  unfold first_largest.
  destruct H3 as [H3|H3].
  - clear H4. rewrite H3 in *. simpl in *.
    split; [lia|]. split; [|intros j Hj; lia].
    intros [|j] Hj; [lra | apply H2; lia].
  - destruct (H4 ltac:(lia)) as [H5 H6]. clear H4.
    rewrite (proj2 (Nat.ltb_ge r 1) ltac:(lia)) in H1, H2, H5, H6.
    destruct r as [|r]; [lia|]. simpl in *.
    replace (r - 0)%nat with r in * by lia.
    split; [lia|]. split.
    + intros [|j] Hj; [lra | apply H2; lia].
    + intros [|j] Hj; [exact H5 | apply H6; lia].
Qed.

(** X18. With a search index and a query (the file embedding, or else
    the embedding of a non-empty fallback text) of the dimension of the
    rows, [find_best_folder] takes the first row of the largest cosine
    similarity to that query: it answers the folder at that position of
    the path index, with that similarity, when the similarity is at
    least the threshold, and no folder, with that similarity, when it
    is below.  Without an index, or without a file embedding and
    without a fallback text, it answers [(None, 0.0)]. *)
Theorem find_best_folder_threshold (norm : ndarray -> Q)
    (encode : string -> option ndarray) (self : AtlasService)
    (file_embedding : option ndarray) (fallback_text : option string)
    (threshold : Q) :
  (_embedding_matrix self = None \/ _path_index self = [] ->
   find_best_folder norm encode self file_embedding fallback_text threshold
   = Some (None, 0)) /\
  (file_embedding = None ->
   fallback_text = None \/ fallback_text = Some "" ->
   find_best_folder norm encode self file_embedding fallback_text threshold
   = Some (None, 0)) /\
  (forall (matrix : list ndarray) (query : ndarray),
     _embedding_matrix self = Some matrix -> matrix <> [] ->
     _path_index self <> [] ->
     (file_embedding = Some query \/
      (file_embedding = None /\
       exists t, fallback_text = Some t /\ t <> "" /\
                 encode t = Some query)) ->
     Forall (fun row => length row = length query) matrix ->
     exists i,
       first_largest (map (similarity norm query) matrix) i /\
       let score := nth i (map (similarity norm query) matrix) 0 in
       (threshold <= score ->
        find_best_folder norm encode self file_embedding fallback_text
          threshold
        = match nth_error (_path_index self) i with
          | Some folder => Some (Some folder, score)
          | None => None
          end) /\
       (score < threshold ->
        find_best_folder norm encode self file_embedding fallback_text
          threshold
        = Some (None, score))).
Proof.
  unfold find_best_folder. split; [|split].
  - intros [-> | Hidx]; [reflexivity|].
    destruct (_embedding_matrix self); [|reflexivity].
    now rewrite Hidx.
  - intros -> Hfall.
    destruct (_embedding_matrix self); [|reflexivity].
    destruct (length (_path_index self) =? 0)%nat; [reflexivity|].
    destruct Hfall as [-> | ->]; reflexivity.
  - intros matrix query -> Hm Hidx Hquery Hrows.
    assert (Hlen : (length (_path_index self) =? 0)%nat = false).
    { apply Nat.eqb_neq. destruct (_path_index self); simpl; congruence. }
    rewrite Hlen.
    assert (Hq : match file_embedding, fallback_text with
                 | Some e, _ => Some (Some e)
                 | None, Some t =>
                     if String.eqb t "" then Some None
                     else match encode t with
                          | Some q => Some (Some q)
                          | None => None
                          end
                 | None, None => Some None
                 end = Some (Some query)).
    { destruct Hquery as [-> | (-> & t & -> & Ht & Henc)]; [reflexivity|].
      apply String.eqb_neq in Ht. now rewrite Ht, Henc. }
    rewrite Hq.
    assert (Hall : forallb (fun row => (length row =? length query)%nat)
                     matrix = true).
    { apply forallb_forall. intros row Hrow. apply Nat.eqb_eq.
      rewrite list.Forall_forall in Hrows. apply Hrows.
      now apply list_elem_of_In. }
    rewrite Hall.
    destruct (argmax_spec (map (similarity norm query) matrix))
      as (i & Ha & Hfirst).
    { destruct matrix; simpl; congruence. }
    exists i. split; [exact Hfirst|]. rewrite Ha. cbv zeta. split.
    + intros Hle. apply Qle_bool_iff in Hle. now rewrite Hle.
    + intros Hlt.
      destruct (Qle_bool threshold _) eqn:Ht; [|reflexivity].
      apply Qle_bool_iff in Ht. lra.
Qed.

Lemma dict_set_In {V} (k key : string) (v x : V) (d : Dict.t V) :
  In (k, v) (Dict.set key x d) -> (k, v) = (key, x) \/ In (k, v) d.
Proof.
  induction d as [|[k' v'] d IH]; simpl.
  - intros [H|[]]. left. now symmetry.
  - destruct (String.eqb key k') eqn:E; simpl.
    + apply String.eqb_eq in E. subst k'.
      intros [H|H]; [left; now symmetry | right; now right].
    + intros [H|H]; [right; now left|].
      destruct (IH H) as [H'|H']; [now left | right; now right].
Qed.

Lemma combine_fst_snd {A B} (l : list (A * B)) :
  combine (map fst l) (map snd l) = l.
Proof. induction l as [|[a b] l IH]; simpl; congruence. Qed.

Lemma effective_dimension d (c : FolderCluster) emb :
  of_dimension d c -> get_effective_embedding c = Some emb -> length emb = d.
Proof.
  intros [Hn Hc]. unfold get_effective_embedding.
  destruct (centroid c) as [m|]; [|now apply Hn].
  destruct (MIN_FILES_FOR_CENTROID <=? n_files c)%Z; [|now apply Hn].
  intros [= <-]. now apply Hc.
Qed.

Lemma same_length_dimension d (rows : list ndarray) :
  Forall (fun r => length r = d) rows -> same_length rows = true.
Proof.
  intros H. destruct rows as [|r rest]; [reflexivity|]. simpl.
  inversion H as [|? ? Hr Hrest]; subst.
  apply forallb_forall. intros r' Hin.
  rewrite Forall_forall in Hrest. apply Nat.eqb_eq.
  apply Hrest. now apply list_elem_of_In.
Qed.

(** Rebuilding the search index of clusters of one dimension returns,
    and leaves an index that agrees with the clusters. *)
Lemma rebuild_consistent d (self : AtlasService) :
  all_of_dimension d self ->
  exists self',
    _rebuild_search_index self = (self', Returned) /\
    clusters self' = clusters self /\ consistent self'.
Proof.
  intros Hall. unfold _rebuild_search_index. cbv zeta.
  set (rows := omap indexed (clusters self)).
  assert (Hrows : Forall (fun r => length r = d) (map snd rows)).
  { rewrite Forall_forall. intros r Hr.
    apply list_elem_of_In, in_map_iff in Hr.
    destruct Hr as ([k emb] & <- & Hin). simpl.
    apply list_elem_of_In in Hin.
    apply list_elem_of_omap in Hin. destruct Hin as ([k' c] & Hin & Hidx).
    unfold indexed in Hidx. simpl in Hidx.
    destruct (get_effective_embedding c) as [emb'|] eqn:He; [|discriminate].
    injection Hidx as -> ->.
    eapply effective_dimension; [|exact He].
    apply (Hall k c). now apply list_elem_of_In. }
  apply same_length_dimension in Hrows.
  destruct (map snd rows) as [|r rest] eqn:Hs.
  - eexists. split; [reflexivity|]. split; [reflexivity|].
    unfold consistent, index_rows. cbn [clusters _path_index _embedding_matrix].
    fold rows. destruct rows; [|discriminate]. now split.
  - rewrite Hrows. eexists. split; [reflexivity|]. split; [reflexivity|].
    unfold consistent, index_rows. cbn [clusters _path_index _embedding_matrix].
    fold rows. cbn [default]. rewrite <- Hs. split.
    + apply combine_fst_snd.
    + unfold id. now rewrite !length_map.
Qed.

Lemma update_centroid_dimension d (c : FolderCluster) e :
  of_dimension d c -> length e = d ->
  exists c',
    update_centroid c e = (c', Normal) /\ of_dimension d c' /\
    name_embedding c' = name_embedding c.
Proof.
  intros [Hn Hc] He. destruct (centroid c) as [m|] eqn:Hm.
  - assert (Hlen : length e = length m) by (rewrite (Hc m); auto).
    rewrite (update_centroid_step c m e Hm Hlen).
    eexists. split; [reflexivity|]. split; [|reflexivity].
    split; simpl; [exact Hn|]. intros m' [= <-].
    rewrite zip_with_length.
    + now apply Hc.
    + rewrite length_map, zip_with_length; auto.
  - unfold update_centroid. rewrite Hm.
    eexists. split; [reflexivity|]. split; [|reflexivity].
    split; simpl; [exact Hn|]. now intros m' [= <-].
Qed.

Lemma update_cluster_existing d (encode : string -> option ndarray)
    (self : AtlasService) key nm (c : FolderCluster) e :
  Dict.get key (clusters self) = Some c ->
  all_of_dimension d self -> length e = d ->
  exists self' c',
    update_cluster encode self key nm e = (self', Returned) /\
    update_centroid c e = (c', Normal) /\
    Dict.get key (clusters self') = Some c' /\
    (forall k, k <> key ->
       Dict.get k (clusters self') = Dict.get k (clusters self)) /\
    all_of_dimension d self' /\ consistent self'.
Proof.
  intros Hget Hall He.
  assert (Hc : of_dimension d c) by (apply (Hall key c); now apply dict_get_In).
  destruct (update_centroid_dimension d c e Hc He) as (c' & Hu & Hc' & _).
  set (self2 := with_clusters self (Dict.set key c' (clusters self))).
  assert (Hall2 : all_of_dimension d self2).
  { intros k x Hin. simpl in Hin. apply dict_set_In in Hin.
    destruct Hin as [[= -> ->]|Hin]; [exact Hc' | now apply (Hall k x)]. }
  destruct (rebuild_consistent d self2 Hall2) as (self' & Hr & Hcl & Hcons).
  exists self', c'. unfold update_cluster, Dict.mem. rewrite Hget. cbv zeta.
  rewrite Hget, Hu. fold self2. rewrite Hr, Hcl.
  split; [reflexivity|]. split; [reflexivity|].
  split; [apply dict_get_set_eq|].
  split; [intros k Hk; now apply dict_get_set_ne|].
  split; [|exact Hcons].
  intros k x Hin. rewrite Hcl in Hin. now apply (Hall2 k x).
Qed.

Lemma update_cluster_all_existing d (encode : string -> option ndarray)
    key nm : forall es (self : AtlasService) (c : FolderCluster),
  Dict.get key (clusters self) = Some c ->
  all_of_dimension d self ->
  Forall (fun e => length e = d) es ->
  exists self',
    update_cluster_all encode self key nm es = (self', Returned) /\
    Dict.get key (clusters self') = Some (fst (update_all c es)) /\
    (forall k, k <> key ->
       Dict.get k (clusters self') = Dict.get k (clusters self)) /\
    all_of_dimension d self' /\
    (consistent self \/ es <> [] -> consistent self').
Proof.
  induction es as [|e es IH]; intros self c Hget Hall Hes.
  - exists self. simpl. do 4 (split; [auto|]).
    intros [H|H]; [exact H|congruence].
  - inversion Hes as [|? ? He Hes']; subst.
    destruct (update_cluster_existing (length e) encode self key nm c e
                Hget Hall eq_refl)
      as (self1 & c1 & Hu & Hc & Hget1 & Hother1 & Hall1 & Hcons1).
    destruct (IH self1 c1 Hget1 Hall1 Hes')
      as (self' & Hrun & Hget' & Hother' & Hall' & Hcons').
    exists self'. simpl. rewrite Hu, Hc.
    split; [exact Hrun|]. split; [exact Hget'|].
    split; [intros k Hk; rewrite Hother', Hother1; auto|].
    split; [exact Hall'|]. intros _. apply Hcons'. now left.
Qed.

Lemma update_cluster_new (encode : string -> option ndarray)
    (self : AtlasService) key nm ne e :
  Dict.get key (clusters self) = None -> encode nm = Some ne ->
  update_cluster encode self key nm e =
  update_cluster encode
    (with_clusters self
       (Dict.set key {| path := key; centroid := None;
                        name_embedding := Some ne; n_files := 0 |}
          (clusters self)))
    key nm e.
Proof.
  intros Hget Henc. unfold update_cluster, Dict.mem. simpl.
  rewrite Hget, Henc. rewrite !dict_get_set_eq.
  destruct (update_centroid _ e) as [c' []]; reflexivity.
Qed.

(** X17. Placing files into a folder the atlas does not know yet
    creates its cluster from the embedding of the folder's name and
    then folds every file embedding into it: after the placements the
    cluster counts them, its centroid is their arithmetic mean, it is
    represented by the name embedding while fewer than three files were
    placed and by the centroid from the third on, the rebuilt search
    index agrees with the clusters and lists the folder with that
    embedding, and no other folder's cluster has changed. *)
Theorem update_cluster_builds_centroid d
    (encode : string -> option ndarray) (self : AtlasService)
    (path_str folder_name : string) (name_emb e : ndarray)
    (es : list ndarray) :
  Dict.get path_str (clusters self) = None ->
  encode folder_name = Some name_emb ->
  length name_emb = d ->
  all_of_dimension d self ->
  Forall (fun x => length x = d) (e :: es) ->
  exists self' cluster m,
    update_cluster_all encode self path_str folder_name (e :: es)
      = (self', Returned) /\
    Dict.get path_str (clusters self') = Some cluster /\
    n_files cluster = Z.of_nat (length (e :: es)) /\
    centroid cluster = Some m /\
    array_eq m (arithmetic_mean d (e :: es)) /\
    name_embedding cluster = Some name_emb /\
    get_effective_embedding cluster
      = Some (if (length (e :: es) <? 3)%nat then name_emb else m) /\
    consistent self' /\
    In (path_str, if (length (e :: es) <? 3)%nat then name_emb else m)
       (index_rows self') /\
    forall k, k <> path_str ->
      Dict.get k (clusters self') = Dict.get k (clusters self).
Proof.
  intros Hget Henc Hne Hall Hes.
  set (fresh := {| path := path_str; centroid := None;
                   name_embedding := Some name_emb; n_files := 0 |}).
  set (self0 := with_clusters self (Dict.set path_str fresh (clusters self))).
  assert (Hall0 : all_of_dimension d self0).
  { intros k x Hin. simpl in Hin. apply dict_set_In in Hin.
    destruct Hin as [[= -> ->]|Hin]; [|now apply (Hall k x)].
    split; simpl; [now intros ? [= <-] | discriminate]. }
  assert (Hget0 : Dict.get path_str (clusters self0) = Some fresh)
    by apply dict_get_set_eq.
  destruct (update_cluster_all_existing d encode path_str folder_name
              (e :: es) self0 fresh Hget0 Hall0 Hes)
    as (self' & Hrun & Hget' & Hother & _ & Hcons).
  destruct (update_all_fresh d fresh e es eq_refl Hes)
    as (cluster & m & Hup & Hm & Hlen & Hn & Hname & Hmean).
  rewrite Hup in Hget'. cbn [fst] in Hget'.
  assert (Heff : get_effective_embedding cluster
                 = Some (if (length (e :: es) <? 3)%nat then name_emb else m)).
  { unfold get_effective_embedding, MIN_FILES_FOR_CENTROID.
    rewrite Hm, Hn, Hname. cbn [name_embedding fresh].
    destruct (Nat.ltb_spec (length (e :: es)) 3) as [H|H].
    - now rewrite (proj2 (Z.leb_gt _ _)) by lia.
    - now rewrite (proj2 (Z.leb_le _ _)) by lia. }
  assert (Hcons' : consistent self') by (apply Hcons; now right).
  exists self', cluster, m.
  split.
  { change (update_cluster_all encode self path_str folder_name (e :: es))
      with (match update_cluster encode self path_str folder_name e with
            | (s, Returned) =>
                update_cluster_all encode s path_str folder_name es
            | r => r
            end).
    rewrite (update_cluster_new encode self path_str folder_name name_emb e
               Hget Henc).
    exact Hrun. }
  split; [exact Hget'|]. split; [exact Hn|]. split; [exact Hm|].
  split; [exact Hmean|]. split; [now rewrite Hname|].
  split; [exact Heff|]. split; [exact Hcons'|]. split.
  - destruct Hcons' as [-> _]. apply list_elem_of_In.
    apply list_elem_of_omap. exists (path_str, cluster). split.
    + apply list_elem_of_In. now apply dict_get_In.
    + unfold indexed. cbn [fst snd]. now rewrite Heff.
  - intros k Hk. rewrite (Hother k Hk). simpl. now apply dict_get_set_ne.
Qed.

End AtlasFacts.

(** ** The semantic memory: loading, deduplication and recall *)

Section MemoryFacts.
Import Memory MemoryIO Search.

Lemma substring_length n : forall s,
  (String.length (substring 0 n s) <= n)%nat.
Proof.
  induction n as [|n IH]; intros [|c s]; simpl; try lia.
  specialize (IH s). lia.
Qed.

Lemma substring_whole n : forall s,
  (String.length s <= n)%nat -> substring 0 n s = s.
Proof.
  induction n as [|n IH]; intros [|c s]; simpl; intros H;
    try reflexivity; try lia.
  rewrite IH by lia. reflexivity.
Qed.

Lemma Forall_filter_keep {A} (P : A -> Prop) (f : A -> bool) (l : list A) :
  Forall P l -> Forall P (List.filter f l).
Proof.
  induction 1 as [|x l Hx _ IH]; simpl; [constructor|].
  destruct (f x); [constructor|]; auto.
Qed.

Lemma Forall_tl {A} (P : A -> Prop) (l : list A) :
  Forall P l -> Forall P (tl l).
Proof. destruct 1; simpl; auto. Qed.

Lemma save_fields save_fails self :
  data (save save_fails self) = data self /\
  max_entries (save save_fails self) = max_entries self /\
  max_text_chars (save save_fails self) = max_text_chars self /\
  embeddings_cache (save save_fails self) = embeddings_cache self.
Proof. unfold save. destruct save_fails; simpl; auto. Qed.

Lemma rebuild_index_max_text_chars save_fails self :
  max_text_chars (_rebuild_index save_fails self) = max_text_chars self.
Proof.
  unfold _rebuild_index. destruct (data self) as [|d0 ds]; [reflexivity|].
  set (clean := List.filter _ (d0 :: ds)).
  destruct (map embedding clean); [reflexivity|].
  destruct (np_array _); [|reflexivity].
  destruct (0 <? _)%nat; [|reflexivity].
  unfold save. destruct save_fails; reflexivity.
Qed.

Lemma rebuild_index_Forall (P : Entry -> Prop) save_fails self :
  Forall P (data self) -> Forall P (data (_rebuild_index save_fails self)).
Proof.
  intros H. rewrite (proj1 (rebuild_index_data save_fails self)).
  apply Forall_take. now apply Forall_filter_keep.
Qed.

Lemma np_array_rows rows cache : np_array rows = Some cache -> cache = rows.
Proof.
  unfold np_array. destruct rows as [|r rest]; [now intros [= <-]|].
  destruct (row_length r) as [n|]; [|discriminate].
  destruct (forallb _ (r :: rest)); [|discriminate].
  now intros [= <-].
Qed.

Lemma rebuild_index_cache save_fails (self : SemanticMemory) cache :
  embeddings_cache (_rebuild_index save_fails self) = Some cache ->
  cache = map embedding (data (_rebuild_index save_fails self)).
Proof.
  unfold _rebuild_index.
  destruct (data self) as [|d0 ds]; [discriminate|].
  set (clean := List.filter _ (d0 :: ds)).
  destruct (map embedding clean) as [|r rows] eqn:Hmap; [discriminate|].
  destruct (np_array _) as [cache'|] eqn:Hnp; [|discriminate].
  apply np_array_rows in Hnp.
  assert (Hgoal : cache' = map embedding (take (max_entries self) clean)).
  { rewrite Hnp, <- Hmap. apply firstn_map. }
  destruct (0 <? _)%nat; [unfold save; destruct save_fails|]; simpl;
    intros [= <-]; auto.
Qed.

(** X19. Whenever [_rebuild_index] leaves a cache, the cache has one
    row per stored entry, in the order of the entries, row [i] being
    built from the embedding of entry [i]: the position [recall] finds
    in the cache is the position of the entry in the data.  Every
    stored entry has an embedding that is a non-empty list starting
    with a number, and at most [max_entries] entries are stored.  A
    store that is left empty has no cache (given room for one entry at
    least). *)
Theorem rebuild_index_cache_aligned save_fails (self : SemanticMemory) :
  let self' := _rebuild_index save_fails self in
  (forall cache,
     embeddings_cache self' = Some cache ->
     cache = map embedding (data self') /\
     length cache = length (data self')) /\
  Forall (fun entry => valid_embedding (embedding entry) = true)
    (data self') /\
  (length (data self') <= max_entries self)%nat /\
  ((0 < max_entries self)%nat -> data self' = [] ->
   embeddings_cache self' = None).
Proof.
  cbv zeta. split; [|split; [|split]].
  - intros cache Hcache. apply rebuild_index_cache in Hcache.
    split; [exact Hcache|]. now rewrite Hcache, length_map.
  - apply rebuild_index_well_formed.
  - destruct (rebuild_index_well_formed save_fails self) as [Hlen _].
    now rewrite (proj2 (rebuild_index_data save_fails self)) in Hlen.
  - intros Hpos Hempty.
    destruct (embeddings_cache (_rebuild_index save_fails self))
      as [cache|] eqn:Hcache; [|reflexivity].
    exfalso. revert Hcache Hempty. unfold _rebuild_index.
    destruct (data self) as [|d0 ds]; [discriminate|].
    set (clean := List.filter _ (d0 :: ds)).
    destruct (map embedding clean) as [|r rows] eqn:Hmap; [discriminate|].
    assert (Hne : take (max_entries self) clean <> []).
    { destruct clean; [discriminate|].
      destruct (max_entries self); [lia | discriminate]. }
    destruct (np_array _); [|discriminate].
    destruct (0 <? _)%nat; [unfold save; destruct save_fails|]; simpl;
      intros _ H; congruence.
Qed.

(** X20. What [load] leaves behind: a store within its capacity whose
    entries all have an embedding the index keeps, with a cache aligned
    with the entries; an empty store without cache when the file is
    missing or unreadable; and, when the model's dimension is known,
    only entries whose embedding has that dimension and whose text is
    at most [max_text_chars] long. *)
Theorem load_cleans_store (readable : bool) (expected_dim : option nat)
    (save_fails : bool) (self : SemanticMemory) :
  let self' := load readable expected_dim save_fails self in
  well_formed self' /\
  max_entries self' = max_entries self /\
  match embeddings_cache self' with
  | Some cache => cache = map embedding (data self')
  | None => True
  end /\
  (readable = false -> data self' = [] /\ embeddings_cache self' = None) /\
  (forall dim, readable = true -> expected_dim = Some dim ->
     Forall (fun entry =>
               has_dimension dim entry = true /\
               (String.length (text entry) <= max_text_chars self)%nat)
            (data self')).
Proof.
  cbv zeta. unfold load. cbv zeta.
  set (self1 := if readable then _ else _).
  split; [apply rebuild_index_well_formed|].
  split.
  { rewrite (proj2 (rebuild_index_data save_fails self1)).
    subst self1. destruct readable; [|reflexivity].
    destruct expected_dim; [|reflexivity].
    destruct (_ || _); [|reflexivity].
    now rewrite (proj1 (proj2 (save_fields _ _))). }
  split.
  { destruct (embeddings_cache (_rebuild_index save_fails self1))
      as [cache|] eqn:Hcache; [|exact I].
    now apply rebuild_index_cache in Hcache. }
  split.
  - intros ->. subst self1. now cbn.
  - intros dim -> ->. subst self1. apply rebuild_index_Forall.
    assert (H : Forall (fun entry =>
                has_dimension dim entry = true /\
                (String.length (text entry) <= max_text_chars self)%nat)
              (take (max_entries self)
                 (map (truncated self)
                    (List.filter (has_dimension dim) (memory_file self))))).
    { apply Forall_take. apply list.Forall_forall. intros x Hx.
      apply list_elem_of_In, in_map_iff in Hx.
      destruct Hx as (y & <- & Hy). apply filter_In in Hy.
      destruct Hy as [_ Hy]. split.
      - exact Hy.
      - apply substring_length. }
    destruct (_ || _); [|exact H].
    now rewrite (proj1 (save_fields _ _)).
Qed.

Lemma learn_Forall (P : Entry -> Prop) encode save_fails self text_
    category_ embedding_ :
  Forall P (data self) ->
  (forall emb, resolve encode text_ embedding_ = Some emb ->
     P (new_entry self text_ category_ emb)) ->
  Forall P (data (fst (learn encode save_fails self text_ category_
                         embedding_))).
Proof.
  intros Hdata Hnew. unfold learn.
  destruct (resolve encode text_ embedding_) as [emb|]; [|exact Hdata].
  destruct (is_duplicate self text_ category_); [exact Hdata|].
  cbn [fst]. apply rebuild_index_Forall.
  rewrite (proj1 (save_fields _ _)). cbn [data with_data].
  apply Forall_app. split.
  - destruct (_ <=? _)%nat; [now apply Forall_tl | exact Hdata].
  - constructor; [now apply Hnew | constructor].
Qed.

Lemma learn_data encode save_fails self text_ category_ embedding_ emb :
  well_formed self -> (0 < max_entries self)%nat ->
  resolve encode text_ embedding_ = Some emb ->
  valid_embedding emb = true ->
  is_duplicate self text_ category_ = false ->
  data (fst (learn encode save_fails self text_ category_ embedding_)) =
  (if (max_entries self <=? length (data self))%nat
   then tl (data self) else data self)
  ++ [new_entry self text_ category_ emb].
Proof.
  intros [Hlen Hvalid] Hpos Hres Hemb Hdup. unfold learn.
  rewrite Hres, Hdup. cbn [fst].
  rewrite (proj1 (rebuild_index_data _ _)).
  rewrite (proj1 (save_fields _ _)), (proj1 (proj2 (save_fields _ _))).
  cbn [data max_entries with_data].
  set (data1 := if (_ <=? _)%nat then _ else _).
  assert (Hlen1 : (length data1 < max_entries self)%nat).
  { subst data1. destruct (Nat.leb_spec (max_entries self) (length (data self))).
    - destruct (data self); simpl in *; lia.
    - lia. }
  assert (Hvalid1 : Forall (fun d => valid_embedding (embedding d) = true) data1).
  { subst data1. destruct (_ <=? _)%nat; [now apply Forall_tl | exact Hvalid]. }
  rewrite filter_all_true.
  - apply take_ge. rewrite length_app. simpl. lia.
  - apply Forall_app. split; [exact Hvalid1|].
    constructor; [exact Hemb | constructor].
Qed.

Lemma learn_max_text_chars encode save_fails self text_ category_ embedding_ :
  max_text_chars (fst (learn encode save_fails self text_ category_
                         embedding_)) = max_text_chars self.
Proof.
  unfold learn. destruct (resolve encode text_ embedding_); [|reflexivity].
  destruct (is_duplicate self text_ category_); [reflexivity|]. cbn [fst].
  rewrite rebuild_index_max_text_chars.
  now rewrite (proj1 (proj2 (proj2 (save_fields _ _)))).
Qed.

(** X21. A text that fits [max_text_chars] is learned once: after a
    [learn] of it with a usable embedding the store holds the pair, and
    every later [learn] of the same text and category returns at once
    and changes nothing. *)
Theorem learn_is_idempotent (encode : string -> option Json)
    (save_fails : bool) (self : SemanticMemory) (text_ category_ : string)
    (emb : Json) :
  well_formed self -> (0 < max_entries self)%nat ->
  valid_embedding emb = true ->
  (String.length text_ <= max_text_chars self)%nat ->
  let self1 :=
    fst (learn encode save_fails self text_ category_ (Some emb)) in
  is_duplicate self1 text_ category_ = true /\
  forall save_fails' emb',
    learn encode save_fails' self1 text_ category_ (Some emb')
    = (self1, true).
Proof.
  intros Hwf Hpos Hemb Htext self1.
  assert (Hdup1 : is_duplicate self1 text_ category_ = true).
  { destruct (is_duplicate self text_ category_) eqn:Hdup.
    - subst self1. unfold learn. simpl resolve. cbv iota. now rewrite Hdup.
    - unfold is_duplicate. subst self1.
      rewrite (learn_data encode save_fails self text_ category_ (Some emb)
                 emb Hwf Hpos eq_refl Hemb Hdup).
      rewrite existsb_app. apply orb_true_iff. right.
      simpl. rewrite (substring_whole _ _ Htext), !String.eqb_refl.
      reflexivity. }
  split; [exact Hdup1|].
  intros sf' emb'. unfold learn. simpl resolve. cbv iota.
  now rewrite Hdup1.
Qed.

(** X22. A text longer than [max_text_chars] is never recognised as
    learned, because the store keeps its truncation and [learn]
    compares with the whole text: two calls of [learn] with the same
    long text and category store the same entry twice. *)
Theorem learn_long_text_stored_twice (encode : string -> option Json)
    (save_fails : bool) (self : SemanticMemory) (text_ category_ : string)
    (emb : Json) :
  well_formed self ->
  Forall (fun entry =>
            (String.length (text entry) <= max_text_chars self)%nat)
         (data self) ->
  valid_embedding emb = true ->
  (max_text_chars self < String.length text_)%nat ->
  (length (data self) + 2 <= max_entries self)%nat ->
  let self1 :=
    fst (learn encode save_fails self text_ category_ (Some emb)) in
  let self2 :=
    fst (learn encode save_fails self1 text_ category_ (Some emb)) in
  data self2 =
    data self ++ [new_entry self text_ category_ emb;
                  new_entry self text_ category_ emb].
Proof.
  intros Hwf Hshort Hemb Hlong Hroom self1 self2.
  assert (Hnodup : forall s : SemanticMemory,
            Forall (fun entry =>
                      (String.length (text entry) <= max_text_chars self)%nat)
                   (data s) ->
            is_duplicate s text_ category_ = false).
  { intros s Hs. unfold is_duplicate.
    apply not_true_is_false. intros H. apply existsb_exists in H.
    destruct H as (x & Hx & Hxt). apply andb_true_iff in Hxt.
    destruct Hxt as [Hxt _]. apply String.eqb_eq in Hxt.
    rewrite list.Forall_forall in Hs.
    specialize (Hs x (proj2 (list_elem_of_In _ _) Hx)).
    rewrite Hxt in Hs. lia. }
  assert (Hd1 : data self1 = data self ++ [new_entry self text_ category_ emb]).
  { subst self1.
    rewrite (learn_data encode save_fails self text_ category_ (Some emb)
               emb Hwf ltac:(lia) eq_refl Hemb (Hnodup self Hshort)).
    now rewrite (proj2 (Nat.leb_gt _ _)) by lia. }
  assert (Hwf1 : well_formed self1) by (now apply learn_well_formed).
  assert (Hmax1 : max_entries self1 = max_entries self)
    by apply learn_max_entries.
  assert (Hchars1 : max_text_chars self1 = max_text_chars self)
    by apply learn_max_text_chars.
  assert (Hshort1 : Forall (fun entry =>
            (String.length (text entry) <= max_text_chars self)%nat)
            (data self1)).
  { rewrite Hd1. apply Forall_app. split; [exact Hshort|].
    constructor; [apply substring_length | constructor]. }
  subst self2.
  rewrite (learn_data encode save_fails self1 text_ category_ (Some emb)
             emb Hwf1 ltac:(lia) eq_refl Hemb (Hnodup self1 Hshort1)).
  rewrite Hmax1, Hd1, length_app. simpl length.
  rewrite (proj2 (Nat.leb_gt _ _)) by lia.
  rewrite <- app_assoc. simpl. unfold new_entry. now rewrite Hchars1.
Qed.

(** X23. With a cache, a non-empty store and the similarities of the
    query to the cache rows, [recall] takes the first position of the
    largest similarity: it answers the category of the stored entry at
    that position, with that similarity, when the similarity is
    strictly above the threshold, and [(None, 0.0)] when it is not.
    Without a cache, with an empty store, or when the similarity
    computation raises, it answers [(None, 0.0)]. *)
Theorem recall_above_threshold
    (cos_sim : Json -> list Json -> option (list Q))
    (self : SemanticMemory) (embedding_ : Json) (threshold : Q) :
  (embeddings_cache self = None \/ data self = [] ->
   recall cos_sim self embedding_ threshold = (None, 0)) /\
  (forall cache,
     embeddings_cache self = Some cache -> data self <> [] ->
     (cos_sim embedding_ cache = None ->
      recall cos_sim self embedding_ threshold = (None, 0)) /\
     (forall hits,
        cos_sim embedding_ cache = Some hits -> hits <> [] ->
        exists i,
          first_largest hits i /\
          (threshold < nth i hits 0 ->
           recall cos_sim self embedding_ threshold
           = match nth_error (data self) i with
             | Some entry => (Some (category entry), nth i hits 0)
             | None => (None, 0)
             end) /\
          (nth i hits 0 <= threshold ->
           recall cos_sim self embedding_ threshold = (None, 0)))).
Proof.
  unfold recall. split.
  - intros [-> | Hdata]; [reflexivity|].
    destruct (embeddings_cache self); [|reflexivity]. now rewrite Hdata.
  - intros cache -> Hdata.
    assert (Hlen : (length (data self) <? 1)%nat = false).
    { apply Nat.ltb_ge. destruct (data self); simpl; [congruence | lia]. }
    rewrite Hlen. split; [now intros ->|].
    intros hits -> Hhits.
    destruct (argmax_spec hits Hhits) as (i & Ha & Hfirst).
    exists i. split; [exact Hfirst|]. rewrite Ha. cbv zeta. split.
    + intros Hlt. apply Qlt_bool_iff in Hlt. now rewrite Hlt.
    + intros Hle. apply Qlt_bool_false in Hle. now rewrite Hle.
Qed.

(** X24. [Classifier.learn] teaches the memory nothing for an empty
    keyword list or for the category ["Unknown"], so a store without
    ["Unknown"] entries stays without them; what it adds is the
    keywords joined by spaces, cut to [max_text_chars], under the given
    category; and the store stays well formed. *)
Theorem classifier_learn_never_unknown (encode : string -> option Json)
    (save_fails : bool) (memory : SemanticMemory) (keywords : list string)
    (category_ : string) :
  let memory' := classifier_learn encode save_fails memory keywords category_ in
  (keywords = [] \/ category_ = "Unknown" -> memory' = memory) /\
  (Forall (fun entry => category entry <> "Unknown") (data memory) ->
   Forall (fun entry => category entry <> "Unknown") (data memory')) /\
  Forall (fun entry =>
            In entry (data memory) \/
            (text entry = substring 0 (max_text_chars memory)
                            (String.concat " " keywords) /\
             category entry = category_))
         (data memory') /\
  (well_formed memory -> well_formed memory').
Proof.
  cbv zeta. unfold classifier_learn. split; [|split; [|split]].
  - intros [->| ->]; [reflexivity|]. destruct keywords; reflexivity.
  - intros H. destruct keywords as [|k ks]; [exact H|].
    destruct (String.eqb category_ "Unknown") eqn:E; [exact H|].
    apply String.eqb_neq in E.
    destruct (encode _) as [emb|]; [|exact H].
    apply learn_Forall; [exact H|]. intros emb0 _. exact E.
  - assert (H0 : Forall (fun entry =>
              In entry (data memory) \/
              (text entry = substring 0 (max_text_chars memory)
                              (String.concat " " keywords) /\
               category entry = category_)) (data memory)).
    { apply list.Forall_forall. intros x Hx. left.
      now apply list_elem_of_In. }
    destruct keywords as [|k ks]; [exact H0|].
    destruct (String.eqb category_ "Unknown"); [exact H0|].
    destruct (encode _) as [emb|]; [|exact H0].
    apply learn_Forall; [exact H0|]. intros emb0 _. right. now split.
  - intros H. destruct keywords as [|k ks]; [exact H|].
    destruct (String.eqb category_ "Unknown"); [exact H|].
    destruct (encode _) as [emb|]; [|exact H].
    now apply learn_well_formed.
Qed.

End MemoryFacts.

(** ** Worked instances *)

Section Instances.
Import Voters Pipeline Fs Scenarios.

Lemma nli_alone_decides_witness :
  let self := {| voters := [];
                 nli_voter := NLIVoter says_finance ["Finance"] |} in
  fast_votes self invoice = [] /\
  exists r,
    snd (process_file self invoice) = Some r /\
    category r = "Finance" /\
    confidence r == 153 # 200 /\
    method r = "voting_ensemble_with_nli" /\
    votes r = [{| entry_voter := "NLI"; entry_category := "Finance";
                  entry_confidence := 17 # 20 |}].
Proof.
  intros self. split; [reflexivity|].
  apply (nli_alone_decides [] says_finance ["Finance"] invoice);
    [reflexivity | discriminate | discriminate].
Defined.

Lemma arbitrate_order_independent_witness :
  (forall c, List.filter (voted_for c) images_then_code
             = List.filter (voted_for c) code_then_images) /\
  let '(w, conf, sb) := _arbitrate images_then_code in
  let '(w', conf', sb') := _arbitrate code_then_images in
  (forall c, Dict.get c sb = Dict.get c sb') /\
  conf == conf' /\
  ((forall c s, Dict.get c sb = Some s -> c <> w ->
                s < default 0 (Dict.get w sb)) ->
   w' = w).
Proof.
  assert (Hsame : forall c,
            List.filter (voted_for c) images_then_code
            = List.filter (voted_for c) code_then_images).
  { intros c. unfold images_then_code, code_then_images.
    cbn -[String.eqb].
    destruct (String.eqb "Images" c) eqn:E1;
      destruct (String.eqb "Code" c) eqn:E2; try reflexivity.
    apply String.eqb_eq in E1, E2. congruence. }
  split; [exact Hsame|].
  exact (arbitrate_order_independent images_then_code code_then_images Hsame).
Defined.

Lemma agreeing_vote_keeps_winner_witness :
  let v := NLIVoter says_finance ["Finance"] in
  let w := fst (fst (_arbitrate images_then_code)) in
  images_then_code <> [] /\
  0 <= weight v * (17 # 20) /\
  fst (fst (_arbitrate (images_then_code ++ [(v, w, 17 # 20)]))) = w /\
  snd (fst (_arbitrate images_then_code))
    <= snd (fst (_arbitrate (images_then_code ++ [(v, w, 17 # 20)]))).
Proof.
  intros v w.
  assert (Hne : images_then_code <> []) by discriminate.
  assert (Hpos : 0 <= weight v * (17 # 20)) by (vm_compute; discriminate).
  split; [exact Hne|]. split; [exact Hpos|].
  exact (agreeing_vote_keeps_winner images_then_code v (17 # 20) Hne Hpos).
Defined.

Lemma weak_voter_alone_escalates_witness :
  fast_votes file_type_engine holiday = ballot holiday file_type /\
  nli_calls (fst (process_file file_type_engine holiday)) = 1%nat.
Proof.
  split; [reflexivity|].
  apply (weak_voter_alone_escalates file_type_engine holiday file_type
           one_segment 0 idle_session);
    [left; reflexivity | reflexivity | discriminate].
Defined.

Lemma safe_move_never_overwrites_witness :
  let fs := Examples.docs_with_report in
  let src := ["inbox"; "report.pdf"] in
  Pathlib.plain_name "report.pdf" = true /\
  exists o,
    Executor.safe_move Examples.reliable_os false 100 fs
      Examples.new_executor src ["docs"] (Some "report.pdf") = Some o /\
    Executor.returned o = true /\
    exists final_dest : Path,
      fs !! final_dest = None /\
      parent final_dest = ["docs"] /\
      Executor.fs_after o !! final_dest = Some (File "second") /\
      Executor.fs_after o !! src = None /\
      (forall (p : Path) (n : Node),
         p <> src -> fs !! p = Some n -> Executor.fs_after o !! p = Some n) /\
      Executor.transactions (Executor.self_after o) =
        Executor.transactions Examples.new_executor ++
        [{| Executor.action := "move"; Executor.src := src;
            Executor.dest := final_dest; Executor.timestamp := 100 |}].
Proof.
  intros fs src. split; [reflexivity|]. eexists.
  split; [vm_compute; reflexivity|]. split; [reflexivity|].
  apply (safe_move_never_overwrites Examples.reliable_os 100 fs
           Examples.new_executor src ["docs"] (Some "report.pdf") "second");
    [intros n [= <-]; reflexivity | reflexivity | vm_compute; reflexivity
    | reflexivity].
Defined.

Lemma safe_move_then_undo_witness :
  let fs := Examples.docs_with_report in
  let src := ["inbox"; "report.pdf"] in
  exists o,
    Executor.safe_move Examples.reliable_os false 100 fs
      Examples.new_executor src ["docs"] None = Some o /\
    Executor.returned o = true /\
    is_dir fs (parent src) = true /\
    let o' := Executor.undo_last Examples.reliable_os (Executor.fs_after o)
                (Executor.self_after o) in
    Executor.returned o' = true /\
    mkdir Examples.reliable_os fs ["docs"] = Some (Executor.fs_after o') /\
    Executor.fs_after o' !! src = Some (File "second") /\
    Executor.transactions (Executor.self_after o')
      = Executor.transactions Examples.new_executor.
Proof.
  intros fs src. eexists.
  split; [vm_compute; reflexivity|]. split; [reflexivity|].
  split; [reflexivity|].
  apply (safe_move_then_undo Examples.reliable_os 100 fs
           Examples.new_executor src ["docs"] None "second");
    [reflexivity | vm_compute; reflexivity | reflexivity | reflexivity
    | intros d; reflexivity].
Defined.

Lemma placed_file_is_recent_witness :
  let fs := Examples.docs_with_report in
  let src := ["inbox"; "report.pdf"] in
  exists o,
    Executor.safe_move Examples.reliable_os false 100 fs
      Examples.new_executor src ["docs"] None = Some o /\
    Executor.returned o = true /\
    exists final_dest : Path,
      last (Executor.transactions (Executor.self_after o))
        = Some {| Executor.action := "move"; Executor.src := src;
                  Executor.dest := final_dest;
                  Executor.timestamp := 100 |} /\
      fst (Cooldown.is_recently_moved 105 (Executor.self_after o) final_dest)
        = (105 - 100 <? 10)%Z /\
      forall (file_path q : Path) (t : Z),
        Executor._recently_moved
          (snd (Cooldown.is_recently_moved 105 (Executor.self_after o)
                  file_path))
          !! q = Some t <->
        Executor._recently_moved (Executor.self_after o) !! q = Some t /\
        (105 - t < 10)%Z.
Proof.
  intros fs src. eexists.
  split; [vm_compute; reflexivity|]. split; [reflexivity|].
  apply (placed_file_is_recent Examples.reliable_os 100 105 fs
           Examples.new_executor src ["docs"] None);
    [vm_compute; reflexivity | reflexivity].
Defined.

Lemma find_best_folder_threshold_witness :
  let matrix := [[1; 0]; [0; 1]] in
  let query := [0; 1] in
  exists i,
    Search.first_largest (map (Atlas.similarity unit_norm query) matrix) i /\
    let score := nth i (map (Atlas.similarity unit_norm query) matrix) 0 in
    (1 # 2 <= score ->
     Atlas.find_best_folder unit_norm encode_name two_folder_atlas
       (Some query) None (1 # 2)
     = match nth_error (Atlas._path_index two_folder_atlas) i with
       | Some folder => Some (Some folder, score)
       | None => None
       end) /\
    (score < 1 # 2 ->
     Atlas.find_best_folder unit_norm encode_name two_folder_atlas
       (Some query) None (1 # 2)
     = Some (None, score)).
Proof.
  intros matrix query.
  apply (proj2 (proj2 (find_best_folder_threshold unit_norm encode_name
                         two_folder_atlas (Some query) None (1 # 2)))
           matrix query);
    [reflexivity | discriminate | discriminate | left; reflexivity
    | repeat constructor].
Defined.

Lemma recall_above_threshold_witness :
  let hits := [1 # 2; 9 # 10] in
  exists i,
    Search.first_largest hits i /\
    (3 # 5 < nth i hits 0 ->
     MemoryIO.recall favours_second indexed_memory
       (Memory.JList [Memory.JNum 0; Memory.JNum 1]) (3 # 5)
     = match nth_error (Memory.data indexed_memory) i with
       | Some entry => (Some (Memory.category entry), nth i hits 0)
       | None => (None, 0)
       end) /\
    (nth i hits 0 <= 3 # 5 ->
     MemoryIO.recall favours_second indexed_memory
       (Memory.JList [Memory.JNum 0; Memory.JNum 1]) (3 # 5)
     = (None, 0)).
Proof.
  intros hits.
  apply (proj2 (proj2 (recall_above_threshold favours_second indexed_memory
                         (Memory.JList [Memory.JNum 0; Memory.JNum 1])
                         (3 # 5))
                  (map Memory.embedding (Memory.data Examples.full_memory))
                  ltac:(vm_compute; reflexivity) ltac:(discriminate))
           hits);
    [reflexivity | discriminate].
Defined.

Lemma update_centroid_dimension_mismatch_witness :
  let self := two_files_cluster in
  let e := [1; 2; 3] in
  Models.centroid self = Some [1; 2] /\
  length e <> length [1; 2] /\
  Models.update_centroid self e
  = (Models.set_centroid self (Some [1; 2]) 3%Z, Models.ValueError).
Proof.
  intros self e.
  assert (Hlen : length e <> length [1; 2]) by (simpl; lia).
  split; [reflexivity|]. split; [exact Hlen|].
  apply (proj1 (update_centroid_dimension_mismatch self [1; 2] e
                  eq_refl Hlen)); simpl; lia.
Defined.

Lemma update_cluster_builds_centroid_witness :
  let es := [[1; 3]; [3; 5]; [5; 7]] in
  Atlas.all_of_dimension 2 empty_atlas /\
  exists self' cluster m,
    Atlas.update_cluster_all encode_name empty_atlas "docs" "docs" es
      = (self', Atlas.Returned) /\
    Dict.get "docs" (Atlas.clusters self') = Some cluster /\
    Models.n_files cluster = 3%Z /\
    Models.centroid cluster = Some m /\
    Models.array_eq m (Models.arithmetic_mean 2 es) /\
    Models.get_effective_embedding cluster = Some m /\
    In ("docs", m) (Atlas.index_rows self').
Proof.
  intros es.
  assert (Hall : Atlas.all_of_dimension 2 empty_atlas) by (intros k c []).
  split; [exact Hall|].
  destruct (update_cluster_builds_centroid 2 encode_name empty_atlas
              "docs" "docs" [1; 0] [1; 3] [[3; 5]; [5; 7]]
              eq_refl eq_refl eq_refl Hall)
    as (self' & cluster & m & H1 & H2 & H3 & H4 & H5 & _ & H7 & _ & H9 & _).
  { repeat constructor. }
  exists self', cluster, m.
  split; [exact H1|]. split; [exact H2|]. split; [exact H3|].
  split; [exact H4|]. split; [exact H5|]. split; [exact H7 | exact H9].
Defined.

Lemma learn_is_idempotent_witness :
  let emb := Memory.JList [Memory.JNum 1; Memory.JNum 1] in
  let self1 :=
    fst (Memory.learn (fun _ => None) false short_memory "tax" "Finance"
           (Some emb)) in
  Memory.well_formed short_memory /\
  Memory.is_duplicate self1 "tax" "Finance" = true /\
  Memory.learn (fun _ => None) true self1 "tax" "Finance"
    (Some (Memory.JList [Memory.JNum 0]))
  = (self1, true).
Proof.
  intros emb self1.
  assert (Hwf : Memory.well_formed short_memory).
  { split; [simpl; lia | repeat constructor]. }
  split; [exact Hwf|].
  destruct (learn_is_idempotent (fun _ => None) false short_memory
              "tax" "Finance" emb Hwf) as [H1 H2];
    [simpl; lia | reflexivity | simpl; lia |].
  split; [exact H1 | apply H2].
Defined.

Lemma learn_long_text_stored_twice_witness :
  let emb := Memory.JList [Memory.JNum 1; Memory.JNum 1] in
  let self1 :=
    fst (Memory.learn (fun _ => None) false short_memory "tax return" "Finance"
           (Some emb)) in
  let self2 :=
    fst (Memory.learn (fun _ => None) false self1 "tax return" "Finance"
           (Some emb)) in
  Memory.well_formed short_memory /\
  Memory.data self2 =
    Memory.data short_memory ++
    [{| Memory.text := "tax "; Memory.category := "Finance";
        Memory.embedding := emb |};
     {| Memory.text := "tax "; Memory.category := "Finance";
        Memory.embedding := emb |}].
Proof.
  intros emb self1 self2.
  assert (Hwf : Memory.well_formed short_memory).
  { split; [simpl; lia | repeat constructor]. }
  split; [exact Hwf|].
  apply (learn_long_text_stored_twice (fun _ => None) false short_memory
           "tax return" "Finance" emb Hwf);
    [repeat constructor | reflexivity | simpl; lia | simpl; lia].
Defined.

End Instances.
